(** * frame_video_streamer: a shallow embedding of the streaming pipeline

    The program reads a video with OpenCV, keeps every [frame_step]-th frame,
    quantises it with Pillow to a fixed four-level gray palette, wraps it in a
    [TxImageSpriteBlock] and sends the block over the Frame transport.  The
    producer and the consumer are two asyncio tasks that share a bounded
    queue and the [running] flag of the streamer object.

    Layout of the development:
    - Python values the code computes with (exceptions, floats, [round]);
    - the external libraries (cv2 / Pillow / frame_msg), as records of
      operations together with one executable model of each;
    - the streamer object, the three tasks ([stream], [_frame_producer],
      [_frame_consumer]) as a step function on a shared state, and schedules;
    - invariants of all reachable states and the properties derived from them. *)

From Stdlib Require Import ZArith List Bool Lia String.
From Stdlib Require Import Floats.SpecFloat.
From stdpp Require Import base tactics option list.

Open Scope Z_scope.

(* ===================================================================== *)
(** ** Python values                                                      *)
(* ===================================================================== *)

(** The exception classes that the modelled code paths can raise. *)
Inductive exn : Type :=
| ZeroDivisionError
| ValueError
| OverflowError
| cv2_error
| TransportError
| CancelledError.

Inductive result (A : Type) : Type :=
| Ok (a : A)
| Raise (e : exn).
Arguments Ok {A} a.
Arguments Raise {A} e.

#[global] Instance result_ret : MRet result := fun A a => Ok a.

#[global] Instance result_bind : MBind result := fun A B k r =>
  match r with
  | Ok a => k a
  | Raise e => Raise e
  end.

(** Python floats are IEEE 754 binary64 numbers. *)
Definition float : Type := spec_float.
Definition prec : Z := 53.
Definition emax : Z := 1024.

(** [float(z)] for a Python int: correctly rounded, [OverflowError] when the
    int is too large. *)
Definition float_of_int (z : Z) : result float :=
  match binary_normalize prec emax z 0 false with
  | S754_infinity _ => Raise OverflowError
  | f => Ok f
  end.

(** An int seen as an exact dyadic number (mantissa not yet rounded). *)
Definition exact_of_int (z : Z) : float :=
  match z with
  | Z0 => S754_zero false
  | Zpos p => S754_finite false p 0
  | Zneg p => S754_finite true p 0
  end.

(** Truth value of a float: everything except 0.0 and -0.0 (NaN included). *)
Definition float_truthy (f : float) : bool :=
  match f with
  | S754_zero _ => false
  | _ => true
  end.

(** What [cap.get(cv2.CAP_PROP_FPS) or 30] evaluates to: the float when it
    is truthy, otherwise the int 30. *)
Inductive PyNum : Type :=
| PyFloat (f : float)
| PyInt (z : Z).

Definition DEFAULT_FPS : Z := 30.

Definition or_default (f : float) : PyNum :=
  if float_truthy f then PyFloat f else PyInt DEFAULT_FPS.

(** [x / y] with [y] an int: true division.  A float numerator converts the
    int first; two ints are divided exactly and rounded once. *)
Definition truediv (x : PyNum) (y : Z) : result float :=
  match x with
  | PyFloat f =>
      fy ← float_of_int y;
      if y =? 0 then Raise ZeroDivisionError else Ok (SFdiv prec emax f fy)
  | PyInt a =>
      if y =? 0 then Raise ZeroDivisionError
      else match SFdiv prec emax (exact_of_int a) (exact_of_int y) with
           | S754_infinity _ => Raise OverflowError
           | q => Ok q
           end
  end.

(** The integer nearest to [m / 2^k], ties to the even one. *)
Definition round_half_even_shift (m : Z) (k : positive) : Z :=
  let d := Z.pow 2 (Zpos k) in
  let q := m / d in
  let r := m mod d in
  if 2 * r <? d then q
  else if d <? 2 * r then q + 1
  else if Z.even q then q else q + 1.

(** Python's one-argument [round] on a float: an int, ties to even;
    [ValueError] on NaN and [OverflowError] on an infinity. *)
Definition py_round (x : float) : result Z :=
  match x with
  | S754_zero _ => Ok 0
  | S754_infinity _ => Raise OverflowError
  | S754_nan => Raise ValueError
  | S754_finite s m e =>
      let n := match e with
               | Z0 => Zpos m
               | Zpos _ => Z.shiftl (Zpos m) e
               | Zneg k => round_half_even_shift (Zpos m) k
               end in
      Ok (if s then - n else n)
  end.

(** Python slicing [data[start:stop]] (step 1): negative bounds count from
    the end, and both bounds are clamped to the sequence. *)
Definition py_slice_bound (len i : Z) : Z :=
  Z.max 0 (Z.min len (if i <? 0 then i + len else i)).

Definition py_slice {A : Type} (data : list A) (start stop : Z) : list A :=
  let len := Z.of_nat (length data) in
  let a := py_slice_bound len start in
  let b := py_slice_bound len stop in
  take (Z.to_nat (b - a)) (drop (Z.to_nat a) data).

(* ===================================================================== *)
(** ** Module constants                                                   *)
(* ===================================================================== *)

Definition ISB_MESSAGE_ID : Z := 0x20.

(** The rows of the numpy array [FIXED_PALETTE_4_COLORS]. *)
Definition FIXED_PALETTE_4_COLORS : list (list Z) :=
  [ [0; 0; 0]; [85; 85; 85]; [170; 170; 170]; [255; 255; 255] ].

(** [arr.astype(np.uint8).tobytes()]: every entry reduced to a byte, rows
    laid out one after the other. *)
Definition astype_uint8_tobytes (arr : list (list Z)) : list Z :=
  concat (map (map (fun v => v mod 256)) arr).

(** Capacity given to [asyncio.Queue(maxsize=4)] in [stream]. *)
Definition QUEUE_MAXSIZE : Z := 4.

(* ===================================================================== *)
(** ** Images                                                             *)
(* ===================================================================== *)

(** A frame as OpenCV hands it over: a [rows x cols x channels] array of
    bytes, row-major, channels interleaved. *)
Record Mat : Type := {
  mat_rows : nat;
  mat_cols : nat;
  mat_channels : nat;
  mat_data : list Z
}.

Definition RGB : Type := (Z * Z * Z)%type.

(** Pixel storage of a Pillow image, by mode: ['L'], ['RGB'], or ['P'] with
    the palette attached to the image. *)
Inductive ImData : Type :=
| DataL (px : list Z)
| DataRGB (px : list RGB)
| DataP (px : list Z) (palette : list RGB).

Record PILImage : Type := {
  im_width : nat;
  im_height : nat;
  im_data : ImData
}.

(** The operations of cv2 and Pillow that the streamer calls.  They are
    code of other packages, so the pipeline is defined over any
    implementation of this interface. *)
Record ImagingLib : Type := {
  cvtColor_BGR2GRAY : Mat -> result Mat;
  Image_fromarray : Mat -> result PILImage;
  Image_resize_NEAREST : PILImage -> Z -> Z -> result PILImage;
  Image_convert_RGB : PILImage -> result PILImage;
  Image_quantize : PILImage -> PILImage -> result PILImage;
  Image_tobytes : PILImage -> list Z
}.

(** *** An executable model of the imaging operations *)

Fixpoint chunks3 (bytes : list Z) : list RGB :=
  match bytes with
  | a :: b :: c :: rest => (a, b, c) :: chunks3 rest
  | _ => []
  end.

(** [Image.new('P', (1, 1))] followed by [putpalette(bytes)]: a one-pixel
    palette image whose palette is the byte string cut into RGB triples. *)
Definition Image_new_P_1x1 : PILImage :=
  {| im_width := 1; im_height := 1; im_data := DataP [0] [] |}.

Definition putpalette (img : PILImage) (bytes : list Z) : PILImage :=
  match im_data img with
  | DataP px _ =>
      {| im_width := im_width img; im_height := im_height img;
         im_data := DataP px (chunks3 bytes) |}
  | _ => img
  end.

(** Luma of a BGR pixel in 15-bit fixed point. *)
Definition luma (b g r : Z) : Z :=
  (b * 3735 + g * 19235 + r * 9798 + 16384) / 32768.

Fixpoint bgr2gray (d : list Z) : list Z :=
  match d with
  | b :: g :: r :: rest => luma b g r :: bgr2gray rest
  | _ => []
  end.

Fixpoint bgra2gray (d : list Z) : list Z :=
  match d with
  | b :: g :: r :: _ :: rest => luma b g r :: bgra2gray rest
  | _ => []
  end.

(** Modelled from the spec: [cv2.cvtColor] is OpenCV code.  The spec has each
    frame converted to single-channel gray; here the luma of every pixel,
    from three channels (BGR) or from four (BGRA, the alpha channel is
    ignored); any other number of channels is an error. *)
Definition model_cvtColor (m : Mat) : result Mat :=
  if (mat_channels m =? 3)%nat then
    Ok {| mat_rows := mat_rows m; mat_cols := mat_cols m; mat_channels := 1;
          mat_data := bgr2gray (mat_data m) |}
  else if (mat_channels m =? 4)%nat then
    Ok {| mat_rows := mat_rows m; mat_cols := mat_cols m; mat_channels := 1;
          mat_data := bgra2gray (mat_data m) |}
  else Raise cv2_error.

(** [Image.fromarray]: a one-channel array becomes an ['L'] image, a
    three-channel array an ['RGB'] image. *)
Definition model_fromarray (m : Mat) : result PILImage :=
  if (mat_channels m =? 1)%nat then
    Ok {| im_width := mat_cols m; im_height := mat_rows m;
          im_data := DataL (mat_data m) |}
  else if (mat_channels m =? 3)%nat then
    Ok {| im_width := mat_cols m; im_height := mat_rows m;
          im_data := DataRGB (chunks3 (mat_data m)) |}
  else Raise ValueError.

(** Nearest-neighbour resampling: output pixel [(x, y)] copies the source
    pixel under the centre of its footprint. *)
Definition nearest_src (n_src n_dst i : nat) : nat :=
  ((2 * i + 1) * n_src / (2 * n_dst))%nat.

Definition resize_indices (sw sh w h : nat) : list nat :=
  y ← seq 0 h; x ← seq 0 w;
  [(nearest_src sh h y * sw + nearest_src sw w x)%nat].

Definition pick {A : Type} (d : A) (data : list A) (idx : list nat) : list A :=
  map (fun i => nth i data d) idx.

(** Modelled from the spec: [Image.resize] is Pillow code.  The spec has
    nearest-neighbour resampling to the target size; a target smaller than
    1 x 1 is refused. *)
Definition model_resize (img : PILImage) (w h : Z) : result PILImage :=
  if (w <? 1) || (h <? 1) then Raise ValueError
  else
    let idx := resize_indices (im_width img) (im_height img)
                              (Z.to_nat w) (Z.to_nat h) in
    Ok {| im_width := Z.to_nat w; im_height := Z.to_nat h;
          im_data := match im_data img with
                     | DataL px => DataL (pick 0 px idx)
                     | DataRGB px => DataRGB (pick (0, 0, 0) px idx)
                     | DataP px pal => DataP (pick 0 px idx) pal
                     end |}.

Definition palette_lookup (pal : list RGB) (i : Z) : RGB :=
  nth (Z.to_nat i) pal (0, 0, 0).

(** Modelled from the spec: [Image.convert('RGB')] is Pillow code.  The spec
    has the gray image promoted to three channels; a palette image is mapped
    through its palette. *)
Definition model_convert_RGB (img : PILImage) : result PILImage :=
  Ok {| im_width := im_width img; im_height := im_height img;
        im_data := match im_data img with
                   | DataL px => DataRGB (map (fun v => (v, v, v)) px)
                   | DataRGB px => DataRGB px
                   | DataP px pal => DataRGB (map (palette_lookup pal) px)
                   end |}.

(** Squared distance in RGB space. *)
Definition dist2 (p q : RGB) : Z :=
  let '(r1, g1, b1) := p in
  let '(r2, g2, b2) := q in
  (r1 - r2) * (r1 - r2) + (g1 - g2) * (g1 - g2) + (b1 - b2) * (b1 - b2).

(** Index of the palette entry closest to [p]; on equal distance the entry
    found first is kept. *)
Fixpoint nearest_from (entries : list RGB) (p : RGB)
    (i best : Z) (best_d : Z) : Z :=
  match entries with
  | [] => best
  | e :: es =>
      let d := dist2 p e in
      if d <? best_d then nearest_from es p (i + 1) i d
      else nearest_from es p (i + 1) best best_d
  end.

Definition nearest (entries : list RGB) (p : RGB) : Z :=
  match entries with
  | [] => 0
  | e :: es => nearest_from es p 1 0 (dist2 p e)
  end.

(** Modelled from the spec: [Image.quantize(palette=...)] is Pillow code and
    is not among the sources.  The spec describes it as converting each
    sample to the nearest palette entry by minimising a distance over
    intensity, deterministically and without dithering; this is that
    mapping, in the RGB space the consumer quantises in. *)
Definition model_quantize (img pal_img : PILImage) : result PILImage :=
  match im_data pal_img with
  | DataP _ pal =>
      match im_data img with
      | DataRGB px =>
          Ok {| im_width := im_width img; im_height := im_height img;
                im_data := DataP (map (nearest pal) px) pal |}
      | DataL px =>
          Ok {| im_width := im_width img; im_height := im_height img;
                im_data := DataP (map (fun v => nearest pal (v, v, v)) px) pal |}
      | DataP _ _ => Raise ValueError
      end
  | _ => Raise ValueError
  end.

Definition model_tobytes (img : PILImage) : list Z :=
  match im_data img with
  | DataL px => px
  | DataRGB px => concat (map (fun '(r, g, b) => [r; g; b]) px)
  | DataP px _ => px
  end.

Definition imaging_model : ImagingLib := {|
  cvtColor_BGR2GRAY := model_cvtColor;
  Image_fromarray := model_fromarray;
  Image_resize_NEAREST := model_resize;
  Image_convert_RGB := model_convert_RGB;
  Image_quantize := model_quantize;
  Image_tobytes := model_tobytes
|}.

(* ===================================================================== *)
(** ** The frame_msg package: sprites and sprite blocks                   *)
(* ===================================================================== *)

Module TxSprite.
Record t : Type := {
  width : Z;
  height : Z;
  num_colors : Z;
  palette_data : list Z;
  pixel_data : list Z;
  compress : bool
}.
End TxSprite.

Module TxImageSpriteBlock.

Record t : Type := {
  image : TxSprite.t;
  sprite_line_height : Z;
  progressive_render : bool;
  updatable : bool;
  sprite_lines : list TxSprite.t
}.

(** The strip of [image] that starts at pixel row [row0] and is [h] rows
    high; [pixel_data] holds one byte per pixel, row after row. *)
Definition strip (image : TxSprite.t) (row0 h : Z) : TxSprite.t :=
  {| TxSprite.width := TxSprite.width image;
     TxSprite.height := h;
     TxSprite.num_colors := TxSprite.num_colors image;
     TxSprite.palette_data := TxSprite.palette_data image;
     TxSprite.pixel_data :=
       py_slice (TxSprite.pixel_data image)
                (row0 * TxSprite.width image)
                ((row0 + h) * TxSprite.width image);
     TxSprite.compress := TxSprite.compress image |}.

(** Modelled from the spec: the constructor of [TxImageSpriteBlock] is
    code of the frame_msg package and is not among the sources.  The spec
    has one line packet per scanline group, [k = sprite height /
    line-group height] of them, in increasing line order; a shorter last
    group takes the rows that are left over. *)
Definition split_into_lines (image : TxSprite.t) (line_height : Z)
    : list TxSprite.t :=
  let full := TxSprite.height image / line_height in
  let final := TxSprite.height image mod line_height in
  map (fun i => strip image (Z.of_nat i * line_height) line_height)
      (seq 0 (Z.to_nat full))
  ++ (if 0 <? final then [strip image (full * line_height) final] else []).

(** Modelled from the spec: the constructor is code of the frame_msg
    package and is not among the sources.  The spec has the encode step fail
    when the pixel count is inconsistent with width x height; the constructor
    is where that check sits, and the failure (the spec's [EncodingError])
    is a Python [ValueError].  The rows are then split, which divides by the
    line height. *)
Definition init (image : TxSprite.t) (sprite_line_height : Z)
    (progressive_render : bool) : result t :=
  if negb (Z.of_nat (length (TxSprite.pixel_data image))
           =? TxSprite.width image * TxSprite.height image)
  then Raise ValueError
  else if sprite_line_height =? 0 then Raise ZeroDivisionError
  else Ok {| image := image;
             sprite_line_height := sprite_line_height;
             progressive_render := progressive_render;
             updatable := true;
             sprite_lines := split_into_lines image sprite_line_height |}.

End TxImageSpriteBlock.

(** Serialisation of a block header and of a sprite to bytes; both are
    frame_msg code, and the pipeline is defined over any pair of them. *)
Record Packing : Type := {
  isb_pack : TxImageSpriteBlock.t -> list Z;
  sprite_pack : TxSprite.t -> list Z
}.

(** A stand-in packing, used only to run the pipeline on examples.  It is
    not the byte layout of frame_msg: sizes are written as two bytes that
    wrap instead of raising, there is no bits-per-pixel byte, and the pixel
    indices are written one per byte instead of being packed four to a
    byte.  The theorems are stated over any packing. *)
Definition be16 (v : Z) : list Z := [Z.land (Z.shiftr v 8) 255; Z.land v 255].

Definition packing_model : Packing := {|
  isb_pack := fun b =>
    [255] ++ be16 (TxSprite.width (TxImageSpriteBlock.image b))
          ++ be16 (TxSprite.height (TxImageSpriteBlock.image b))
          ++ be16 (TxImageSpriteBlock.sprite_line_height b)
          ++ [ Z.b2z (TxImageSpriteBlock.progressive_render b);
               Z.b2z (TxImageSpriteBlock.updatable b) ];
  sprite_pack := fun s =>
    be16 (TxSprite.width s) ++ be16 (TxSprite.height s)
      ++ [Z.b2z (TxSprite.compress s); TxSprite.num_colors s]
      ++ TxSprite.palette_data s ++ TxSprite.pixel_data s
|}.

(* ===================================================================== *)
(** ** The environment of a run                                           *)
(* ===================================================================== *)

(** What [cv2.VideoCapture] finds behind a path that opens: the frame rate
    it reports (0.0 when the container has none) and the frames that
    [cap.read()] delivers before it first answers [ret = False], be it at
    the end of the file or at a frame that cannot be read. *)
Record Video : Type := {
  video_fps : float;
  video_frames : list Mat
}.

(** What the file system, OpenCV and the transport answer in a run.
    [connect], the upload of the app and [disconnect] either return or
    raise; a [send_message] may also stay pending for ever, since nothing in
    the streamer puts a time limit on it.  What [is_connected()] answers in
    the [finally] block is the transport's own business: it may be [False]
    after a [connect] that returned, when the link was lost since. *)
Record World : Type := {
  fs_is_file : string -> bool;         (* Path(p).is_file() *)
  cv_open : string -> option Video;    (* None: cap.isOpened() is False *)
  tr_connect_ok : bool;                (* frame.connect() returns *)
  tr_upload_ok : bool;                 (* upload and start of the Lua app *)
  tr_send_pends : nat -> bool;         (* the n-th send_message never completes *)
  tr_send_ok : nat -> bool;            (* the n-th send_message returns *)
  tr_is_connected : bool;              (* frame.is_connected() at line 160 *)
  tr_disconnect_ok : bool              (* frame.disconnect() returns *)
}.

(** The namespace that [argparse] returns. *)
Record Args : Type := {
  video_file : string;
  arg_width : Z;
  arg_height : Z;
  arg_fps : Z
}.

(** Calls into the outside world, in the order they happen. *)
Inductive Event : Type :=
| EvImageNew (ref : nat)
| EvPutPalette (ref : nat) (bytes : list Z)
| EvConnect (ok : bool)
| EvUploadApp (ok : bool)
| EvDisconnect (ok : bool)
| EvCapOpen (path : string) (ok : bool)
| EvCapRead (ret : bool)
| EvCapRelease
| EvPut (item : option Mat)
| EvGet (item : option Mat)
| EvQuantize (palette_ref : nat)
| EvSend (msg_id : Z) (payload : list Z)
| EvSendFailed.

(* ===================================================================== *)
(** ** The streamer object                                                *)
(* ===================================================================== *)

Module FinalStreamer.

Record t : Type := {
  file_path : string;
  width : Z;
  height : Z;
  fps_limit : Z;
  running : bool;
  palette_bytes : list Z;
  palette_image : nat      (* reference into the store of Pillow objects *)
}.

Definition set_running (b : bool) (self : t) : t :=
  {| file_path := file_path self; width := width self;
     height := height self; fps_limit := fps_limit self;
     running := b;
     palette_bytes := palette_bytes self;
     palette_image := palette_image self |}.

(** [__init__]: stores the arguments, builds the palette bytes and the
    palette image (one allocation, one [putpalette]).  Returns the object,
    the store of Pillow objects and the calls made. *)
Definition init (file_path : string) (width height fps_limit : Z)
    : t * list PILImage * list Event :=
  let palette_bytes := astype_uint8_tobytes FIXED_PALETTE_4_COLORS in
  let store0 : list PILImage := [] in
  let ref := length store0 in
  let store1 := store0 ++ [Image_new_P_1x1] in
  let store2 :=
    <[ref := putpalette (nth ref store1 Image_new_P_1x1) palette_bytes]> store1 in
  ({| file_path := file_path; width := width; height := height;
      fps_limit := fps_limit; running := false;
      palette_bytes := palette_bytes; palette_image := ref |},
   store2,
   [EvImageNew ref; EvPutPalette ref palette_bytes]).

End FinalStreamer.

(* ===================================================================== *)
(** ** Tasks and shared state                                             *)
(* ===================================================================== *)

(** Where [_frame_producer] stands. *)
Inductive ProducerPC : Type :=
| P_NotCreated
| P_Start                                       (* line 79 *)
| P_While (frame_step frame_number : Z)         (* line 88 *)
| P_Put (frame_step frame_number : Z) (gray_frame : Mat)   (* line 94 *)
| P_PutNone                                     (* lines 96-97 *)
| P_Done
| P_Raised (e : exn).

(** Where [_frame_consumer] stands. *)
Inductive ConsumerPC : Type :=
| C_NotCreated
| C_While                                       (* line 103 *)
| C_Get                                         (* line 104 *)
| C_SendBlock (isb : TxImageSpriteBlock.t)      (* line 120 *)
| C_SendLines (rest : list TxSprite.t)          (* lines 121-122 *)
| C_Done
| C_Raised (e : exn).

(** Where [stream] stands, followed by the teardown of [asyncio.run] and
    the end of the process. *)
Inductive MainPC : Type :=
| M_Connect                                     (* line 134 *)
| M_Upload                                      (* lines 146-150 *)
| M_Spawn                                       (* lines 152-155 *)
| M_Gather                                      (* line 156 *)
| M_Finally                                     (* lines 159-162 *)
| M_Shutdown (code : Z)
| M_Exited (code : Z).

(** The [cv2.VideoCapture] object. *)
Record Capture : Type := {
  cap_frames : list Mat;     (* frames not read yet *)
  cap_opened : bool;
  cap_released : bool
}.

Record State : Type := {
  self : FinalStreamer.t;
  images : list PILImage;          (* Pillow objects reachable from [self] *)
  queue : list (option Mat);       (* head is the next item to get *)
  cap : Capture;
  connected : bool;                (* connect has returned, disconnect has not *)
  main_pc : MainPC;
  producer : ProducerPC;
  consumer : ConsumerPC;
  trace : list Event
}.

Definition set_self (x : FinalStreamer.t) (s : State) : State :=
  {| self := x; images := images s; queue := queue s; cap := cap s;
     connected := connected s; main_pc := main_pc s; producer := producer s;
     consumer := consumer s; trace := trace s |}.

Definition set_queue (x : list (option Mat)) (s : State) : State :=
  {| self := self s; images := images s; queue := x; cap := cap s;
     connected := connected s; main_pc := main_pc s; producer := producer s;
     consumer := consumer s; trace := trace s |}.

Definition set_cap (x : Capture) (s : State) : State :=
  {| self := self s; images := images s; queue := queue s; cap := x;
     connected := connected s; main_pc := main_pc s; producer := producer s;
     consumer := consumer s; trace := trace s |}.

Definition set_connected (x : bool) (s : State) : State :=
  {| self := self s; images := images s; queue := queue s; cap := cap s;
     connected := x; main_pc := main_pc s; producer := producer s;
     consumer := consumer s; trace := trace s |}.

Definition set_main (x : MainPC) (s : State) : State :=
  {| self := self s; images := images s; queue := queue s; cap := cap s;
     connected := connected s; main_pc := x; producer := producer s;
     consumer := consumer s; trace := trace s |}.

Definition set_producer (x : ProducerPC) (s : State) : State :=
  {| self := self s; images := images s; queue := queue s; cap := cap s;
     connected := connected s; main_pc := main_pc s; producer := x;
     consumer := consumer s; trace := trace s |}.

Definition set_consumer (x : ConsumerPC) (s : State) : State :=
  {| self := self s; images := images s; queue := queue s; cap := cap s;
     connected := connected s; main_pc := main_pc s; producer := producer s;
     consumer := x; trace := trace s |}.

Definition emit (e : Event) (s : State) : State :=
  {| self := self s; images := images s; queue := queue s; cap := cap s;
     connected := connected s; main_pc := main_pc s; producer := producer s;
     consumer := consumer s; trace := trace s ++ [e] |}.

Definition set_running (b : bool) (s : State) : State :=
  set_self (FinalStreamer.set_running b (self s)) s.

(** Projections of the trace. *)
Definition put_of (e : Event) : option (option Mat) :=
  match e with EvPut i => Some i | _ => None end.
Definition get_of (e : Event) : option (option Mat) :=
  match e with EvGet i => Some i | _ => None end.
Definition send_of (e : Event) : option (Z * list Z) :=
  match e with EvSend i p => Some (i, p) | _ => None end.
Definition quantize_of (e : Event) : option nat :=
  match e with EvQuantize r => Some r | _ => None end.
Definition palette_build_of (e : Event) : option nat :=
  match e with EvImageNew r => Some r | EvPutPalette r _ => Some r | _ => None end.
Definition read_of (e : Event) : option bool :=
  match e with EvCapRead r => Some r | _ => None end.

Definition puts (tr : list Event) : list (option Mat) := omap put_of tr.
Definition gets (tr : list Event) : list (option Mat) := omap get_of tr.
Definition sends (tr : list Event) : list (Z * list Z) := omap send_of tr.
Definition quantize_calls (tr : list Event) : list nat := omap quantize_of tr.
Definition palette_builds (tr : list Event) : list nat := omap palette_build_of tr.

(** [queue.full()] for a queue built with [maxsize=4]. *)
Definition queue_full (q : list (option Mat)) : bool :=
  QUEUE_MAXSIZE <=? Z.of_nat (length q).

(* ===================================================================== *)
(** ** The three tasks                                                    *)
(* ===================================================================== *)

(** The event loop runs one task at a time and changes task only where the
    running one awaits.  A step below is a stretch of one task that contains
    at most one such point, and a run is any sequence of steps of the three
    tasks: every order in which the event loop can take the tasks is one of
    these sequences, so what holds of all runs holds of the program. *)
Inductive Task : Type := Main | Producer | Consumer.

Section Pipeline.

Context (lib : ImagingLib) (pk : Packing) (w : World).

(** Line 84-85: [frame_step = max(1, round(source_fps / fps_limit))] with
    [source_fps = cap.get(CAP_PROP_FPS) or 30]. *)
Definition frame_step_of (reported_fps : float) (fps_limit : Z) : result Z :=
  ratio ← truediv (or_default reported_fps) fps_limit;
  n ← py_round ratio;
  Ok (Z.max 1 n).

(** One step of [_frame_producer]; [None] when the task is suspended or
    over.  The two [print] calls change nothing that is modelled. *)
Definition step_producer (s : State) : option State :=
  match producer s with
  | P_Start =>
      let path := FinalStreamer.file_path (self s) in
      match cv_open w path with
      | None =>
          Some (set_producer P_Done
               (set_running false
               (emit (EvCapOpen path false) s)))
      | Some v =>
          let s1 :=
            set_cap {| cap_frames := video_frames v; cap_opened := true;
                       cap_released := false |}
                    (emit (EvCapOpen path true) s) in
          match frame_step_of (video_fps v)
                              (FinalStreamer.fps_limit (self s)) with
          | Ok frame_step => Some (set_producer (P_While frame_step 0) s1)
          | Raise e => Some (set_producer (P_Raised e) s1)
          end
      end
  | P_While frame_step frame_number =>
      if FinalStreamer.running (self s) then
        match cap_frames (cap s) with
        | [] =>
            (* ret is False: break *)
            Some (set_producer P_PutNone (emit (EvCapRead false) s))
        | frame_data :: rest =>
            let s1 :=
              set_cap {| cap_frames := rest;
                         cap_opened := cap_opened (cap s);
                         cap_released := cap_released (cap s) |}
                      (emit (EvCapRead true) s) in
            if frame_number mod frame_step =? 0 then
              match cvtColor_BGR2GRAY lib frame_data with
              | Ok gray_frame =>
                  Some (set_producer (P_Put frame_step frame_number gray_frame) s1)
              | Raise e => Some (set_producer (P_Raised e) s1)
              end
            else Some (set_producer (P_While frame_step (frame_number + 1)) s1)
        end
      else Some (set_producer P_PutNone s)
  | P_Put frame_step frame_number gray_frame =>
      if queue_full (queue s) then None
      else Some (set_producer (P_While frame_step (frame_number + 1))
                (set_queue (queue s ++ [Some gray_frame])
                (emit (EvPut (Some gray_frame)) s)))
  | P_PutNone =>
      (* [cap.release()] follows the put without another suspension *)
      if queue_full (queue s) then None
      else Some (set_producer P_Done
                (set_cap {| cap_frames := cap_frames (cap s);
                            cap_opened := false; cap_released := true |}
                (emit EvCapRelease
                (set_queue (queue s ++ [None])
                (emit (EvPut None) s)))))
  | P_NotCreated | P_Done | P_Raised _ => None
  end.

(** Lines 107-109: the dequeued gray frame, resized and promoted to RGB. *)
Definition to_rgb (self : FinalStreamer.t) (gray_frame_data : Mat)
    : result PILImage :=
  img0 ← Image_fromarray lib gray_frame_data;
  img ← Image_resize_NEAREST lib img0 (FinalStreamer.width self)
                             (FinalStreamer.height self);
  Image_convert_RGB lib img.

(** Lines 111-118: quantisation against the palette image that [self]
    refers to, then the sprite and its block. *)
Definition to_block (self : FinalStreamer.t) (images : list PILImage)
    (img_rgb : PILImage) : result TxImageSpriteBlock.t :=
  quantized_img ←
    Image_quantize lib img_rgb
      (nth (FinalStreamer.palette_image self) images Image_new_P_1x1);
  let pixel_data := Image_tobytes lib quantized_img in
  let sprite :=
    {| TxSprite.width := FinalStreamer.width self;
       TxSprite.height := FinalStreamer.height self;
       TxSprite.num_colors := 4;
       TxSprite.palette_data := FinalStreamer.palette_bytes self;
       TxSprite.pixel_data := pixel_data;
       TxSprite.compress := false |} in
  TxImageSpriteBlock.init sprite (TxSprite.height sprite) false.

Definition encode (self : FinalStreamer.t) (images : list PILImage)
    (gray_frame_data : Mat) : result TxImageSpriteBlock.t :=
  img_rgb ← to_rgb self gray_frame_data;
  to_block self images img_rgb.

(** The next [send_message] of the run never completes. *)
Definition send_pending (s : State) : bool :=
  tr_send_pends w (length (sends (trace s))).

(** [await self.frame.send_message(msg_id, payload)], for a call that
    completes: it returns or it raises. *)
Definition send_message (msg_id : Z) (payload : list Z) (s : State)
    : result State :=
  if tr_send_ok w (length (sends (trace s)))
  then Ok (emit (EvSend msg_id payload) s)
  else Raise TransportError.

(** One step of [_frame_consumer]; [None] when the task is suspended (on
    an empty queue, or in a send that stays pending) or over.  The frame
    counter, the clock and the throughput line (lines 101-102, 124-128) and
    [queue.task_done()] change nothing that is modelled. *)
Definition step_consumer (s : State) : option State :=
  match consumer s with
  | C_While =>
      if FinalStreamer.running (self s)
      then Some (set_consumer C_Get s)
      else Some (set_consumer C_Done s)
  | C_Get =>
      match queue s with
      | [] => None
      | item :: rest =>
          let s1 := set_queue rest (emit (EvGet item) s) in
          match item with
          | None => Some (set_consumer C_Done (set_running false s1))
          | Some gray_frame_data =>
              match to_rgb (self s) gray_frame_data with
              | Raise e => Some (set_consumer (C_Raised e) s1)
              | Ok img_rgb =>
                  let s2 :=
                    emit (EvQuantize (FinalStreamer.palette_image (self s))) s1 in
                  match to_block (self s) (images s) img_rgb with
                  | Ok isb => Some (set_consumer (C_SendBlock isb) s2)
                  | Raise e => Some (set_consumer (C_Raised e) s2)
                  end
              end
          end
      end
  | C_SendBlock isb =>
      if send_pending s then None
      else
        match send_message ISB_MESSAGE_ID (isb_pack pk isb) s with
        | Ok s1 =>
            Some (set_consumer
                    (C_SendLines (TxImageSpriteBlock.sprite_lines isb)) s1)
        | Raise e => Some (set_consumer (C_Raised e) (emit EvSendFailed s))
        end
  | C_SendLines (line_sprite :: rest) =>
      if send_pending s then None
      else
        match send_message ISB_MESSAGE_ID (sprite_pack pk line_sprite) s with
        | Ok s1 => Some (set_consumer (C_SendLines rest) s1)
        | Raise e => Some (set_consumer (C_Raised e) (emit EvSendFailed s))
        end
  | C_SendLines [] => Some (set_consumer C_While s)
  | C_NotCreated | C_Done | C_Raised _ => None
  end.

(** What [asyncio.run] does to the tasks that are still pending when
    [main] returns: it cancels them. *)
Definition cancel_producer (p : ProducerPC) : ProducerPC :=
  match p with
  | P_NotCreated | P_Done | P_Raised _ => p
  | _ => P_Raised CancelledError
  end.

Definition cancel_consumer (c : ConsumerPC) : ConsumerPC :=
  match c with
  | C_NotCreated | C_Done | C_Raised _ => c
  | _ => C_Raised CancelledError
  end.

(** One step of [stream] (called with [force_upload=True], its default)
    and of the end of the process.  Every exception raised inside the
    [try] is caught at line 157 and leads to the [finally] block. *)
Definition step_main (s : State) : option State :=
  match main_pc s with
  | M_Connect =>
      if tr_connect_ok w
      then Some (set_main M_Upload (set_connected true (emit (EvConnect true) s)))
      else Some (set_main M_Finally (emit (EvConnect false) s))
  | M_Upload =>
      if tr_upload_ok w
      then Some (set_main M_Spawn (emit (EvUploadApp true) s))
      else Some (set_main M_Finally (emit (EvUploadApp false) s))
  | M_Spawn =>
      Some (set_main M_Gather
           (set_consumer C_While
           (set_producer P_Start
           (set_running true
           (set_queue [] s)))))
  | M_Gather =>
      match producer s, consumer s with
      | P_Raised _, _ | _, C_Raised _ => Some (set_main M_Finally s)
      | P_Done, C_Done => Some (set_main M_Finally s)
      | _, _ => None
      end
  | M_Finally =>
      if tr_is_connected w then
        if tr_disconnect_ok w
        then Some (set_main (M_Shutdown 0)
                  (set_connected false (emit (EvDisconnect true) s)))
        else Some (set_main (M_Shutdown 1) (emit (EvDisconnect false) s))
      else Some (set_main (M_Shutdown 0) s)
  | M_Shutdown code =>
      Some (set_main (M_Exited code)
           (set_consumer (cancel_consumer (consumer s))
           (set_producer (cancel_producer (producer s)) s)))
  | M_Exited _ => None
  end.

Definition step (t : Task) (s : State) : option State :=
  match t with
  | Main => step_main s
  | Producer => step_producer s
  | Consumer => step_consumer s
  end.

(** The event loop picks a task; a task that cannot move leaves the state
    as it is. *)
Definition sched_step (s : State) (t : Task) : State :=
  match step t s with
  | Some s' => s'
  | None => s
  end.

Definition run (sched : list Task) (s : State) : State :=
  fold_left sched_step sched s.

(** The state in which [stream] is entered: [main] has built the streamer
    from the parsed arguments. *)
Definition initial (args : Args) : State :=
  let '(streamer, store, calls) :=
    FinalStreamer.init (video_file args) (arg_width args)
                       (arg_height args) (arg_fps args) in
  {| self := streamer; images := store; queue := [];
     cap := {| cap_frames := []; cap_opened := false; cap_released := false |};
     connected := false; main_pc := M_Connect;
     producer := P_NotCreated; consumer := C_NotCreated;
     trace := calls |}.

Definition exit_code (s : State) : option Z :=
  match main_pc s with
  | M_Exited code => Some code
  | _ => None
  end.

(** Lines 179-185 and 187-194: the path check of [main], then [stream];
    the exit status of the process once it has ended. *)
Definition process_exit (args : Args) (sched : list Task) : option Z :=
  if String.eqb (video_file args) "" || negb (fs_is_file w (video_file args))
  then Some 1
  else exit_code (run sched (initial args)).

Definition reachable (args : Args) (s : State) : Prop :=
  exists sched, s = run sched (initial args).

End Pipeline.

(* ===================================================================== *)
(** ** Vocabulary of the properties                                       *)
(* ===================================================================== *)

(** The frames whose ordinal index, counted from 0, is a multiple of
    [stride]. *)
Definition decimate (stride : Z) (frames : list Mat) : list Mat :=
  (filter (fun p : nat * Mat => Z.of_nat p.1 mod stride = 0) (imap pair frames)).*2.

(** The frames among the items put on, or taken from, the queue. *)
Definition frames_of (items : list (option Mat)) : list Mat := omap id items.

(** Number of frames that [cap.read()] has delivered. *)
Definition decoded (tr : list Event) : nat :=
  length (filter (fun r : bool => r = true) (omap read_of tr)).

(** The messages of one sprite block on the wire: the header, then one
    message per line sprite, in the order of [sprite_lines]. *)
Definition frame_packets (pk : Packing) (isb : TxImageSpriteBlock.t)
    : list (Z * list Z) :=
  (ISB_MESSAGE_ID, isb_pack pk isb)
  :: map (fun line_sprite => (ISB_MESSAGE_ID, sprite_pack pk line_sprite))
         (TxImageSpriteBlock.sprite_lines isb).

(** Frames that the producer currently holds: those in the queue and the
    one it has converted and is about to put. *)
Definition in_flight (s : State) : nat :=
  (length (queue s) +
   match producer s with
   | P_Put _ _ _ => 1
   | _ => 0
   end)%nat.

(** The four gray levels as palette entries, and the palette object that
    [__init__] leaves in the store. *)
Definition fixed_entries : list RGB :=
  [(0, 0, 0); (85, 85, 85); (170, 170, 170); (255, 255, 255)].

Definition palette_object : PILImage :=
  {| im_width := 1; im_height := 1; im_data := DataP [0] fixed_entries |}.

(** Lines 109-111 on their own: promotion to RGB, then quantisation against
    the streamer's palette object. *)
Definition quantization_step (lib : ImagingLib) (img : PILImage) : result PILImage :=
  img_rgb ← Image_convert_RGB lib img;
  Image_quantize lib img_rgb palette_object.

(* ===================================================================== *)
(** ** Concrete runs                                                      *)
(* ===================================================================== *)

Definition fps_30 : float := S754_finite false 8444249301319680 (-48).

Definition solid_bgr (rows cols : nat) (v : Z) : Mat :=
  {| mat_rows := rows; mat_cols := cols; mat_channels := 3;
     mat_data := repeat v (rows * cols * 3) |}.

(** A clip of [n] frames of 2 x 2 pixels at 30 fps; frame [i] is filled
    with the byte [40 * i mod 256]. *)
Definition clip (n : nat) : Video :=
  {| video_fps := fps_30;
     video_frames :=
       map (fun i => solid_bgr 2 2 (Z.of_nat (i * 40) mod 256)) (seq 0 n) |}.

Definition demo_args : Args :=
  {| video_file := "clip.mp4"; arg_width := 4; arg_height := 4; arg_fps := 14 |}.

(** A healthy environment: the file opens and the transport never fails. *)
Definition world_ok (v : Video) : World :=
  {| fs_is_file := fun _ => true; cv_open := fun _ => Some v;
     tr_connect_ok := true; tr_upload_ok := true;
     tr_send_pends := fun _ => false; tr_send_ok := fun _ => true;
     tr_is_connected := true; tr_disconnect_ok := true |}.

(** The path is a regular file that OpenCV cannot open as a video. *)
Definition world_not_a_video : World :=
  {| fs_is_file := fun _ => true; cv_open := fun _ => None;
     tr_connect_ok := true; tr_upload_ok := true;
     tr_send_pends := fun _ => false; tr_send_ok := fun _ => true;
     tr_is_connected := true; tr_disconnect_ok := true |}.

(** No file behind the path. *)
Definition world_no_file : World :=
  {| fs_is_file := fun _ => false; cv_open := fun _ => None;
     tr_connect_ok := true; tr_upload_ok := true;
     tr_send_pends := fun _ => false; tr_send_ok := fun _ => true;
     tr_is_connected := true; tr_disconnect_ok := true |}.

(** The link drops: every [send_message] raises. *)
Definition world_link_down (v : Video) : World :=
  {| fs_is_file := fun _ => true; cv_open := fun _ => Some v;
     tr_connect_ok := true; tr_upload_ok := true;
     tr_send_pends := fun _ => false; tr_send_ok := fun _ => false;
     tr_is_connected := true; tr_disconnect_ok := true |}.

(** The transport stalls: the second [send_message] never completes. *)
Definition world_stalled (v : Video) : World :=
  {| fs_is_file := fun _ => true; cv_open := fun _ => Some v;
     tr_connect_ok := true; tr_upload_ok := true;
     tr_send_pends := fun n => Nat.eqb n 1; tr_send_ok := fun _ => true;
     tr_is_connected := true; tr_disconnect_ok := true |}.

(** A faulty imaging backend, to exercise the block constructor's check:
    its quantised image serialises to too few bytes, the first row is
    missing.  Pillow does no such thing. *)
Definition imaging_short : ImagingLib := {|
  cvtColor_BGR2GRAY := model_cvtColor;
  Image_fromarray := model_fromarray;
  Image_resize_NEAREST := model_resize;
  Image_convert_RGB := model_convert_RGB;
  Image_quantize := model_quantize;
  Image_tobytes := fun img => drop (im_width img) (model_tobytes img)
|}.

(** The tasks taken in turn, [n] rounds. *)
Definition round_robin (n : nat) : list Task :=
  concat (repeat [Main; Producer; Consumer] n).

(* ===================================================================== *)
(** ** Invariants of the reachable states                                 *)
(* ===================================================================== *)

(** The capture before [cv2.VideoCapture] has been called. *)
Definition cap_closed : Capture :=
  {| cap_frames := []; cap_opened := false; cap_released := false |}.

Definition cap_reading (rest : list Mat) : Capture :=
  {| cap_frames := rest; cap_opened := true; cap_released := false |}.

Definition cap_after_release : Capture :=
  {| cap_frames := []; cap_opened := false; cap_released := true |}.

(** The streamer keeps the arguments and the palette it was built with;
    only [running] changes. *)
Definition self_ok (args : Args) (s : State) : Prop :=
  FinalStreamer.file_path (self s) = video_file args
  /\ FinalStreamer.width (self s) = arg_width args
  /\ FinalStreamer.height (self s) = arg_height args
  /\ FinalStreamer.fps_limit (self s) = arg_fps args
  /\ FinalStreamer.palette_bytes (self s) = astype_uint8_tobytes FIXED_PALETTE_4_COLORS
  /\ FinalStreamer.palette_image (self s) = 0%nat
  /\ images s = [palette_object].

(** The palette is built by the two calls of [__init__] and by no other;
    every quantisation refers to that object. *)
Definition palette_calls_ok (s : State) : Prop :=
  palette_builds (trace s) = [0%nat; 0%nat]
  /\ Forall (fun r => r = 0%nat) (quantize_calls (trace s)).

(** The queue is first-in first-out and never longer than its capacity. *)
Definition queue_ok (s : State) : Prop :=
  puts (trace s) = gets (trace s) ++ queue s
  /\ Z.of_nat (length (queue s)) <= QUEUE_MAXSIZE.

(** [grays] are the gray versions of [frames], in order. *)
Definition converted (lib : ImagingLib) (frames grays : list Mat) : Prop :=
  Forall2 (fun f g => cvtColor_BGR2GRAY lib f = Ok g) frames grays.

(** What is known at each point of the producer. *)
Definition producer_ok (lib : ImagingLib) (w : World) (args : Args)
    (s : State) : Prop :=
  match producer s with
  | P_NotCreated =>
      puts (trace s) = [] /\ decoded (trace s) = 0%nat /\ cap s = cap_closed
  | P_Start =>
      puts (trace s) = [] /\ decoded (trace s) = 0%nat /\ cap s = cap_closed
      /\ FinalStreamer.running (self s) = true
  | P_While frame_step frame_number =>
      exists v grays (n : nat),
        cv_open w (video_file args) = Some v
        /\ frame_step_of (video_fps v) (arg_fps args) = Ok frame_step
        /\ frame_number = Z.of_nat n
        /\ (n <= length (video_frames v))%nat
        /\ decoded (trace s) = n
        /\ cap s = cap_reading (drop n (video_frames v))
        /\ puts (trace s) = map Some grays
        /\ converted lib (decimate frame_step (take n (video_frames v))) grays
        /\ FinalStreamer.running (self s) = true
  | P_Put frame_step frame_number gray_frame =>
      exists v grays (n : nat) frame_data,
        cv_open w (video_file args) = Some v
        /\ frame_step_of (video_fps v) (arg_fps args) = Ok frame_step
        /\ frame_number = Z.of_nat n
        /\ video_frames v !! n = Some frame_data
        /\ frame_number mod frame_step = 0
        /\ cvtColor_BGR2GRAY lib frame_data = Ok gray_frame
        /\ decoded (trace s) = S n
        /\ cap s = cap_reading (drop (S n) (video_frames v))
        /\ puts (trace s) = map Some grays
        /\ converted lib (decimate frame_step (take n (video_frames v))) grays
        /\ FinalStreamer.running (self s) = true
  | P_PutNone =>
      exists v frame_step grays,
        cv_open w (video_file args) = Some v
        /\ frame_step_of (video_fps v) (arg_fps args) = Ok frame_step
        /\ decoded (trace s) = length (video_frames v)
        /\ cap s = cap_reading []
        /\ puts (trace s) = map Some grays
        /\ converted lib (decimate frame_step (video_frames v)) grays
  | P_Done =>
      (cv_open w (video_file args) = None
       /\ puts (trace s) = [] /\ decoded (trace s) = 0%nat /\ cap s = cap_closed)
      \/ (exists v frame_step grays,
            cv_open w (video_file args) = Some v
            /\ frame_step_of (video_fps v) (arg_fps args) = Ok frame_step
            /\ decoded (trace s) = length (video_frames v)
            /\ cap s = cap_after_release
            /\ puts (trace s) = map Some grays ++ [None]
            /\ converted lib (decimate frame_step (video_frames v)) grays)
  | P_Raised _ =>
      cap_released (cap s) = false
      /\ exists grays,
           puts (trace s) = map Some grays
           /\ forall v frame_step,
                cv_open w (video_file args) = Some v ->
                frame_step_of (video_fps v) (arg_fps args) = Ok frame_step ->
                exists n : nat,
                  (n <= length (video_frames v))%nat
                  /\ (n <= decoded (trace s) <= n + 1)%nat
                  /\ converted lib (decimate frame_step (take n (video_frames v))) grays
  end.

(** [isbs] are the blocks that [encode] builds from [grays], in order. *)
Definition encodes (lib : ImagingLib) (s : State)
    (grays : list Mat) (isbs : list TxImageSpriteBlock.t) : Prop :=
  Forall2 (fun g b => encode lib (self s) (images s) g = Ok b) grays isbs.

Definition line_packets (pk : Packing) (lines : list TxSprite.t)
    : list (Z * list Z) :=
  map (fun line_sprite => (ISB_MESSAGE_ID, sprite_pack pk line_sprite)) lines.

(** What has reached the transport of the frame being sent, by the point
    where the consumer stands; [cur] is that frame, if there is one. *)
Definition consumer_at (lib : ImagingLib) (pk : Packing) (s : State)
    (cur : list Mat) (partial : list (Z * list Z)) : Prop :=
  match consumer s with
  | C_NotCreated | C_While | C_Get | C_Done => cur = [] /\ partial = []
  | C_SendBlock isb =>
      exists g, cur = [g]
        /\ encode lib (self s) (images s) g = Ok isb /\ partial = []
  | C_SendLines rest =>
      exists g isb sent_lines,
        cur = [g]
        /\ encode lib (self s) (images s) g = Ok isb
        /\ TxImageSpriteBlock.sprite_lines isb = sent_lines ++ rest
        /\ partial = (ISB_MESSAGE_ID, isb_pack pk isb) :: line_packets pk sent_lines
  | C_Raised _ =>
      (partial = [] /\ (length cur <= 1)%nat)
      \/ (exists g isb,
            cur = [g]
            /\ encode lib (self s) (images s) g = Ok isb
            /\ partial `prefix_of` frame_packets pk isb)
  end.

Definition consumer_ok (lib : ImagingLib) (pk : Packing) (s : State) : Prop :=
  exists grays isbs cur partial,
    frames_of (gets (trace s)) = grays ++ cur
    /\ encodes lib s grays isbs
    /\ sends (trace s) = flat_map (frame_packets pk) isbs ++ partial
    /\ consumer_at lib pk s cur partial.

Definition main_ok (w : World) (s : State) : Prop :=
  match main_pc s with
  | M_Connect | M_Upload | M_Spawn =>
      producer s = P_NotCreated /\ consumer s = C_NotCreated
      /\ queue s = [] /\ gets (trace s) = [] /\ sends (trace s) = []
  | M_Gather | M_Finally => True
  | M_Shutdown code | M_Exited code =>
      code = 0 \/ (code = 1 /\ tr_disconnect_ok w = false)
  end.

Record Inv (lib : ImagingLib) (pk : Packing) (w : World) (args : Args)
    (s : State) : Prop := {
  inv_self : self_ok args s;
  inv_palette : palette_calls_ok s;
  inv_queue : queue_ok s;
  inv_producer : producer_ok lib w args s;
  inv_consumer : consumer_ok lib pk s;
  inv_main : main_ok w s
}.

(** Line sprites come in row order, without gaps: the [i]-th one starts at
    pixel row [i * sprite_line_height]; all have the full line height except
    a shorter last one that takes the rows left over. *)
Definition lines_in_order (b : TxImageSpriteBlock.t) : Prop :=
  let img := TxImageSpriteBlock.image b in
  let lh := TxImageSpriteBlock.sprite_line_height b in
  forall (i : nat) (line : TxSprite.t),
    TxImageSpriteBlock.sprite_lines b !! i = Some line ->
    line = TxImageSpriteBlock.strip img (Z.of_nat i * lh) (TxSprite.height line)
    /\ (TxSprite.height line = lh
        \/ (Z.of_nat i = TxSprite.height img / lh
            /\ TxSprite.height line = TxSprite.height img mod lh)).

(** The schedule that the event loop follows when the file cannot be
    opened: [stream] up to [gather], the producer, the consumer, the rest
    of [stream]. *)
Definition open_failure_schedule : list Task :=
  [Main; Main; Main; Producer; Consumer; Main; Main; Main].

(** The producer fills the queue and is suspended, the consumer takes a
    frame and its first send raises, the producer moves on to its next
    suspension, [stream] catches the exception and ends. *)
Definition link_down_schedule : list Task :=
  repeat Main 3 ++ repeat Producer 20 ++ repeat Consumer 3
  ++ repeat Producer 5 ++ repeat Main 3.

(** Order of the start-up: the capture is opened only by the producer task,
    and that task exists only after [connect] and the upload have returned. *)
Definition startup_ok (s : State) : Prop :=
  (producer s = P_NotCreated -> forall path ok, EvCapOpen path ok ∉ trace s)
  /\ (producer s <> P_NotCreated ->
      EvConnect true ∈ trace s /\ EvUploadApp true ∈ trace s)
  /\ (main_pc s = M_Upload -> EvConnect true ∈ trace s)
  /\ (main_pc s = M_Spawn ->
      EvConnect true ∈ trace s /\ EvUploadApp true ∈ trace s).

(** When the file does not open as a video, the producer never reaches its
    loop and nothing is put on the queue. *)
Definition no_video_ok (w : World) (args : Args) (s : State) : Prop :=
  cv_open w (video_file args) = None ->
  puts (trace s) = []
  /\ match producer s with
     | P_NotCreated | P_Start | P_Done | P_Raised _ => True
     | _ => False
     end.

(* ===================================================================== *)
(** ** Further invariants: the link, the tasks and the running flag       *)
(* ===================================================================== *)

Definition connect_of (e : Event) : option bool :=
  match e with EvConnect ok => Some ok | _ => None end.
Definition disconnect_of (e : Event) : option bool :=
  match e with EvDisconnect ok => Some ok | _ => None end.
Definition open_of (e : Event) : option (string * bool) :=
  match e with EvCapOpen path ok => Some (path, ok) | _ => None end.

(** The calls of [frame.connect()], of [frame.disconnect()] and of
    [cv2.VideoCapture] in a trace, each with whether it went well. *)
Definition connects (tr : list Event) : list bool := omap connect_of tr.
Definition disconnects (tr : list Event) : list bool := omap disconnect_of tr.
Definition opens (tr : list Event) : list (string * bool) := omap open_of tr.

(** The two tasks exist from line 154-155 on, and only from there. *)
Definition not_created (s : State) : Prop :=
  producer s = P_NotCreated /\ consumer s = C_NotCreated.

Definition created (s : State) : Prop :=
  producer s <> P_NotCreated /\ consumer s <> C_NotCreated.

(** The tasks are created exactly when [connect] and the upload went well. *)
Definition tasks_by_startup (w : World) (s : State) : Prop :=
  (tr_connect_ok w && tr_upload_ok w = true /\ created s)
  \/ (tr_connect_ok w && tr_upload_ok w = false /\ not_created s).

(** The exit status that [stream] leaves: 1 only when [is_connected()]
    answered true in the [finally] block and [disconnect] then raised. *)
Definition status_of_link (w : World) : Z :=
  if tr_is_connected w && negb (tr_disconnect_ok w) then 1 else 0.

(** What is known of the link at each point of [stream]. *)
Definition link_ok (w : World) (s : State) : Prop :=
  match main_pc s with
  | M_Connect =>
      connected s = false /\ connects (trace s) = []
      /\ disconnects (trace s) = [] /\ not_created s
  | M_Upload =>
      connected s = true /\ tr_connect_ok w = true
      /\ connects (trace s) = [true] /\ disconnects (trace s) = []
      /\ not_created s
  | M_Spawn =>
      connected s = true /\ tr_connect_ok w = true /\ tr_upload_ok w = true
      /\ connects (trace s) = [true] /\ disconnects (trace s) = []
      /\ not_created s
  | M_Gather =>
      connected s = true /\ tr_connect_ok w = true /\ tr_upload_ok w = true
      /\ connects (trace s) = [true] /\ disconnects (trace s) = []
      /\ created s
  | M_Finally =>
      connected s = tr_connect_ok w
      /\ connects (trace s) = [tr_connect_ok w]
      /\ disconnects (trace s) = []
      /\ tasks_by_startup w s
  | M_Shutdown code | M_Exited code =>
      connects (trace s) = [tr_connect_ok w]
      /\ disconnects (trace s) =
           (if tr_is_connected w then [tr_disconnect_ok w] else [])
      /\ code = status_of_link w
      /\ tasks_by_startup w s
  end.

(** Before the tasks exist nothing has touched the video, the queue or the
    transport's message channel. *)
Definition quiet_ok (s : State) : Prop :=
  not_created s ->
  puts (trace s) = [] /\ gets (trace s) = [] /\ sends (trace s) = []
  /\ opens (trace s) = [] /\ quantize_calls (trace s) = []
  /\ decoded (trace s) = 0%nat /\ cap s = cap_closed.

(** The running flag: the consumer has returned only with the flag down;
    the marker has been taken only by a consumer that then returned; and the
    flag is down only before the tasks exist, after a failed open, or after
    the marker was taken. *)
Definition stop_ok (w : World) (args : Args) (s : State) : Prop :=
  (consumer s = C_Done -> FinalStreamer.running (self s) = false)
  /\ (None ∈ gets (trace s) -> consumer s = C_Done)
  /\ (FinalStreamer.running (self s) = false ->
      not_created s
      \/ (cv_open w (video_file args) = None /\ producer s = P_Done)
      \/ None ∈ gets (trace s)).

(** The stride computation of lines 84-85 raises for this video. *)
Definition stride_raises (w : World) (args : Args) (e : exn) : Prop :=
  exists v, cv_open w (video_file args) = Some v
            /\ frame_step_of (video_fps v) (arg_fps args) = Raise e.

(** When the stride computation raises, the producer ends before its loop
    with that exception (or is cancelled before it ran), having put nothing,
    and the capture it opened is not released. *)
Definition no_loop_ok (w : World) (args : Args) (s : State) : Prop :=
  forall e, stride_raises w args e ->
    puts (trace s) = [] /\ cap_released (cap s) = false
    /\ match producer s with
       | P_NotCreated | P_Start => cap s = cap_closed
       | P_Raised e' =>
           (e' = e /\ cap_opened (cap s) = true)
           \/ (e' = CancelledError /\ cap s = cap_closed)
       | _ => False
       end.

(** Number of frames that a stride keeps out of [n]. *)
Definition kept (stride : Z) (n : nat) : nat :=
  Z.to_nat ((Z.of_nat n + stride - 1) / stride).

(** The consumer stands in a send. *)
Definition in_send (s : State) : Prop :=
  match consumer s with
  | C_SendBlock _ | C_SendLines (_ :: _) => True
  | _ => False
  end.

(** An upper bound on the steps that a task can still make, used to show
    that every run comes to an end. *)
Definition producer_budget (s : State) (n_frames : nat) : nat :=
  match producer s with
  | P_NotCreated | P_Start => 2 * n_frames + 3
  | P_While _ _ => 2 * length (cap_frames (cap s)) + 2
  | P_Put _ _ _ => 2 * length (cap_frames (cap s)) + 3
  | P_PutNone => 1
  | P_Done | P_Raised _ => 0
  end.

(** Items that the producer may still put. *)
Definition producer_items (s : State) (n_frames : nat) : nat :=
  match producer s with
  | P_NotCreated | P_Start => n_frames + 1
  | P_While _ _ => length (cap_frames (cap s)) + 1
  | P_Put _ _ _ => length (cap_frames (cap s)) + 2
  | P_PutNone => 1
  | P_Done | P_Raised _ => 0
  end.

(** Five steps for each item that the consumer may still take, and the
    steps that are left of the frame it is at. *)
Definition consumer_budget (s : State) (n_frames : nat) : nat :=
  match consumer s with
  | C_Done | C_Raised _ => 0
  | c =>
      5 * (length (queue s) + producer_items s n_frames)
      + match c with
        | C_SendBlock isb => 3 + length (TxImageSpriteBlock.sprite_lines isb)
        | C_SendLines rest => 2 + length rest
        | C_Get => 0
        | _ => 1
        end
  end.

Definition main_budget (s : State) : nat :=
  match main_pc s with
  | M_Connect => 6
  | M_Upload => 5
  | M_Spawn => 4
  | M_Gather => 3
  | M_Finally => 2
  | M_Shutdown _ => 1
  | M_Exited _ => 0
  end.

Definition video_length (w : World) (args : Args) : nat :=
  match cv_open w (video_file args) with
  | Some v => length (video_frames v)
  | None => 0
  end.

Definition budget (w : World) (args : Args) (s : State) : nat :=
  main_budget s + producer_budget s (video_length w args)
  + consumer_budget s (video_length w args).

(** The steps of a schedule that moved the state. *)
Fixpoint effective_steps (lib : ImagingLib) (pk : Packing) (w : World)
    (sched : list Task) (s : State) : nat :=
  match sched with
  | [] => 0
  | t :: rest =>
      match step lib pk w t s with
      | Some s' => S (effective_steps lib pk w rest s')
      | None => effective_steps lib pk w rest s
      end
  end.

(* ===================================================================== *)
(** ** Traces                                                             *)
(* ===================================================================== *)

Lemma puts_emit (tr : list Event) (e : Event) :
  puts (tr ++ [e]) = puts tr ++ option_list (put_of e).
Proof. unfold puts. rewrite omap_app. cbn. by destruct (put_of e). Qed.

Lemma gets_emit (tr : list Event) (e : Event) :
  gets (tr ++ [e]) = gets tr ++ option_list (get_of e).
Proof. unfold gets. rewrite omap_app. cbn. by destruct (get_of e). Qed.

Lemma sends_emit (tr : list Event) (e : Event) :
  sends (tr ++ [e]) = sends tr ++ option_list (send_of e).
Proof. unfold sends. rewrite omap_app. cbn. by destruct (send_of e). Qed.

Lemma quantize_calls_emit (tr : list Event) (e : Event) :
  quantize_calls (tr ++ [e]) = quantize_calls tr ++ option_list (quantize_of e).
Proof. unfold quantize_calls. rewrite omap_app. cbn. by destruct (quantize_of e). Qed.

Lemma palette_builds_emit (tr : list Event) (e : Event) :
  palette_builds (tr ++ [e]) = palette_builds tr ++ option_list (palette_build_of e).
Proof. unfold palette_builds. rewrite omap_app. cbn. by destruct (palette_build_of e). Qed.

Lemma decoded_emit (tr : list Event) (e : Event) :
  decoded (tr ++ [e]) =
  (decoded tr + match read_of e with Some true => 1 | _ => 0 end)%nat.
Proof.
  unfold decoded. rewrite omap_app, filter_app, length_app. cbn.
  destruct (read_of e) as [[|]|]; reflexivity.
Qed.

Lemma frames_of_app (xs ys : list (option Mat)) :
  frames_of (xs ++ ys) = frames_of xs ++ frames_of ys.
Proof. apply omap_app. Qed.

Lemma frames_of_somes (gs : list Mat) : frames_of (map Some gs) = gs.
Proof. induction gs as [|g gs IH]; cbn; [done|]. unfold frames_of in IH. by rewrite IH. Qed.

Create Rewrite HintDb trace.

#[local] Hint Rewrite puts_emit gets_emit sends_emit quantize_calls_emit
  palette_builds_emit decoded_emit : trace.

Ltac trace_simpl :=
  cbn [trace self images queue cap connected main_pc producer consumer
       set_self set_queue set_cap set_connected set_main set_producer
       set_consumer emit set_running
       FinalStreamer.set_running FinalStreamer.file_path FinalStreamer.width
       FinalStreamer.height FinalStreamer.fps_limit FinalStreamer.running
       FinalStreamer.palette_bytes FinalStreamer.palette_image] in *;
  autorewrite with trace in *;
  cbn [put_of get_of send_of quantize_of palette_build_of read_of option_list from_option] in *;
  rewrite ?app_nil_r, ?Nat.add_0_r in *.

Lemma decimate_nil (stride : Z) : decimate stride [] = [].
Proof. reflexivity. Qed.

Lemma decimate_snoc (stride : Z) (frames : list Mat) (f : Mat) :
  decimate stride (frames ++ [f]) =
  decimate stride frames
  ++ (if decide (Z.of_nat (length frames) mod stride = 0) then [f] else []).
Proof.
  unfold decimate. rewrite imap_app, filter_app, fmap_app. f_equal.
  cbn [imap]. rewrite filter_cons, filter_nil. cbn [fst].
  rewrite Nat.add_0_r. by case_decide.
Qed.

Lemma decimate_take_S (stride : Z) (frames : list Mat) (n : nat) (f : Mat) :
  frames !! n = Some f ->
  decimate stride (take (S n) frames) =
  decimate stride (take n frames)
  ++ (if decide (Z.of_nat n mod stride = 0) then [f] else []).
Proof.
  intros Hf. rewrite (take_S_r _ _ _ Hf), decimate_snoc.
  rewrite length_take. apply lookup_lt_Some in Hf.
  by rewrite Nat.min_l by lia.
Qed.

Section Preservation.

Context (lib : ImagingLib) (pk : Packing) (w : World) (args : Args).

Lemma encode_set_running (b : bool) (st : FinalStreamer.t)
    (imgs : list PILImage) (g : Mat) :
  encode lib (FinalStreamer.set_running b st) imgs g = encode lib st imgs g.
Proof. reflexivity. Qed.

(** A step that leaves the consumer, what it got and what it sent alone
    keeps what is known about the consumer. *)
Lemma consumer_ok_frame (s s' : State) :
  consumer s' = consumer s ->
  gets (trace s') = gets (trace s) ->
  sends (trace s') = sends (trace s) ->
  (forall g, encode lib (self s') (images s') g = encode lib (self s) (images s) g) ->
  consumer_ok lib pk s -> consumer_ok lib pk s'.
Proof.
  intros Hc Hg Hs He (grays & isbs & cur & partial & H1 & H2 & H3 & H4).
  exists grays, isbs, cur, partial. rewrite Hg, Hs.
  split_and!; [done| |done|].
  - unfold encodes in *. eapply Forall2_impl; [exact H2|].
    intros g b Hb. by rewrite He.
  - unfold consumer_at in *. rewrite Hc.
    destruct (consumer s); try done.
    + destruct H4 as (g & ? & ? & ?). exists g. by rewrite He.
    + destruct H4 as (g & isb & sl & ? & ? & ? & ?).
      exists g, isb, sl. by rewrite He.
    + destruct H4 as [?|(g & isb & ? & ? & ?)]; [by left|right].
      exists g, isb. by rewrite He.
Qed.

Lemma producer_ok_frame (s s' : State) :
  producer s' = producer s ->
  puts (trace s') = puts (trace s) ->
  decoded (trace s') = decoded (trace s) ->
  cap s' = cap s ->
  FinalStreamer.running (self s') = FinalStreamer.running (self s) ->
  producer_ok lib w args s -> producer_ok lib w args s'.
Proof.
  unfold producer_ok. intros -> -> -> -> ->. done.
Qed.

End Preservation.

Ltac inv_step :=
  match goal with
  | H : Some _ = Some _ |- _ => injection H as <-
  | H : None = Some _ |- _ => discriminate H
  end.

Section ProducerSteps.

Context (lib : ImagingLib) (pk : Packing) (w : World) (args : Args).

Lemma main_ok_frame (s s' : State) :
  main_pc s' = main_pc s ->
  producer s <> P_NotCreated \/ consumer s <> C_NotCreated ->
  main_ok w s -> main_ok w s'.
Proof.
  unfold main_ok. intros -> Hnc.
  destruct (main_pc s); try done; intros (? & ? & _); destruct Hnc; congruence.
Qed.

Lemma step_producer_inv (s s' : State) :
  Inv lib pk w args s -> step_producer lib w s = Some s' ->
  Inv lib pk w args s'.
Proof.
  intros [Hself Hpal Hq Hp Hc Hm] Hstep.
  assert (producer s <> P_NotCreated) as Hnc.
  { intros E. unfold step_producer in Hstep. by rewrite E in Hstep. }
  assert (main_ok w s') as Hm'.
  { eapply main_ok_frame; [|by left|done].
    unfold step_producer in Hstep.
    repeat (case_match; simplify_eq); reflexivity. }
  assert (consumer_ok lib pk s') as Hc'.
  { eapply consumer_ok_frame; [..|exact Hc];
      unfold step_producer in Hstep;
      repeat (case_match; simplify_eq); trace_simpl; reflexivity. }
  assert (self_ok args s') as Hself'.
  { unfold step_producer, self_ok in *.
    repeat (case_match; simplify_eq); trace_simpl; done. }
  assert (palette_calls_ok s') as Hpal'.
  { unfold step_producer, palette_calls_ok in *.
    repeat (case_match; simplify_eq); trace_simpl; done. }
  split; try done.
  - (* queue *)
    unfold step_producer, queue_ok, queue_full, QUEUE_MAXSIZE in *.
    destruct Hq as [Hq1 Hq2].
    repeat (case_match; simplify_eq); trace_simpl;
      rewrite ?length_app, ?Hq1, ?app_assoc; cbn [length]; split; try done; lia.
  - (* producer *)
    unfold step_producer in Hstep. unfold producer_ok in *.
    destruct Hself as (Hpath & _ & _ & Hfps & _).
    destruct (producer s) as [| |fs fn|fs fn g| | |e] eqn:Hpc; try done.
    + (* P_Start *)
      destruct Hp as (Hputs & Hdec & Hcap & Hrun).
      rewrite Hpath, Hfps in Hstep.
      destruct (cv_open w (video_file args)) as [v|] eqn:Hopen.
      * destruct (frame_step_of (video_fps v) (arg_fps args)) as [fs|e] eqn:Hfs;
          inv_step; trace_simpl.
        -- exists v, [], 0%nat. rewrite take_0, drop_0, decimate_nil.
           split_and!; try done. lia. constructor.
        -- split; [done|]. exists []. split; [done|].
           intros v' fs' Hv' Hfs'. congruence.
      * inv_step; trace_simpl. by left.
    + (* P_While *)
      destruct Hp as (v & grays & n & Hopen & Hfs & -> & Hn & Hdec & Hcap
                      & Hputs & Hconv & Hrun).
      rewrite Hrun, Hcap in Hstep. cbn [cap_frames cap_reading] in Hstep.
      destruct (drop n (video_frames v)) as [|f rest] eqn:Hdrop.
      * inv_step; trace_simpl.
        apply drop_nil_inv in Hdrop.
        assert (n = length (video_frames v)) as -> by lia.
        rewrite firstn_all in Hconv.
        exists v, fs, grays. by rewrite Hcap.
      * assert (video_frames v !! n = Some f) as Hf.
        { pose proof (lookup_drop (video_frames v) n 0) as H0.
          rewrite Hdrop, Nat.add_0_r in H0. done. }
        assert (drop (S n) (video_frames v) = rest) as Hrest.
        { rewrite (drop_S _ _ _ Hf) in Hdrop. congruence. }
        pose proof (lookup_lt_Some _ _ _ Hf) as Hlt. subst rest.
        destruct (Z.of_nat n mod fs =? 0) eqn:Hmod.
        -- apply Z.eqb_eq in Hmod.
           destruct (cvtColor_BGR2GRAY lib f) as [g|e] eqn:Hcvt;
             inv_step; trace_simpl.
           ++ exists v, grays, n, f. split_and!; try done. lia.
           ++ split; [done|]. exists grays. split; [done|].
              intros v' fs' Hv' Hfs'.
              rewrite Hopen in Hv'. injection Hv' as <-.
              rewrite Hfs in Hfs'. injection Hfs' as <-. exists n.
              split_and!; try done; lia.
        -- apply Z.eqb_neq in Hmod. inv_step; trace_simpl.
           exists v, grays, (S n).
           split_and!; try done; try lia.
           rewrite (decimate_take_S _ _ _ _ Hf).
           rewrite decide_False by done. by rewrite app_nil_r.
    + (* P_Put *)
      destruct Hp as (v & grays & n & f & Hopen & Hfs & -> & Hf & Hmod & Hcvt
                      & Hdec & Hcap & Hputs & Hconv & Hrun).
      destruct (queue_full (queue s)); inv_step; trace_simpl.
      pose proof (lookup_lt_Some _ _ _ Hf) as Hlt.
      exists v, (grays ++ [g]), (S n).
      split_and!; try done; try lia.
      * by rewrite Hputs, map_app.
      * rewrite (decimate_take_S _ _ _ _ Hf), decide_True by done.
        apply Forall2_app; [done|]. by constructor.
    + (* P_PutNone *)
      destruct Hp as (v & fs & grays & Hopen & Hfs & Hdec & Hcap & Hputs & Hconv).
      destruct (queue_full (queue s)); inv_step; trace_simpl.
      right. exists v, fs, grays. rewrite Hcap, Hputs. done.
Qed.

End ProducerSteps.

Section ConsumerSteps.

Context (lib : ImagingLib) (pk : Packing) (w : World) (args : Args).

Lemma somes_no_marker (grays : list Mat) (xs ys : list (option Mat)) :
  map Some grays = xs ++ None :: ys -> False.
Proof.
  intros H.
  assert (None ∈ map Some grays) as Hin.
  { rewrite H. apply elem_of_app. right. left. }
  apply list_elem_of_fmap in Hin as (g & ? & _). done.
Qed.

Lemma nil_no_marker (xs ys : list (option Mat)) : [] = xs ++ None :: ys -> False.
Proof. by destruct xs. Qed.

(** Once the marker is in the queue the producer has returned. *)
Lemma marker_producer_done (s : State) (ys : list (option Mat)) :
  producer_ok lib w args s -> queue_ok s -> queue s = None :: ys ->
  producer s = P_Done.
Proof.
  unfold producer_ok, queue_ok. intros Hp [Hq _] Hqueue.
  rewrite Hqueue in Hq.
  destruct (producer s); try done; exfalso.
  - destruct Hp as (Hp & _). rewrite Hp in Hq. by eapply nil_no_marker.
  - destruct Hp as (Hp & _). rewrite Hp in Hq. by eapply nil_no_marker.
  - destruct Hp as (v & grays & n & _ & _ & _ & _ & _ & _ & Hp & _).
    rewrite Hp in Hq. by eapply somes_no_marker.
  - destruct Hp as (v & grays & n & f & _ & _ & _ & _ & _ & _ & _ & _ & Hp & _).
    rewrite Hp in Hq. by eapply somes_no_marker.
  - destruct Hp as (v & fs & grays & _ & _ & _ & _ & Hp & _).
    rewrite Hp in Hq. by eapply somes_no_marker.
  - destruct Hp as (_ & grays & Hp & _).
    rewrite Hp in Hq. by eapply somes_no_marker.
Qed.

Lemma line_packets_app (xs ys : list TxSprite.t) :
  line_packets pk (xs ++ ys) = line_packets pk xs ++ line_packets pk ys.
Proof. apply map_app. Qed.

Lemma step_consumer_inv (s s' : State) :
  Inv lib pk w args s -> step_consumer lib pk w s = Some s' ->
  Inv lib pk w args s'.
Proof.
  intros [Hself Hpal Hq Hp Hc Hm] Hstep.
  assert (consumer s <> C_NotCreated) as Hnc.
  { intros E. unfold step_consumer in Hstep. by rewrite E in Hstep. }
  assert (main_ok w s') as Hm'.
  { eapply main_ok_frame; [|by right|done].
    unfold step_consumer, send_message in Hstep.
    repeat (case_match; simplify_eq); reflexivity. }
  assert (self_ok args s') as Hself'.
  { unfold step_consumer, send_message, self_ok in *.
    repeat (case_match; simplify_eq); trace_simpl; done. }
  assert (palette_calls_ok s') as Hpal'.
  { unfold step_consumer, send_message, palette_calls_ok in *.
    destruct Hself as (_ & _ & _ & _ & _ & Hidx & _).
    repeat (case_match; simplify_eq); trace_simpl; try done.
    all: destruct Hpal as [? ?]; split; [done|].
    all: apply Forall_app; split; [done|]; by repeat constructor. }
  assert (queue_ok s') as Hq'.
  { unfold step_consumer, send_message, queue_ok, QUEUE_MAXSIZE in *.
    destruct Hq as [Hq1 Hq2].
    repeat (case_match; simplify_eq); trace_simpl; try done.
    all: cbn [length] in Hq2; rewrite Hq1, <- app_assoc; split; [done|lia]. }
  assert (producer_ok lib w args s') as Hp'.
  { unfold step_consumer, send_message in Hstep.
    destruct (consumer s) eqn:Hpc; try done.
    - eapply producer_ok_frame; [..|exact Hp];
        repeat (case_match; simplify_eq); trace_simpl; congruence.
    - destruct (queue s) as [|[g|] rest] eqn:Hqueue; [done| |].
      + eapply producer_ok_frame; [..|exact Hp];
          repeat (case_match; simplify_eq); trace_simpl; congruence.
      + pose proof (marker_producer_done _ _ Hp Hq Hqueue) as Hdone.
        inv_step. unfold producer_ok in *. trace_simpl.
        rewrite Hdone in *. done.
    - eapply producer_ok_frame; [..|exact Hp];
        repeat (case_match; simplify_eq); trace_simpl; congruence.
    - eapply producer_ok_frame; [..|exact Hp];
        repeat (case_match; simplify_eq); trace_simpl; congruence. }
  split; try done.
  (* consumer *)
  unfold step_consumer, send_message in Hstep.
  destruct Hc as (grays & isbs & cur & partial & Hgets & Henc & Hsends & Hat).
  unfold consumer_ok, consumer_at, encodes in *.
  destruct (consumer s) as [| | |isb|lines| |e] eqn:Hpc; try done.
  - (* C_While *)
    destruct Hat as [-> ->].
    exists grays, isbs, [], [].
    destruct (FinalStreamer.running (self s)); inv_step; trace_simpl; done.
  - (* C_Get *)
    destruct Hat as [-> ->]. rewrite app_nil_r in Hgets, Hsends.
    destruct (queue s) as [|[g|] rest] eqn:Hqueue; [done| |].
    + destruct (to_rgb lib (self s) g) as [rgb|e] eqn:Hrgb.
      * destruct (to_block lib (self s) (images s) rgb) as [isb|e] eqn:Hblk;
          inv_step; trace_simpl.
        -- exists grays, isbs, [g], []. rewrite frames_of_app, Hgets, app_nil_r.
           split_and!; try done. exists g. split_and!; try done.
           unfold encode. by rewrite Hrgb.
        -- exists grays, isbs, [g], []. rewrite frames_of_app, Hgets, app_nil_r.
           split_and!; try done. left. cbn. split; [done|lia].
      * inv_step; trace_simpl.
        exists grays, isbs, [g], []. rewrite frames_of_app, Hgets, app_nil_r.
        split_and!; try done. left. cbn. split; [done|lia].
    + inv_step; trace_simpl.
      exists grays, isbs, [], []. rewrite frames_of_app, Hgets, !app_nil_r.
      done.
  - (* C_SendBlock *)
    destruct Hat as (g & -> & Hg & ->). rewrite app_nil_r in Hsends.
    destruct (send_pending w s); [done|]. destruct (tr_send_ok w _); inv_step; trace_simpl.
    + exists grays, isbs, [g], [(ISB_MESSAGE_ID, isb_pack pk isb)].
      split_and!; try done. { by rewrite Hsends. }
      exists g, isb, []. done.
    + exists grays, isbs, [g], []. rewrite app_nil_r.
      split_and!; try done. left. cbn. split; [done|lia].
  - (* C_SendLines *)
    destruct Hat as (g & isb & sent_lines & -> & Hg & Hlines & ->).
    destruct lines as [|line_sprite rest].
    + inv_step; trace_simpl.
      exists (grays ++ [g]), (isbs ++ [isb]), [], [].
      rewrite !app_nil_r. split_and!; try done.
      * apply Forall2_app; [done|]. by constructor.
      * rewrite flat_map_app, Hsends. f_equal.
        change (flat_map (frame_packets pk) [isb]) with (frame_packets pk isb ++ []).
        unfold frame_packets. fold (line_packets pk (TxImageSpriteBlock.sprite_lines isb)).
        rewrite Hlines, !app_nil_r. done.
    + destruct (send_pending w s); [done|]. destruct (tr_send_ok w _); inv_step; trace_simpl.
      * exists grays, isbs, [g],
          ((ISB_MESSAGE_ID, isb_pack pk isb)
           :: line_packets pk (sent_lines ++ [line_sprite])).
        split_and!; try done.
        -- rewrite Hsends, line_packets_app, <- !app_assoc. done.
        -- exists g, isb, (sent_lines ++ [line_sprite]).
           rewrite <- app_assoc. done.
      * exists grays, isbs, [g],
          ((ISB_MESSAGE_ID, isb_pack pk isb) :: line_packets pk sent_lines).
        split_and!; try done. right. exists g, isb. split_and!; try done.
        unfold frame_packets. fold (line_packets pk (TxImageSpriteBlock.sprite_lines isb)).
        rewrite Hlines, line_packets_app.
        apply prefix_cons, prefix_app_r. done.
Qed.

End ConsumerSteps.

Section MainSteps.

Context (lib : ImagingLib) (pk : Packing) (w : World) (args : Args).

Lemma cancel_producer_ok (s s' : State) :
  producer s' = cancel_producer (producer s) ->
  puts (trace s') = puts (trace s) ->
  decoded (trace s') = decoded (trace s) ->
  cap s' = cap s ->
  FinalStreamer.running (self s') = FinalStreamer.running (self s) ->
  producer_ok lib w args s -> producer_ok lib w args s'.
Proof.
  unfold producer_ok. intros -> -> -> -> ->.
  destruct (producer s) as [| |fs fn|fs fn g| | |e]; cbn [cancel_producer];
    try done.
  - intros (Hputs & Hdec & Hcap & _). rewrite Hcap, Hputs, Hdec.
    split; [done|]. exists []. split; [done|]. intros v fs _ _.
    exists 0%nat. rewrite take_0, decimate_nil.
    split_and!; try lia. constructor.
  - intros (v & grays & n & Hopen & Hfs & _ & Hn & Hdec & Hcap & Hputs & Hconv & _).
    rewrite Hcap. split; [done|]. exists grays. split; [done|].
    intros v' fs' Hv' Hfs'.
    rewrite Hopen in Hv'. injection Hv' as <-.
    rewrite Hfs in Hfs'. injection Hfs' as <-.
    exists n. split_and!; try done; lia.
  - intros (v & grays & n & f & Hopen & Hfs & _ & Hf & _ & _ & Hdec & Hcap
            & Hputs & Hconv & _).
    rewrite Hcap. split; [done|]. exists grays. split; [done|].
    intros v' fs' Hv' Hfs'.
    rewrite Hopen in Hv'. injection Hv' as <-.
    rewrite Hfs in Hfs'. injection Hfs' as <-.
    apply lookup_lt_Some in Hf.
    exists n. split_and!; try done; lia.
  - intros (v & fs & grays & Hopen & Hfs & Hdec & Hcap & Hputs & Hconv).
    rewrite Hcap. split; [done|]. exists grays. split; [done|].
    intros v' fs' Hv' Hfs'.
    rewrite Hopen in Hv'. injection Hv' as <-.
    rewrite Hfs in Hfs'. injection Hfs' as <-.
    exists (length (video_frames v)). rewrite firstn_all.
    split_and!; try done; lia.
Qed.

Lemma cancel_consumer_ok (s s' : State) :
  consumer s' = cancel_consumer (consumer s) ->
  gets (trace s') = gets (trace s) ->
  sends (trace s') = sends (trace s) ->
  self s' = self s -> images s' = images s ->
  consumer_ok lib pk s -> consumer_ok lib pk s'.
Proof.
  intros Hc Hg Hs Hself Himg (grays & isbs & cur & partial & H1 & H2 & H3 & H4).
  exists grays, isbs, cur, partial. rewrite Hg, Hs.
  unfold encodes, consumer_at in *. rewrite Hc, Hself, Himg.
  split_and!; try done.
  destruct (consumer s) as [| | |isb|lines| |e]; cbn [cancel_consumer];
    try done.
  - destruct H4 as [-> ->]. left. cbn. split; [done|lia].
  - destruct H4 as [-> ->]. left. cbn. split; [done|lia].
  - destruct H4 as (g & -> & Hg' & ->). left. cbn. split; [done|lia].
  - destruct H4 as (g & isb & sent_lines & -> & Hg' & Hlines & ->).
    right. exists g, isb. split_and!; try done.
    unfold frame_packets.
    fold (line_packets pk (TxImageSpriteBlock.sprite_lines isb)).
    rewrite Hlines. unfold line_packets. rewrite map_app.
    apply prefix_cons, prefix_app_r. done.
Qed.

Lemma step_main_inv (s s' : State) :
  Inv lib pk w args s -> step_main w s = Some s' -> Inv lib pk w args s'.
Proof.
  intros [Hself Hpal Hq Hp Hc Hm] Hstep.
  assert (self_ok args s') as Hself'.
  { unfold step_main, self_ok in *.
    repeat (case_match; simplify_eq); trace_simpl; done. }
  assert (palette_calls_ok s') as Hpal'.
  { unfold step_main, palette_calls_ok in *.
    repeat (case_match; simplify_eq); trace_simpl; done. }
  unfold step_main in Hstep.
  destruct (main_pc s) as [| | | | |code|code] eqn:Hpc; [..|done].
  - (* M_Connect *)
    split; try done.
    + unfold queue_ok in *. destruct (tr_connect_ok w); inv_step; trace_simpl; done.
    + eapply producer_ok_frame; [..|exact Hp];
        destruct (tr_connect_ok w); inv_step; trace_simpl; done.
    + eapply consumer_ok_frame; [..|exact Hc];
        destruct (tr_connect_ok w); inv_step; trace_simpl; done.
    + unfold main_ok in *. rewrite Hpc in Hm.
      destruct (tr_connect_ok w); inv_step; trace_simpl; done.
  - (* M_Upload *)
    split; try done.
    + unfold queue_ok in *. destruct (tr_upload_ok w); inv_step; trace_simpl; done.
    + eapply producer_ok_frame; [..|exact Hp];
        destruct (tr_upload_ok w); inv_step; trace_simpl; done.
    + eapply consumer_ok_frame; [..|exact Hc];
        destruct (tr_upload_ok w); inv_step; trace_simpl; done.
    + unfold main_ok in *. rewrite Hpc in Hm.
      destruct (tr_upload_ok w); inv_step; trace_simpl; done.
  - (* M_Spawn *)
    unfold main_ok in Hm. rewrite Hpc in Hm.
    destruct Hm as (Hprod & Hcons & Hqueue & Hgets & Hsends).
    destruct Hq as [Hq1 Hq2]. rewrite Hgets, Hqueue in Hq1.
    inv_step. split; try done.
    + unfold queue_ok, QUEUE_MAXSIZE. trace_simpl. by rewrite Hq1, Hgets.
    + unfold producer_ok in *. rewrite Hprod in Hp. trace_simpl.
      destruct Hp as (? & ? & ?). done.
    + destruct Hc as (grays & isbs & cur & partial & H1 & H2 & H3 & H4).
      unfold consumer_at in H4. rewrite Hcons in H4. destruct H4 as [-> ->].
      exists grays, isbs, [], []. done.
  - (* M_Gather *)
    assert (s' = set_main M_Finally s) as ->.
    { repeat (case_match; simplify_eq); done. }
    split; try done.
  - (* M_Finally *)
    split; try done.
    + unfold queue_ok in *.
      repeat (case_match; simplify_eq); trace_simpl; done.
    + eapply producer_ok_frame; [..|exact Hp];
        repeat (case_match; simplify_eq); trace_simpl; done.
    + eapply consumer_ok_frame; [..|exact Hc];
        repeat (case_match; simplify_eq); trace_simpl; done.
    + unfold main_ok.
      repeat (case_match; simplify_eq); trace_simpl; simplify_eq;
        first [by left | by right].
  - (* M_Shutdown *)
    inv_step. split; try done.
    + by eapply cancel_producer_ok; [..|exact Hp].
    + by eapply cancel_consumer_ok; [..|exact Hc].
    + unfold main_ok in *. by rewrite Hpc in Hm.
Qed.

Lemma initial_self (a : Args) : self_ok a (initial a).
Proof. unfold self_ok. by repeat split. Qed.

Lemma initial_inv : Inv lib pk w args (initial args).
Proof.
  split.
  - apply initial_self.
  - split; [done|]. cbn. constructor.
  - by split.
  - by repeat split.
  - exists [], [], [], []. repeat split. constructor.
  - by repeat split.
Qed.

Lemma step_inv (t : Task) (s s' : State) :
  Inv lib pk w args s -> step lib pk w t s = Some s' -> Inv lib pk w args s'.
Proof.
  destruct t; cbn [step].
  - apply step_main_inv.
  - apply step_producer_inv.
  - apply step_consumer_inv.
Qed.

Lemma run_inv (sched : list Task) :
  forall s, Inv lib pk w args s -> Inv lib pk w args (run lib pk w sched s).
Proof.
  induction sched as [|t sched IH]; intros s Hs; cbn [run fold_left]; [done|].
  apply IH. unfold sched_step.
  destruct (step lib pk w t s) as [s'|] eqn:Hstep; [|done].
  by eapply step_inv.
Qed.

(** Every state of every run satisfies the invariant. *)
Lemma reachable_inv (sched : list Task) :
  Inv lib pk w args (run lib pk w sched (initial args)).
Proof. apply run_inv, initial_inv. Qed.

Lemma reachable_Inv (s : State) :
  reachable lib pk w args s -> Inv lib pk w args s.
Proof. intros [sched ->]. apply reachable_inv. Qed.

End MainSteps.

(* ===================================================================== *)
(** ** The quantiser                                                      *)
(* ===================================================================== *)

Section Quantizer.

Lemma nearest_from_bounds (es : list RGB) (p : RGB) :
  forall i best d,
    0 <= best < i ->
    0 <= nearest_from es p i best d < i + Z.of_nat (length es).
Proof.
  induction es as [|e es IH]; intros i best d Hb;
    cbn [nearest_from length]; [lia|].
  rewrite Nat2Z.inj_succ.
  - destruct (dist2 p e <? d).
    + specialize (IH (i + 1) i (dist2 p e)). lia.
    + specialize (IH (i + 1) best d). lia.
Qed.

Lemma nearest_bounds (entries : list RGB) (p : RGB) :
  entries <> [] -> 0 <= nearest entries p < Z.of_nat (length entries).
Proof.
  destruct entries as [|e es]; [congruence|intros _].
  unfold nearest. pose proof (nearest_from_bounds es p 1 0 (dist2 p e)).
  simpl length. lia.
Qed.

Lemma fixed_entries_level (i : Z) :
  0 <= i <= 3 -> palette_lookup fixed_entries i = (85 * i, 85 * i, 85 * i).
Proof.
  intros Hi.
  assert (i = 0 \/ i = 1 \/ i = 2 \/ i = 3) as [->|[->|[->| ->]]] by lia;
    reflexivity.
Qed.

Lemma nearest_fixed_level (i : Z) :
  0 <= i <= 3 -> nearest fixed_entries (palette_lookup fixed_entries i) = i.
Proof.
  intros Hi.
  assert (i = 0 \/ i = 1 \/ i = 2 \/ i = 3) as [->|[->|[->| ->]]] by lia;
    reflexivity.
Qed.

Lemma nearest_fixed_range (p : RGB) : 0 <= nearest fixed_entries p <= 3.
Proof.
  pose proof (nearest_bounds fixed_entries p ltac:(discriminate)) as H.
  change (Z.of_nat (length fixed_entries)) with 4 in H. lia.
Qed.

Lemma requantize_indices (px : list Z) :
  Forall (fun i => 0 <= i <= 3) px ->
  map (nearest fixed_entries) (map (palette_lookup fixed_entries) px) = px.
Proof.
  induction 1 as [|i px Hi _ IH]; cbn [map]; [done|].
  by rewrite nearest_fixed_level, IH.
Qed.

End Quantizer.

(* ===================================================================== *)
(** ** Sprite blocks and packets                                          *)
(* ===================================================================== *)

Section Blocks.

Context (lib : ImagingLib) (pk : Packing).

(** The block that [encode] returns: line height equal to the sprite
    height, no progressive rendering, and a single line sprite that
    starts at row 0 and has the full height. *)
Lemma encode_block (st : FinalStreamer.t) (imgs : list PILImage)
    (g : Mat) (b : TxImageSpriteBlock.t) :
  encode lib st imgs g = Ok b ->
  let img := TxImageSpriteBlock.image b in
  FinalStreamer.height st <> 0
  /\ TxSprite.width img = FinalStreamer.width st
  /\ TxSprite.height img = FinalStreamer.height st
  /\ TxSprite.num_colors img = 4
  /\ TxSprite.palette_data img = FinalStreamer.palette_bytes st
  /\ TxSprite.compress img = false
  /\ TxImageSpriteBlock.sprite_line_height b = FinalStreamer.height st
  /\ TxImageSpriteBlock.progressive_render b = false
  /\ TxImageSpriteBlock.sprite_lines b =
       [TxImageSpriteBlock.strip img 0 (FinalStreamer.height st)].
Proof.
  unfold encode, to_block, TxImageSpriteBlock.init. intros H.
  destruct (to_rgb lib st g) as [rgb|e]; [|done]. cbn [mbind result_bind] in H.
  destruct (Image_quantize lib rgb _) as [q|e]; [|done].
  cbn [mbind result_bind TxSprite.height] in H.
  destruct (negb _); [done|].
  destruct (FinalStreamer.height st =? 0) eqn:Hh; [done|].
  apply Z.eqb_neq in Hh. injection H as <-.
  cbn [TxImageSpriteBlock.image TxImageSpriteBlock.sprite_line_height
       TxImageSpriteBlock.progressive_render TxImageSpriteBlock.sprite_lines
       TxSprite.width TxSprite.height TxSprite.num_colors
       TxSprite.palette_data TxSprite.compress].
  split_and!; try done.
  unfold TxImageSpriteBlock.split_into_lines. cbn [TxSprite.height].
  rewrite Z.div_same, Z_mod_same_full by done. reflexivity.
Qed.

Lemma encode_lines_in_order (st : FinalStreamer.t) (imgs : list PILImage)
    (g : Mat) (b : TxImageSpriteBlock.t) :
  encode lib st imgs g = Ok b -> lines_in_order b.
Proof.
  intros H. apply encode_block in H.
  destruct H as (_ & _ & Hh & _ & _ & _ & Hlh & _ & Hlines).
  unfold lines_in_order. rewrite Hlines, Hlh. intros i line Hi.
  destruct i as [|i]; [|done]. injection Hi as <-.
  cbn [TxImageSpriteBlock.strip TxSprite.height]. split; [|by left].
  by rewrite Z.mul_0_l.
Qed.

Lemma frame_packets_ids (b : TxImageSpriteBlock.t) :
  Forall (fun m => m.1 = ISB_MESSAGE_ID) (frame_packets pk b).
Proof.
  unfold frame_packets. constructor; [done|].
  apply Forall_forall. intros m Hm.
  apply list_elem_of_fmap in Hm as (l & -> & _). done.
Qed.

Lemma consumer_at_partial (s : State) (cur : list Mat)
    (partial : list (Z * list Z)) :
  consumer_at lib pk s cur partial ->
  partial = []
  \/ exists g b, cur = [g]
       /\ encode lib (self s) (images s) g = Ok b
       /\ partial `prefix_of` frame_packets pk b.
Proof.
  unfold consumer_at. destruct (consumer s) as [| | |isb|lines| |e].
  1-3, 6: by intros [_ ->]; left.
  - intros (g & -> & Hg & ->). by left.
  - intros (g & isb & sent_lines & -> & Hg & Hlines & ->). right.
    exists g, isb. split_and!; try done. unfold frame_packets.
    fold (line_packets pk (TxImageSpriteBlock.sprite_lines isb)).
    rewrite Hlines. unfold line_packets. rewrite map_app.
    apply prefix_cons, prefix_app_r. done.
  - intros [[-> _]|(g & b & -> & Hg & Hpre)]; [by left|right]. eauto.
Qed.

End Blocks.

(** The block constructor on its own, for any positive line height: the
    number of line sprites is [height / line_height], plus one for the rows
    left over, and they come in row order. *)
Lemma split_into_lines_length (img : TxSprite.t) (lh : Z) :
  0 < lh -> 0 <= TxSprite.height img ->
  length (TxImageSpriteBlock.split_into_lines img lh) =
  (Z.to_nat (TxSprite.height img / lh)%Z
   + if (0 <? TxSprite.height img mod lh)%Z then 1 else 0)%nat.
Proof.
  intros Hlh Hh. unfold TxImageSpriteBlock.split_into_lines.
  rewrite length_app, length_map, length_seq.
  by destruct (0 <? TxSprite.height img mod lh).
Qed.

Lemma split_into_lines_in_order (img : TxSprite.t) (lh : Z) (i : nat)
    (line : TxSprite.t) :
  0 < lh -> 0 <= TxSprite.height img ->
  TxImageSpriteBlock.split_into_lines img lh !! i = Some line ->
  line = TxImageSpriteBlock.strip img (Z.of_nat i * lh) (TxSprite.height line)
  /\ (TxSprite.height line = lh
      \/ (Z.of_nat i = TxSprite.height img / lh
          /\ TxSprite.height line = TxSprite.height img mod lh)).
Proof.
  intros Hlh Hh. unfold TxImageSpriteBlock.split_into_lines.
  set (full := TxSprite.height img / lh).
  assert (0 <= full) as Hfull by (apply Z.div_pos; lia).
  change (map ?f ?l) with (f <$> l).
  intros [Hi|[Hlen Hi]]%lookup_app_Some.
  - rewrite list_lookup_fmap in Hi.
    destruct (seq 0 (Z.to_nat full) !! i) as [j|] eqn:Hj; [|done].
    apply lookup_seq in Hj as [-> _]. injection Hi as <-.
    cbn [TxImageSpriteBlock.strip TxSprite.height]. split; [done|by left].
  - rewrite length_fmap, length_seq in Hlen, Hi.
    destruct (0 <? TxSprite.height img mod lh); [|done].
    destruct (i - Z.to_nat full)%nat as [|k] eqn:Hk; [|done].
    injection Hi as <-.
    assert (Z.of_nat i = full) as -> by lia.
    cbn [TxImageSpriteBlock.strip TxSprite.height]. split; [done|by right].
Qed.

(** C1: in every state of every run the messages handed to the transport
    are the packets of the frames taken from the queue, frame after frame in
    queue order: for each frame the header of its block and then its line
    sprites in row order ([lines_in_order]); only the frame being sent may
    be incomplete, and then exactly a prefix of its packets is out
    ([consumer_at] says which, by the point the consumer is at).  Every
    message carries the id 0x20. *)
Theorem packets_header_then_lines (lib : ImagingLib) (pk : Packing)
    (w : World) (args : Args) (sched : list Task) :
  let s := run lib pk w sched (initial args) in
  exists grays isbs cur partial,
    frames_of (gets (trace s)) = grays ++ cur
    /\ encodes lib s grays isbs
    /\ sends (trace s) = flat_map (frame_packets pk) isbs ++ partial
    /\ consumer_at lib pk s cur partial
    /\ (partial = []
        \/ exists g b, cur = [g]
             /\ encode lib (self s) (images s) g = Ok b
             /\ partial `prefix_of` frame_packets pk b)
    /\ Forall lines_in_order isbs
    /\ Forall (fun m => m.1 = 0x20) (sends (trace s)).
Proof.
  intros s. destruct (reachable_inv lib pk w args sched) as [_ _ _ _ Hc _].
  fold s in Hc.
  destruct Hc as (grays & isbs & cur & partial & Hgets & Henc & Hsends & Hat).
  exists grays, isbs, cur, partial.
  pose proof (consumer_at_partial _ _ _ _ _ Hat) as Hpartial.
  split_and!; try done.
  - unfold encodes in Henc. clear -Henc.
    induction Henc as [|g b gs bs Hgb _ IH]; constructor; [|done].
    by eapply encode_lines_in_order.
  - rewrite Hsends. apply Forall_app. split.
    + apply Forall_flat_map, Forall_forall. intros b _. apply frame_packets_ids.
    + destruct Hpartial as [->|(g & b & _ & _ & Hpre)]; [constructor|].
      destruct Hpre as [rest Hrest].
      pose proof (frame_packets_ids pk b) as Hids.
      rewrite Hrest in Hids. by apply Forall_app in Hids as [? _].
Qed.

(** C10: every block that the consumer has sent, or is sending, was built
    with [sprite_line_height] equal to the sprite height and
    [progressive_render] off; its packets are the header and one line packet,
    whose sprite starts at row 0 and has the full height; so the transport
    has received two messages for each frame that is complete. *)
Theorem one_line_packet_per_frame (lib : ImagingLib) (pk : Packing)
    (w : World) (args : Args) (sched : list Task) :
  let s := run lib pk w sched (initial args) in
  exists grays isbs cur partial,
    frames_of (gets (trace s)) = grays ++ cur
    /\ encodes lib s grays isbs
    /\ sends (trace s) = flat_map (frame_packets pk) isbs ++ partial
    /\ consumer_at lib pk s cur partial
    /\ (forall g b,
          encode lib (self s) (images s) g = Ok b ->
          let img := TxImageSpriteBlock.image b in
          TxSprite.height img = arg_height args
          /\ TxImageSpriteBlock.sprite_line_height b = TxSprite.height img
          /\ TxImageSpriteBlock.progressive_render b = false
          /\ length (TxImageSpriteBlock.sprite_lines b) = 1%nat
          /\ frame_packets pk b =
               [ (ISB_MESSAGE_ID, isb_pack pk b);
                 (ISB_MESSAGE_ID,
                  sprite_pack pk (TxImageSpriteBlock.strip img 0 (TxSprite.height img))) ])
    /\ length (sends (trace s)) = (2 * length isbs + length partial)%nat
    /\ (length partial <= 2)%nat.
Proof.
  intros s. destruct (reachable_inv lib pk w args sched) as [Hself _ _ _ Hc _].
  fold s in Hc, Hself.
  destruct Hc as (grays & isbs & cur & partial & Hgets & Henc & Hsends & Hat).
  exists grays, isbs, cur, partial.
  destruct Hself as (_ & _ & Hheight & _).
  assert (forall g b,
            encode lib (self s) (images s) g = Ok b ->
            frame_packets pk b =
              [ (ISB_MESSAGE_ID, isb_pack pk b);
                (ISB_MESSAGE_ID,
                 sprite_pack pk (TxImageSpriteBlock.strip
                                   (TxImageSpriteBlock.image b) 0
                                   (TxSprite.height (TxImageSpriteBlock.image b)))) ])
    as Hpackets.
  { intros g b Hb. apply encode_block in Hb.
    destruct Hb as (_ & _ & Hh & _ & _ & _ & _ & _ & Hlines).
    unfold frame_packets. by rewrite Hlines, Hh. }
  split_and!; try done.
  - intros g b Hb img. split_and!; [..|by eapply Hpackets].
    all: apply encode_block in Hb;
      destruct Hb as (_ & _ & Hh & _ & _ & _ & Hlh & Hpr & Hlines); subst img.
    + by rewrite Hh.
    + by rewrite Hlh.
    + done.
    + by rewrite Hlines.
  - rewrite Hsends, length_app. f_equal.
    unfold encodes in Henc. clear -Henc Hpackets.
    induction Henc as [|g b gs bs Hgb _ IH]; [done|].
    cbn [flat_map]. rewrite length_app, IH, (Hpackets _ _ Hgb). cbn [length]. lia.
  - destruct (consumer_at_partial _ _ _ _ _ Hat) as [->|(g & b & _ & Hb & Hpre)];
      [cbn; lia|].
    apply prefix_length in Hpre. rewrite (Hpackets _ _ Hb) in Hpre.
    cbn [length] in Hpre. lia.
Qed.

(* ===================================================================== *)
(** ** The producer                                                       *)
(* ===================================================================== *)

Lemma frame_step_of_inv (reported_fps : float) (fps_limit frame_step : Z) :
  frame_step_of reported_fps fps_limit = Ok frame_step ->
  exists ratio n,
    truediv (or_default reported_fps) fps_limit = Ok ratio
    /\ py_round ratio = Ok n
    /\ frame_step = Z.max 1 n.
Proof.
  unfold frame_step_of. intros H.
  destruct (truediv _ _) as [ratio|e]; [|done]. cbn [mbind result_bind] in H.
  destruct (py_round ratio) as [n|e] eqn:Hn; [|done].
  cbn [mbind result_bind] in H.
  injection H as <-. by exists ratio, n.
Qed.

Lemma decimate_spec (stride : Z) (frames : list Mat) (f : Mat) :
  f ∈ decimate stride frames <->
  exists i : nat, frames !! i = Some f /\ Z.of_nat i mod stride = 0.
Proof.
  unfold decimate. rewrite list_elem_of_fmap. split.
  - intros ([i f'] & Hf & Hin). cbn in Hf. subst f'.
    apply list_elem_of_filter in Hin as [Hmod Hin].
    apply list_elem_of_lookup in Hin as [j Hj].
    rewrite list_lookup_imap in Hj.
    destruct (frames !! j) as [x|] eqn:Hx; [|done]. injection Hj as <- <-.
    by exists j.
  - intros (i & Hi & Hmod). exists (i, f). split; [done|].
    apply list_elem_of_filter. split; [done|].
    apply list_elem_of_lookup. exists i. by rewrite list_lookup_imap, Hi.
Qed.

(** C2: when the file opens and the stride computation returns (the target
    rate is not 0 and the reported rate is a number), the stride is
    [max(1, round(R / T))], with [R] the reported rate or 30 when the source
    reports 0.0, [/] Python's true division and [round] Python's [round]
    (ties go to the even integer); and in every state of every run the
    frames put on the queue are the gray versions of exactly the frames of
    index 0, stride, 2*stride, ... among the first [k] frames of the video,
    where [k] counts the frames decoded so far (the frame just decoded may
    still be waiting for its put); once the producer has returned, [k] is
    the number of frames of the video. *)
Theorem producer_decimates (lib : ImagingLib) (pk : Packing) (w : World)
    (args : Args) (sched : list Task) (v : Video) (frame_step : Z) :
  cv_open w (video_file args) = Some v ->
  frame_step_of (video_fps v) (arg_fps args) = Ok frame_step ->
  let s := run lib pk w sched (initial args) in
  (exists ratio n,
     truediv (or_default (video_fps v)) (arg_fps args) = Ok ratio
     /\ py_round ratio = Ok n
     /\ frame_step = Z.max 1 n)
  /\ (float_truthy (video_fps v) = false -> or_default (video_fps v) = PyInt 30)
  /\ (forall fs n, producer s = P_While fs n -> fs = frame_step)
  /\ (forall fs n g, producer s = P_Put fs n g -> fs = frame_step)
  /\ exists k : nat,
       (k <= length (video_frames v))%nat
       /\ (k <= decoded (trace s) <= k + 1)%nat
       /\ converted lib (decimate frame_step (take k (video_frames v)))
                    (frames_of (puts (trace s)))
       /\ (producer s = P_Done ->
           k = length (video_frames v) /\ decoded (trace s) = k).
Proof.
  intros Hopen Hfs s.
  destruct (reachable_inv lib pk w args sched) as [_ _ _ Hp _ _]. fold s in Hp.
  split; [by apply frame_step_of_inv|].
  split; [by unfold or_default; intros ->|].
  unfold producer_ok in Hp.
  destruct (producer s) as [| |fs fn|fs fn g| | |e] eqn:Hpc.
  - destruct Hp as (Hputs & Hdec & _). split_and!; try done.
    exists 0%nat. rewrite Hputs, Hdec, take_0. split_and!; try done; try lia.
    constructor.
  - destruct Hp as (Hputs & Hdec & _). split_and!; try done.
    exists 0%nat. rewrite Hputs, Hdec, take_0. split_and!; try done; try lia.
    constructor.
  - destruct Hp as (v' & grays & n & Hopen' & Hfs' & _ & Hn & Hdec & _ & Hputs
                    & Hconv & _).
    rewrite Hopen in Hopen'. injection Hopen' as <-.
    rewrite Hfs in Hfs'. injection Hfs' as <-.
    split_and!; try done. { by intros ?? [= <- _]. }
    exists n. rewrite Hputs, frames_of_somes. split_and!; try done; lia.
  - destruct Hp as (v' & grays & n & f & Hopen' & Hfs' & _ & Hf & _ & _ & Hdec
                    & _ & Hputs & Hconv & _).
    rewrite Hopen in Hopen'. injection Hopen' as <-.
    rewrite Hfs in Hfs'. injection Hfs' as <-.
    split_and!; try done. { by intros ??? [= <- _ _]. }
    apply lookup_lt_Some in Hf.
    exists n. rewrite Hputs, frames_of_somes. split_and!; try done; lia.
  - destruct Hp as (v' & fs & grays & Hopen' & Hfs' & Hdec & _ & Hputs & Hconv).
    rewrite Hopen in Hopen'. injection Hopen' as <-.
    rewrite Hfs in Hfs'. injection Hfs' as <-.
    split_and!; try done.
    exists (length (video_frames v)).
    rewrite Hputs, frames_of_somes, firstn_all. split_and!; try done; lia.
  - destruct Hp as [(Hnone & _)|(v' & fs & grays & Hopen' & Hfs' & Hdec & _
                                  & Hputs & Hconv)]; [congruence|].
    rewrite Hopen in Hopen'. injection Hopen' as <-.
    rewrite Hfs in Hfs'. injection Hfs' as <-.
    split_and!; try done.
    exists (length (video_frames v)).
    rewrite Hputs, frames_of_app, frames_of_somes, firstn_all.
    cbn. rewrite app_nil_r. split_and!; try done; lia.
  - destruct Hp as (_ & grays & Hputs & Hn). split_and!; try done.
    destruct (Hn v frame_step Hopen Hfs) as (n & ? & ? & ?).
    exists n. rewrite Hputs, frames_of_somes. done.
Qed.

Lemma producer_decimates_witness :
  let w := world_ok (clip 6) in
  let s := run imaging_model packing_model w (round_robin 40) (initial demo_args) in
  frame_step_of fps_30 14 = Ok 2
  /\ producer s = P_Done
  /\ converted imaging_model (decimate 2 (video_frames (clip 6)))
               (frames_of (puts (trace s))).
Proof.
  intros w s.
  pose proof (producer_decimates imaging_model packing_model w demo_args
                (round_robin 40) (clip 6) 2 eq_refl eq_refl) as H.
  cbv zeta in H. fold s in H.
  destruct H as (_ & _ & _ & _ & k & _ & _ & Hconv & Hdone).
  assert (producer s = P_Done) as Hp by (vm_compute; reflexivity).
  destruct (Hdone Hp) as [-> _].
  rewrite firstn_all in Hconv. split_and!; [vm_compute; reflexivity|done|done].
Defined.

(** C6, as the code has it: when its loop ends the producer goes on to
    [await queue.put(None)] and raises nothing, and the marker is enqueued
    when that put completes: at once when the queue has room, and not while
    it is full.  In every state of every run the items put are frames,
    followed by the marker exactly when the producer has returned after
    its loop, so nothing follows the marker and a producer that ended with
    an exception (its own, or the cancellation that reaches it while it
    waits for room) has put no marker.  While the producer is in its loop
    the running flag is up, so the loop ends only with [ret] false (end of
    the source or a read that failed).  The producer is never stuck except
    in a put on a full queue, and once it has returned or raised it makes
    no further step. *)
Theorem marker_follows_the_loop (lib : ImagingLib) (pk : Packing)
    (w : World) (args : Args) (sched : list Task) :
  let s := run lib pk w sched (initial args) in
  (exists grays,
     (puts (trace s) = map Some grays /\ None ∉ puts (trace s))
     \/ (puts (trace s) = map Some grays ++ [None] /\ producer s = P_Done))
  /\ (forall e, producer s = P_Raised e -> None ∉ puts (trace s))
  /\ (forall fs n,
        producer s = P_While fs n ->
        FinalStreamer.running (self s) = true
        /\ exists s', step_producer lib w s = Some s'
                      /\ (producer s' = P_PutNone <-> cap_frames (cap s) = [])
                      /\ (producer s' = P_PutNone ->
                          puts (trace s') = puts (trace s)))
  /\ (producer s = P_PutNone ->
        (queue_full (queue s) = true /\ step_producer lib w s = None)
        \/ (queue_full (queue s) = false
            /\ exists s', step_producer lib w s = Some s'
                          /\ producer s' = P_Done
                          /\ queue s' = queue s ++ [None]
                          /\ puts (trace s') = puts (trace s) ++ [None]))
  /\ (step_producer lib w s = None ->
        producer s = P_NotCreated \/ producer s = P_Done
        \/ (exists e, producer s = P_Raised e)
        \/ (queue_full (queue s) = true
            /\ (producer s = P_PutNone
                \/ exists fs n g, producer s = P_Put fs n g)))
  /\ (producer s = P_Done \/ (exists e, producer s = P_Raised e) ->
      step_producer lib w s = None).
Proof.
  intros s.
  destruct (reachable_inv lib pk w args sched) as [_ _ _ Hp _ _]. fold s in Hp.
  assert (forall grays : list Mat, None ∉ map Some grays) as Hno.
  { intros grays Hin. apply list_elem_of_fmap in Hin as (? & ? & _). done. }
  split_and!.
  - unfold producer_ok in Hp.
    destruct (producer s) as [| |fs fn|fs fn g| | |e].
    + destruct Hp as (-> & _). exists []. left. split; [done|]. apply (Hno []).
    + destruct Hp as (-> & _). exists []. left. split; [done|]. apply (Hno []).
    + destruct Hp as (v & grays & n & _ & _ & _ & _ & _ & _ & -> & _).
      exists grays. by left.
    + destruct Hp as (v & grays & n & f & _ & _ & _ & _ & _ & _ & _ & _ & -> & _).
      exists grays. by left.
    + destruct Hp as (v & fs & grays & _ & _ & _ & _ & -> & _).
      exists grays. by left.
    + destruct Hp as [(_ & -> & _)|(v & fs & grays & _ & _ & _ & _ & -> & _)].
      * exists []. left. split; [done|]. apply (Hno []).
      * exists grays. by right.
    + destruct Hp as (_ & grays & -> & _). exists grays. by left.
  - intros e Hpc. unfold producer_ok in Hp. rewrite Hpc in Hp.
    destruct Hp as (_ & grays & -> & _). apply Hno.
  - intros fs n Hpc. unfold producer_ok in Hp. rewrite Hpc in Hp.
    destruct Hp as (v & grays & k & _ & _ & _ & _ & _ & _ & _ & _ & Hrun).
    split; [done|]. unfold step_producer. rewrite Hpc, Hrun.
    destruct (cap_frames (cap s)) as [|f rest].
    + eexists. split; [done|]. trace_simpl. done.
    + destruct (n mod fs =? 0); [destruct (cvtColor_BGR2GRAY lib f)|];
        (eexists; split; [done|]); trace_simpl; done.
  - intros Hpc. unfold step_producer. rewrite Hpc.
    destruct (queue_full (queue s)); [by left|right]. split; [done|].
    eexists. split; [done|]. trace_simpl. done.
  - unfold step_producer.
    destruct (producer s) as [| |fs fn|fs fn g| | |e].
    + by left.
    + by repeat case_match.
    + by repeat case_match.
    + destruct (queue_full (queue s)); [|done]. intros _.
      right; right; right. split; [done|]. right. by exists fs, fn, g.
    + destruct (queue_full (queue s)); [|done]. intros _.
      right; right; right. split; [done|]. by left.
    + by right; left.
    + right; right; left. by exists e.
  - unfold step_producer. by intros [-> |[e ->]].
Qed.

(** C7, as the code has it: the capture is marked released exactly when the
    producer has returned after its loop (the release follows the put of
    the marker); while the producer is in its loop or waits to put the
    marker, the capture is open and not released; a producer that ends with
    an exception, or whose file did not open, never calls [release]. *)
Theorem capture_released_after_loop (lib : ImagingLib) (pk : Packing)
    (w : World) (args : Args) (sched : list Task) :
  let s := run lib pk w sched (initial args) in
  (cap_released (cap s) = true <->
     producer s = P_Done /\ cv_open w (video_file args) <> None)
  /\ (forall fs n, producer s = P_While fs n ->
        cap_opened (cap s) = true /\ cap_released (cap s) = false)
  /\ (forall fs n g, producer s = P_Put fs n g ->
        cap_opened (cap s) = true /\ cap_released (cap s) = false)
  /\ (producer s = P_PutNone ->
        cap_opened (cap s) = true /\ cap_released (cap s) = false)
  /\ (forall e, producer s = P_Raised e -> cap_released (cap s) = false).
Proof.
  intros s.
  destruct (reachable_inv lib pk w args sched) as [_ _ _ Hp _ _]. fold s in Hp.
  unfold producer_ok in Hp.
  destruct (producer s) as [| |fs fn|fs fn g| | |e].
  - destruct Hp as (_ & _ & ->). split_and!; try done. split; [done|by intros []].
  - destruct Hp as (_ & _ & -> & _). split_and!; try done.
    split; [done|by intros []].
  - destruct Hp as (v & grays & n & _ & _ & _ & _ & _ & -> & _).
    split_and!; try done. split; [done|by intros []].
  - destruct Hp as (v & grays & n & f & _ & _ & _ & _ & _ & _ & _ & -> & _).
    split_and!; try done. split; [done|by intros []].
  - destruct Hp as (v & fs & grays & _ & _ & _ & -> & _).
    split_and!; try done. split; [done|by intros []].
  - destruct Hp as [(Hnone & _ & _ & ->)|(v & fs & grays & Hopen & _ & _ & -> & _)].
    + split_and!; try done. split; [done|]. by intros [_ ?].
    + split_and!; try done. split; [|done]. intros _. split; [done|congruence].
  - destruct Hp as (Hrel & _). split_and!; try done.
    rewrite Hrel. split; [done|by intros []].
Qed.

(** C8: the palette has 4 entries of 3 components, 12 bytes in all; in every
    state of every run the streamer holds these bytes and a reference to
    the palette object built from them in [__init__]; the store holds that
    object unchanged; the only palette constructions in the whole trace are
    the two calls of [__init__]; and every quantisation is given that
    reference. *)
Theorem palette_built_once (lib : ImagingLib) (pk : Packing)
    (w : World) (args : Args) (sched : list Task) :
  let s := run lib pk w sched (initial args) in
  length FIXED_PALETTE_4_COLORS = 4%nat
  /\ Forall (fun entry => length entry = 3%nat) FIXED_PALETTE_4_COLORS
  /\ FinalStreamer.palette_bytes (self s) =
       [0; 0; 0; 85; 85; 85; 170; 170; 170; 255; 255; 255]
  /\ FinalStreamer.palette_bytes (self s) =
       FinalStreamer.palette_bytes (self (initial args))
  /\ FinalStreamer.palette_image (self s) =
       FinalStreamer.palette_image (self (initial args))
  /\ images s = images (initial args)
  /\ images s !! FinalStreamer.palette_image (self s) =
       Some (putpalette Image_new_P_1x1 (FinalStreamer.palette_bytes (self s)))
  /\ palette_builds (trace s) = palette_builds (trace (initial args))
  /\ palette_builds (trace (initial args)) =
       [FinalStreamer.palette_image (self s); FinalStreamer.palette_image (self s)]
  /\ Forall (fun r => r = FinalStreamer.palette_image (self s))
            (quantize_calls (trace s)).
Proof.
  intros s.
  destruct (reachable_inv lib pk w args sched) as [Hself Hpal _ _ _ _].
  fold s in Hself, Hpal.
  destruct Hself as (_ & _ & _ & _ & Hbytes & Href & Himgs).
  destruct Hpal as [Hbuilds Hq].
  rewrite Hbytes, Href, Himgs, Hbuilds.
  split_and!; try done.
  by repeat constructor.
Qed.

(** C9: the queue is created with capacity 4 and is first-in first-out; in
    every state of every run it holds at most 4 items and the producer
    holds at most 5 frames (those queued and the one it is about to put);
    with the queue full neither put of the producer can move; and when the
    consumer then takes an item, the put can. *)
Theorem queue_back_pressure (lib : ImagingLib) (pk : Packing)
    (w : World) (args : Args) (sched : list Task) :
  let s := run lib pk w sched (initial args) in
  QUEUE_MAXSIZE = 4
  /\ puts (trace s) = gets (trace s) ++ queue s
  /\ Z.of_nat (length (queue s)) <= QUEUE_MAXSIZE
  /\ Z.of_nat (in_flight s) <= QUEUE_MAXSIZE + 1
  /\ (queue_full (queue s) = true ->
        (forall fs n g, producer s = P_Put fs n g -> step_producer lib w s = None)
        /\ (producer s = P_PutNone -> step_producer lib w s = None))
  /\ (forall s',
        queue_full (queue s) = true ->
        consumer s = C_Get ->
        step_consumer lib pk w s = Some s' ->
        (length (queue s') < length (queue s))%nat
        /\ producer s' = producer s
        /\ ((exists fs n g, producer s = P_Put fs n g) \/ producer s = P_PutNone ->
            is_Some (step_producer lib w s'))).
Proof.
  intros s.
  destruct (reachable_inv lib pk w args sched) as [_ _ Hq _ _ _]. fold s in Hq.
  destruct Hq as [Hfifo Hlen]. unfold QUEUE_MAXSIZE in *.
  split_and!; try done.
  - unfold in_flight. destruct (producer s); lia.
  - intros Hfull. split.
    + intros fs n g Hpc. unfold step_producer. by rewrite Hpc, Hfull.
    + intros Hpc. unfold step_producer. by rewrite Hpc, Hfull.
  - intros s' Hfull Hpc Hstep. unfold step_consumer in Hstep. rewrite Hpc in Hstep.
    destruct (queue s) as [|item rest] eqn:Hqueue; [done|].
    cbn [length] in Hlen.
    assert (queue s' = rest /\ producer s' = producer s) as [Hq' Hp'].
    { repeat (case_match; simplify_eq); trace_simpl; done. }
    rewrite Hq', Hp'. cbn [length]. split_and!; [lia|done|].
    assert (queue_full rest = false) as Hroom.
    { unfold queue_full, QUEUE_MAXSIZE. apply Z.leb_gt. lia. }
    intros [(fs & n & g & Hput)|Hput]; unfold step_producer;
      rewrite Hp', Hput, Hq', Hroom; done.
Qed.

(* ===================================================================== *)
(** ** Quantisation, encoding failures, start-up failures                 *)
(* ===================================================================== *)

Lemma length_resize_indices (sw sh w h : nat) :
  length (resize_indices sw sh w h) = (h * w)%nat.
Proof.
  unfold resize_indices.
  assert (forall (ys : list nat) (f : nat -> list nat) (n : nat),
            (forall y, length (f y) = n) ->
            length (ys ≫= f) = (length ys * n)%nat) as Hbind.
  { intros ys f n Hf. induction ys as [|y ys IH]; [done|].
    rewrite bind_cons, length_app, Hf, IH. cbn [length]. lia. }
  rewrite (Hbind _ _ w), length_seq; [done|].
  intros y. rewrite (Hbind _ _ 1%nat), length_seq; [lia|done].
Qed.

(** With the imaging model, the sprite that [encode] builds has one index
    per pixel of the target size, each between 0 and 3. *)
Lemma encode_model_pixels (st : FinalStreamer.t) (imgs : list PILImage)
    (g : Mat) (b : TxImageSpriteBlock.t) :
  nth (FinalStreamer.palette_image st) imgs Image_new_P_1x1 = palette_object ->
  encode imaging_model st imgs g = Ok b ->
  Forall (fun i => 0 <= i <= 3) (TxSprite.pixel_data (TxImageSpriteBlock.image b))
  /\ Z.of_nat (length (TxSprite.pixel_data (TxImageSpriteBlock.image b)))
     = FinalStreamer.width st * FinalStreamer.height st.
Proof.
  intros Hpal.
  unfold encode, to_rgb, to_block, TxImageSpriteBlock.init. rewrite Hpal.
  cbn [imaging_model Image_fromarray Image_resize_NEAREST Image_convert_RGB
       Image_quantize Image_tobytes].
  destruct (model_fromarray g) as [img0|e]; [|done]. cbn [mbind result_bind].
  unfold model_resize.
  destruct ((FinalStreamer.width st <? 1) || (FinalStreamer.height st <? 1))
    eqn:Hsize; [done|].
  apply orb_false_elim in Hsize as [Hw Hh].
  apply Z.ltb_ge in Hw, Hh.
  cbn [mbind result_bind model_convert_RGB im_width im_height im_data].
  set (idx := resize_indices _ _ _ _).
  assert (length idx = (Z.to_nat (FinalStreamer.height st)
                        * Z.to_nat (FinalStreamer.width st))%nat) as Hidx
    by apply length_resize_indices.
  assert (forall px : list RGB,
            length px = length idx ->
            Forall (fun i => 0 <= i <= 3) (map (nearest fixed_entries) px)
            /\ Z.of_nat (length (map (nearest fixed_entries) px))
               = FinalStreamer.width st * FinalStreamer.height st) as Hpx.
  { intros px Hlen. split.
    - apply Forall_forall. intros i Hi.
      apply list_elem_of_fmap in Hi as (p & -> & _). apply nearest_fixed_range.
    - rewrite length_map, Hlen, Hidx. lia. }
  destruct (FinalStreamer.height st =? 0) eqn:Hz;
    [apply Z.eqb_eq in Hz; lia|].
  destruct (im_data img0) as [px|px|px pal];
    cbn [model_quantize palette_object im_data im_width im_height
         mbind result_bind model_tobytes TxSprite.height];
    (destruct (negb _); [done|]);
    rewrite Hz; intros [= <-];
    cbn [TxImageSpriteBlock.image TxSprite.pixel_data];
    apply Hpx; unfold pick; by rewrite !length_map.
Qed.

(** C3: for every image, quantisation against the streamer's palette
    returns a palette image of the same size whose pixels are indices
    between 0 and 3; index [i] stands for the gray level [85 * i], one of
    0, 85, 170 and 255; and quantising that result again, which first maps
    every index back to its palette colour, returns the same image.  In the
    pipeline, every sprite that the consumer builds from a gray frame
    carries one such index for each pixel of the target size. *)
Theorem quantization_indices_idempotent (img : PILImage) (pk : Packing)
    (w : World) (args : Args) (sched : list Task) (g : Mat)
    (b : TxImageSpriteBlock.t) :
  (exists q px,
     quantization_step imaging_model img = Ok q
     /\ im_width q = im_width img /\ im_height q = im_height img
     /\ im_data q = DataP px fixed_entries
     /\ Image_tobytes imaging_model q = px
     /\ Forall (fun i => 0 <= i <= 3
                         /\ palette_lookup fixed_entries i = (85 * i, 85 * i, 85 * i)
                         /\ In (85 * i) [0; 85; 170; 255]) px
     /\ quantization_step imaging_model q = Ok q)
  /\ (let s := run imaging_model pk w sched (initial args) in
      encode imaging_model (self s) (images s) g = Ok b ->
      Forall (fun i => 0 <= i <= 3)
             (TxSprite.pixel_data (TxImageSpriteBlock.image b))
      /\ Z.of_nat (length (TxSprite.pixel_data (TxImageSpriteBlock.image b)))
         = arg_width args * arg_height args).
Proof.
  split.
  2: { intros s Hb.
       destruct (reachable_inv imaging_model pk w args sched) as [Hself _ _ _ _ _].
       fold s in Hself.
       destruct Hself as (_ & Hw & Hh & _ & _ & Href & Himgs).
       rewrite <- Hw, <- Hh. eapply encode_model_pixels; [|exact Hb].
       by rewrite Href, Himgs. }
  assert (forall pxs : list RGB,
            Forall (fun i => 0 <= i <= 3) (map (nearest fixed_entries) pxs))
    as Hrange.
  { intros pxs. apply Forall_forall. intros i Hi.
    apply list_elem_of_fmap in Hi as (p & -> & _). apply nearest_fixed_range. }
  assert (forall px : list Z,
            Forall (fun i => 0 <= i <= 3) px ->
            Forall (fun i => 0 <= i <= 3
                        /\ palette_lookup fixed_entries i = (85 * i, 85 * i, 85 * i)
                        /\ In (85 * i) [0; 85; 170; 255]) px) as Hlevels.
  { intros px Hpx. eapply Forall_impl; [exact Hpx|]. intros i Hi.
    cbn beta in Hi.
    split; [done|]. split; [by apply fixed_entries_level|].
    assert (i = 0 \/ i = 1 \/ i = 2 \/ i = 3) as [->|[->|[->| ->]]] by lia;
      cbn; tauto. }
  destruct img as [wd ht [px|px|px pal]];
    unfold quantization_step; cbn.
  - eexists _, (map (nearest fixed_entries) (map (fun v => (v, v, v)) px)).
    split_and!; try reflexivity.
    + apply Hlevels, Hrange.
    + cbn. by rewrite requantize_indices by apply Hrange.
  - eexists _, (map (nearest fixed_entries) px).
    split_and!; try reflexivity.
    + apply Hlevels, Hrange.
    + cbn. by rewrite requantize_indices by apply Hrange.
  - eexists _, (map (nearest fixed_entries) (map (palette_lookup pal) px)).
    split_and!; try reflexivity.
    + apply Hlevels, Hrange.
    + cbn. by rewrite requantize_indices by apply Hrange.
Qed.

(** What the block constructor's check means for [encode]: a block that
    [encode] returns carries exactly width x height pixel bytes, those of the
    quantised image; and when the quantised image has another number of
    bytes, [encode] raises [ValueError]. *)
Lemma encode_pixel_count (lib : ImagingLib) (st : FinalStreamer.t)
    (imgs : list PILImage) (g : Mat) :
  (forall b,
     encode lib st imgs g = Ok b ->
     Z.of_nat (length (TxSprite.pixel_data (TxImageSpriteBlock.image b)))
     = FinalStreamer.width st * FinalStreamer.height st)
  /\ (forall rgb q,
        to_rgb lib st g = Ok rgb ->
        Image_quantize lib rgb
          (nth (FinalStreamer.palette_image st) imgs Image_new_P_1x1) = Ok q ->
        (Z.of_nat (length (Image_tobytes lib q))
         <> FinalStreamer.width st * FinalStreamer.height st ->
         encode lib st imgs g = Raise ValueError)
        /\ (forall b, encode lib st imgs g = Ok b ->
             TxSprite.pixel_data (TxImageSpriteBlock.image b)
             = Image_tobytes lib q)).
Proof.
  unfold encode, to_block, TxImageSpriteBlock.init. split.
  - intros b.
    destruct (to_rgb lib st g) as [rgb|e]; [|done]. cbn [mbind result_bind].
    destruct (Image_quantize lib rgb _) as [q|e]; [|done].
    cbn [mbind result_bind TxSprite.height TxSprite.width TxSprite.pixel_data].
    destruct (_ =? _) eqn:Hcount; [|done]. apply Z.eqb_eq in Hcount.
    cbn [negb]. destruct (FinalStreamer.height st =? 0); [done|].
    by intros [= <-].
  - intros rgb q -> Hq. cbn [mbind result_bind]. rewrite Hq.
    cbn [mbind result_bind TxSprite.height TxSprite.width TxSprite.pixel_data].
    split.
    + intros Hcount. apply Z.eqb_neq in Hcount. by rewrite Hcount.
    + intros b. destruct (negb _); [done|].
      destruct (FinalStreamer.height st =? 0); [done|]. by intros [= <-].
Qed.

(** C4: the encode step checks the pixel count before anything is packed.
    In every state of every run: when the quantised image of a frame does
    not serialise to width x height bytes, [encode] fails with [ValueError]
    (the spec's [EncodingError]); every block that [encode] returns carries
    exactly width x height pixel bytes; a consumer that takes a frame whose
    encoding fails ends with that exception and sends nothing for the
    frame; and every message sent so far belongs to a block with a
    consistent pixel count. *)
Theorem encode_checks_pixel_count (lib : ImagingLib) (pk : Packing)
    (w : World) (args : Args) (sched : list Task) :
  let s := run lib pk w sched (initial args) in
  (forall g rgb q,
     to_rgb lib (self s) g = Ok rgb ->
     Image_quantize lib rgb
       (nth (FinalStreamer.palette_image (self s)) (images s) Image_new_P_1x1)
     = Ok q ->
     Z.of_nat (length (Image_tobytes lib q)) <> arg_width args * arg_height args ->
     encode lib (self s) (images s) g = Raise ValueError)
  /\ (forall g b,
        encode lib (self s) (images s) g = Ok b ->
        Z.of_nat (length (TxSprite.pixel_data (TxImageSpriteBlock.image b)))
        = arg_width args * arg_height args)
  /\ (forall g rest e,
        consumer s = C_Get -> queue s = Some g :: rest ->
        encode lib (self s) (images s) g = Raise e ->
        exists s',
          step_consumer lib pk w s = Some s'
          /\ consumer s' = C_Raised e
          /\ sends (trace s') = sends (trace s))
  /\ (exists isbs partial,
        sends (trace s) = flat_map (frame_packets pk) isbs ++ partial
        /\ Forall (fun b =>
                     Z.of_nat (length (TxSprite.pixel_data
                                         (TxImageSpriteBlock.image b)))
                     = arg_width args * arg_height args) isbs
        /\ (partial = []
            \/ exists b,
                 partial `prefix_of` frame_packets pk b
                 /\ Z.of_nat (length (TxSprite.pixel_data
                                        (TxImageSpriteBlock.image b)))
                    = arg_width args * arg_height args)).
Proof.
  intros s.
  destruct (reachable_inv lib pk w args sched) as [Hself _ _ _ Hc _].
  fold s in Hself, Hc.
  destruct Hself as (_ & Hw & Hh & _).
  assert (forall g b,
            encode lib (self s) (images s) g = Ok b ->
            Z.of_nat (length (TxSprite.pixel_data (TxImageSpriteBlock.image b)))
            = arg_width args * arg_height args) as Hcount.
  { intros g b Hb. rewrite <- Hw, <- Hh.
    by apply (proj1 (encode_pixel_count lib (self s) (images s) g)). }
  split_and!.
  - intros g rgb q Hrgb Hq Hbad. rewrite <- Hw, <- Hh in Hbad.
    by apply (proj2 (encode_pixel_count lib (self s) (images s) g) rgb q).
  - exact Hcount.
  - intros g rest e Hpc Hqueue Hraise.
    unfold step_consumer. rewrite Hpc, Hqueue.
    unfold encode in Hraise.
    destruct (to_rgb lib (self s) g) as [rgb|e'] eqn:Hrgb.
    + cbn [mbind result_bind] in Hraise. rewrite Hraise.
      eexists. split; [reflexivity|]. trace_simpl. done.
    + injection Hraise as ->.
      eexists. split; [reflexivity|]. trace_simpl. done.
  - destruct Hc as (grays & isbs & cur & partial & _ & Henc & Hsends & Hat).
    exists isbs, partial. split_and!; [done| |].
    + clear Hsends. induction Henc as [|g b grays isbs Hb _ IH]; [done|].
      constructor; [by eapply Hcount|done].
    + destruct (consumer_at_partial lib pk s cur partial Hat)
        as [->|(g & b & _ & Hb & Hpre)]; [by left|right].
      exists b. split; [done|]. by eapply Hcount.
Qed.

Section Startup.

Context (lib : ImagingLib) (pk : Packing) (w : World) (args : Args).

Lemma step_trace_grows (t : Task) (s s' : State) :
  step lib pk w t s = Some s' -> exists evs, trace s' = trace s ++ evs.
Proof.
  destruct t; cbn [step]; unfold step_main, step_producer, step_consumer,
    send_message; intros H;
    repeat (case_match; simplify_eq); trace_simpl; eexists;
    first [ symmetry; apply app_nil_r | reflexivity
          | rewrite <- app_assoc; reflexivity ].
Qed.

Lemma step_startup (t : Task) (s s' : State) :
  step lib pk w t s = Some s' -> startup_ok s -> startup_ok s'.
Proof.
  intros Hstep (Hnone & Hsome & Hup & Hspawn).
  pose proof (step_trace_grows _ _ _ Hstep) as [evs Hevs].
  assert (forall e, e ∈ trace s -> e ∈ trace s') as Hmono.
  { intros e He. rewrite Hevs. apply elem_of_app. by left. }
  unfold startup_ok.
  destruct t; cbn [step] in Hstep.
  - (* Main *)
    unfold step_main in Hstep.
    assert (producer s' = P_NotCreated -> producer s = P_NotCreated) as Hback.
    { repeat (case_match; simplify_eq); trace_simpl; try done.
      all: destruct (producer s); done. }
    assert (forall path ok, EvCapOpen path ok ∈ trace s' ->
                            EvCapOpen path ok ∈ trace s) as Hev.
    { repeat (case_match; simplify_eq); trace_simpl; try done.
      all: intros path ok [?|Hin]%elem_of_app; [done|].
      all: by apply list_elem_of_singleton in Hin. }
    split_and!.
    + intros E path ok Hin. eapply Hnone; [by apply Hback|]. by apply Hev.
    + intros Hnc.
      assert (producer s = P_NotCreated \/ producer s <> P_NotCreated)
        as [E|E] by (destruct (producer s); auto).
      * assert (main_pc s = M_Spawn) as Hpc.
        { repeat (case_match; simplify_eq); trace_simpl; try done.
          all: by rewrite E in Hnc. }
        destruct (Hspawn Hpc). auto.
      * destruct (Hsome E). auto.
    + intros Hpc'.
      repeat (case_match; simplify_eq); trace_simpl; try done.
      apply elem_of_app. right. by apply list_elem_of_singleton.
    + intros Hpc'.
      repeat (case_match; simplify_eq); trace_simpl; try done.
      split; apply elem_of_app; [left; by apply Hup|right].
      by apply list_elem_of_singleton.
  - (* Producer *)
    assert (producer s <> P_NotCreated) as Hnc.
    { intros E. unfold step_producer in Hstep. by rewrite E in Hstep. }
    assert (producer s' <> P_NotCreated /\ main_pc s' = main_pc s) as [Hnc' Hpc'].
    { unfold step_producer in Hstep.
      repeat (case_match; simplify_eq); trace_simpl; done. }
    rewrite Hpc'. destruct (Hsome Hnc) as [? ?].
    split_and!; [done|auto..].
  - (* Consumer *)
    assert (producer s' = producer s /\ main_pc s' = main_pc s
            /\ forall path ok, EvCapOpen path ok ∈ trace s' ->
                               EvCapOpen path ok ∈ trace s) as (Hp' & Hpc' & Hev).
    { unfold step_consumer, send_message in Hstep.
      repeat (case_match; simplify_eq); trace_simpl; split_and!; try done.
      all: intros path ok Hin.
      all: rewrite ?elem_of_app, ?list_elem_of_singleton in Hin.
      all: by destruct_or!. }
    rewrite Hp', Hpc'. split_and!.
    + intros E path ok Hin. eapply Hnone; [done|]. by apply Hev.
    + intros E. destruct (Hsome E). auto.
    + auto.
    + intros E. destruct (Hspawn E). auto.
Qed.

Lemma step_no_video (t : Task) (s s' : State) :
  step lib pk w t s = Some s' -> self_ok args s ->
  no_video_ok w args s -> no_video_ok w args s'.
Proof.
  unfold no_video_ok. intros Hstep Hself Hs Hnone.
  destruct (Hs Hnone) as [Hputs Hpc]. clear Hs.
  destruct Hself as (Hpath & _).
  destruct t; cbn [step] in Hstep.
  - assert (puts (trace s') = puts (trace s)
            /\ (producer s' = producer s \/ producer s' = P_Start
                \/ producer s' = cancel_producer (producer s))) as [-> Hp'].
    { clear Hpc. unfold step_main in Hstep.
      repeat (case_match; simplify_eq); trace_simpl; auto. }
    split; [done|].
    destruct Hp' as [->|[->| ->]]; [done|done|].
    by destruct (producer s).
  - unfold step_producer in Hstep. rewrite Hpath, Hnone in Hstep.
    destruct (producer s); try done.
    inv_step. trace_simpl. done.
  - assert (puts (trace s') = puts (trace s) /\ producer s' = producer s)
      as [-> ->]; [|done].
    clear Hpc. unfold step_consumer, send_message in Hstep.
    repeat (case_match; simplify_eq); trace_simpl; done.
Qed.

Lemma run_startup (sched : list Task) :
  forall s,
    Inv lib pk w args s -> startup_ok s /\ no_video_ok w args s ->
    let s' := run lib pk w sched s in
    startup_ok s' /\ no_video_ok w args s'.
Proof.
  induction sched as [|t sched IH]; intros s Hinv [H1 H2];
    cbn [run fold_left]; [done|].
  unfold sched_step.
  destruct (step lib pk w t s) as [s1|] eqn:Hstep; [|by apply IH].
  apply IH.
  - by eapply step_inv.
  - split; [by eapply step_startup|].
    eapply step_no_video; [done| |done]. apply Hinv.
Qed.

Lemma reachable_startup (sched : list Task) :
  let s := run lib pk w sched (initial args) in
  startup_ok s /\ no_video_ok w args s.
Proof.
  apply run_startup; [apply initial_inv|].
  split.
  - unfold startup_ok. cbn. split_and!; try done.
    intros _ path ok Hin.
    rewrite !elem_of_cons, elem_of_nil in Hin. by destruct_or!.
  - intros _. by split.
Qed.

End Startup.

Section StartupFailures.

Context (lib : ImagingLib) (pk : Packing) (w : World) (args : Args).

Lemma no_video_no_sends (sched : list Task) :
  cv_open w (video_file args) = None ->
  let s := run lib pk w sched (initial args) in
  puts (trace s) = [] /\ gets (trace s) = [] /\ sends (trace s) = [].
Proof.
  intros Hnone s.
  destruct (reachable_startup lib pk w args sched) as [_ Hnv].
  destruct (reachable_inv lib pk w args sched) as [_ _ Hq _ Hc _].
  fold s in Hnv, Hq, Hc.
  destruct (Hnv Hnone) as [Hputs _]. destruct Hq as [Hfifo _].
  rewrite Hputs in Hfifo. symmetry in Hfifo.
  apply app_eq_nil in Hfifo as [Hgets _].
  split_and!; try done.
  destruct Hc as (grays & isbs & cur & partial & Hg & Henc & Hsends & Hat).
  rewrite Hgets in Hg. cbn in Hg. symmetry in Hg.
  apply app_eq_nil in Hg as [-> ->].
  apply Forall2_nil_inv_l in Henc as ->.
  destruct (consumer_at_partial _ _ _ _ _ Hat) as [->|(g & b & ? & _)];
    [done|congruence].
Qed.

Lemma exit_code_values (sched : list Task) (code : Z) :
  exit_code (run lib pk w sched (initial args)) = Some code ->
  code = 0 \/ (code = 1 /\ tr_disconnect_ok w = false).
Proof.
  destruct (reachable_inv lib pk w args sched) as [_ _ _ _ _ Hm].
  unfold exit_code, main_ok in *.
  destruct (main_pc _); try done. by intros [= <-].
Qed.

Lemma run_cons (t : Task) (sched : list Task) (s : State) :
  run lib pk w (t :: sched) s = run lib pk w sched (sched_step lib pk w s t).
Proof. reflexivity. Qed.

Lemma open_failure_run_ends :
  video_file args <> ""%string ->
  fs_is_file w (video_file args) = true ->
  cv_open w (video_file args) = None ->
  is_Some (process_exit lib pk w args open_failure_schedule).
Proof.
  intros Hpath Hfile Hnone. unfold process_exit.
  apply String.eqb_neq in Hpath. rewrite Hpath, Hfile. cbn [orb negb].
  unfold open_failure_schedule.
  destruct (tr_connect_ok w) eqn:Hc, (tr_upload_ok w) eqn:Hu,
           (tr_is_connected w) eqn:Hi, (tr_disconnect_ok w) eqn:Hd.
  all: repeat (rewrite run_cons;
               unfold sched_step, step, step_main, step_producer, step_consumer;
               cbn -[run]; rewrite ?Hc, ?Hu, ?Hi, ?Hd, ?Hnone; cbn -[run]).
  all: by eexists.
Qed.

End StartupFailures.

(** C5, as the code has it: a path that is empty or not a regular file ends
    the process with status 1 before [stream] is entered.  A file that
    exists but does not open as a video is noticed by the producer task
    only, hence after the transport was connected and the app uploaded;
    nothing is then put on the queue or sent, and the process ends with
    status 0, or with status 1 when the final disconnect itself raises;
    with the tasks taken in the order of the event loop it does end. *)
Theorem startup_failures (lib : ImagingLib) (pk : Packing) (w : World)
    (args : Args) :
  ((video_file args = ""%string \/ fs_is_file w (video_file args) = false) ->
   forall sched, process_exit lib pk w args sched = Some 1)
  /\ (video_file args <> ""%string ->
      fs_is_file w (video_file args) = true ->
      cv_open w (video_file args) = None ->
      (forall sched,
         let s := run lib pk w sched (initial args) in
         puts (trace s) = [] /\ sends (trace s) = []
         /\ (forall path ok,
               EvCapOpen path ok ∈ trace s ->
               EvConnect true ∈ trace s /\ EvUploadApp true ∈ trace s)
         /\ (forall code,
               process_exit lib pk w args sched = Some code ->
               code = 0 \/ (code = 1 /\ tr_disconnect_ok w = false)))
      /\ is_Some (process_exit lib pk w args open_failure_schedule)).
Proof.
  split.
  - intros Hbad sched. unfold process_exit.
    destruct Hbad as [-> | ->]; [done|]. by rewrite orb_true_r.
  - intros Hpath Hfile Hnone. split; [|by apply open_failure_run_ends].
    intros sched s.
    destruct (no_video_no_sends lib pk w args sched Hnone) as (Hputs & _ & Hsends).
    destruct (reachable_startup lib pk w args sched) as [(Hnc & Hc & _) _].
    fold s in Hputs, Hsends, Hnc, Hc.
    split_and!; try done.
    + intros path ok Hin. apply Hc. intros E. by eapply Hnc.
    + intros code. unfold process_exit.
      apply String.eqb_neq in Hpath. rewrite Hpath, Hfile. cbn [orb negb].
      apply exit_code_values.
Qed.

Lemma startup_failures_witness :
  process_exit imaging_model packing_model world_no_file demo_args [] = Some 1
  /\ process_exit imaging_model packing_model world_not_a_video demo_args
                  open_failure_schedule = Some 0.
Proof.
  destruct (startup_failures imaging_model packing_model world_no_file demo_args)
    as [Hmissing _].
  destruct (startup_failures imaging_model packing_model world_not_a_video demo_args)
    as [_ Hopen].
  split.
  - apply Hmissing. right. reflexivity.
  - destruct (Hopen ltac:(discriminate) eq_refl eq_refl) as [Hall [code Hcode]].
    destruct (Hall open_failure_schedule) as (_ & _ & _ & Hvalues).
    destruct (Hvalues code Hcode) as [-> | [_ Hdis]]; [exact Hcode|].
    discriminate Hdis.
Defined.

(** Counterexample to C5 as stated: the file exists, OpenCV cannot open it,
    and the process ends with status 0 after having connected and uploaded
    the app. *)
Lemma open_failure_exits_with_0 :
  let s := run imaging_model packing_model world_not_a_video
               open_failure_schedule (initial demo_args) in
  fs_is_file world_not_a_video (video_file demo_args) = true
  /\ cv_open world_not_a_video (video_file demo_args) = None
  /\ process_exit imaging_model packing_model world_not_a_video demo_args
                  open_failure_schedule = Some 0
  /\ trace s =
       [ EvImageNew 0;
         EvPutPalette 0 [0; 0; 0; 85; 85; 85; 170; 170; 170; 255; 255; 255];
         EvConnect true; EvUploadApp true;
         EvCapOpen "clip.mp4" false; EvDisconnect true ].
Proof. cbv zeta. split_and!; vm_compute; reflexivity. Qed.

(** Counterexample to C6 as stated: the link drops at the first send while
    the producer still reads.  The producer reads the ten frames to the end,
    so its loop ends by exhaustion, and it waits to put the marker on the
    full queue; [stream] has caught the consumer's exception by then, and
    the producer is cancelled: it ends by an exception, and the five items
    it has put are all frames: no marker is ever enqueued. *)
Lemma marker_not_put_when_link_drops :
  let before := run imaging_model packing_model (world_link_down (clip 10))
                    (take 33 link_down_schedule) (initial demo_args) in
  let s := run imaging_model packing_model (world_link_down (clip 10))
               link_down_schedule (initial demo_args) in
  decoded (trace before) = length (video_frames (clip 10))
  /\ producer before = P_PutNone
  /\ queue_full (queue before) = true
  /\ producer s = P_Raised CancelledError
  /\ exit_code s = Some 0
  /\ length (puts (trace s)) = 5%nat
  /\ puts (trace s) = map Some (frames_of (puts (trace s))).
Proof. cbv zeta. split_and!; vm_compute; reflexivity. Qed.

(** Counterexample to C7 as stated: the link drops at the first send, the
    consumer raises, [stream] ends and the producer is cancelled while it
    waits on the full queue; the capture is still open and [release] was
    never called. *)
Lemma capture_not_released_when_link_drops :
  let s := run imaging_model packing_model (world_link_down (clip 12))
               link_down_schedule (initial demo_args) in
  exit_code s = Some 0
  /\ consumer s = C_Raised TransportError
  /\ producer s = P_Raised CancelledError
  /\ cap_opened (cap s) = true
  /\ cap_released (cap s) = false.
Proof. cbv zeta. split_and!; vm_compute; reflexivity. Qed.

(* ===================================================================== *)
(** ** Runs of the model                                                  *)
(* ===================================================================== *)

(** The stride on the rates of the reference configuration: 30 fps to 14
    gives 2; 30 to 12 is the tie 2.5 and gives 2; a source that reports 0.0
    counts as 30 fps; a target rate of 0 raises. *)
Example frame_step_30_14 : frame_step_of fps_30 14 = Ok 2.
Proof. reflexivity. Qed.

Example frame_step_30_12 : frame_step_of fps_30 12 = Ok 2.
Proof. reflexivity. Qed.

Example frame_step_unknown_rate : frame_step_of (S754_zero false) 14 = Ok 2.
Proof. reflexivity. Qed.

Example frame_step_zero_target : frame_step_of fps_30 0 = Raise ZeroDivisionError.
Proof. reflexivity. Qed.

(** The pixel-count check at work, on the faulty backend: the quantised
    image serialises to 12 bytes for a 4 x 4 sprite, the block constructor
    raises, the consumer ends with that exception, and no message is sent. *)
Example short_pixel_data_is_rejected :
  let s := run imaging_short packing_model (world_ok (clip 1))
               (round_robin 20) (initial demo_args) in
  let g := {| mat_rows := 2; mat_cols := 2; mat_channels := 1;
              mat_data := [0; 0; 0; 0] |} in
  frames_of (gets (trace s)) = [g]
  /\ encode imaging_short (self s) (images s) g = Raise ValueError
  /\ consumer s = C_Raised ValueError
  /\ sends (trace s) = []
  /\ exit_code s = Some 0.
Proof. cbv zeta. split_and!; vm_compute; reflexivity. Qed.

(** A healthy run on a clip of six frames: frames 0, 2 and 4 go out, each
    as a header and one line packet, then the marker ends both loops, the
    capture is released and the process ends with status 0. *)
Example healthy_run :
  let s := run imaging_model packing_model (world_ok (clip 6))
               (round_robin 40) (initial demo_args) in
  exit_code s = Some 0
  /\ producer s = P_Done /\ consumer s = C_Done
  /\ cap_released (cap s) = true
  /\ length (puts (trace s)) = 4%nat
  /\ length (sends (trace s)) = 6%nat.
Proof. cbv zeta. split_and!; vm_compute; reflexivity. Qed.

(* ===================================================================== *)
(** ** More invariants                                                    *)
(* ===================================================================== *)

Lemma connects_emit (tr : list Event) (e : Event) :
  connects (tr ++ [e]) = connects tr ++ option_list (connect_of e).
Proof. unfold connects. rewrite omap_app. cbn. by destruct (connect_of e). Qed.

Lemma disconnects_emit (tr : list Event) (e : Event) :
  disconnects (tr ++ [e]) = disconnects tr ++ option_list (disconnect_of e).
Proof. unfold disconnects. rewrite omap_app. cbn. by destruct (disconnect_of e). Qed.

Lemma opens_emit (tr : list Event) (e : Event) :
  opens (tr ++ [e]) = opens tr ++ option_list (open_of e).
Proof. unfold opens. rewrite omap_app. cbn. by destruct (open_of e). Qed.

#[local] Hint Rewrite connects_emit disconnects_emit opens_emit : trace.

Ltac trace_simpl' :=
  trace_simpl;
  cbn [connect_of disconnect_of open_of option_list from_option] in *;
  rewrite ?app_nil_r in *.

Section MoreInvariants.

Context (lib : ImagingLib) (pk : Packing) (w : World) (args : Args).

(** A property that holds at the start and is kept by every step from a
    state that satisfies the invariant holds in every state of every run. *)
Lemma run_preserves (P : State -> Prop) :
  (forall t s s', Inv lib pk w args s -> P s ->
                  step lib pk w t s = Some s' -> P s') ->
  forall sched s, Inv lib pk w args s -> P s -> P (run lib pk w sched s).
Proof.
  intros Hstep sched. induction sched as [|t sched IH]; intros s Hinv HP;
    cbn [run fold_left]; [done|].
  unfold sched_step.
  destruct (step lib pk w t s) as [s1|] eqn:Hs; [|by apply IH].
  apply IH; [by eapply step_inv|by eapply Hstep].
Qed.

Lemma producer_step_created (s s' : State) :
  step_producer lib w s = Some s' ->
  producer s <> P_NotCreated /\ producer s' <> P_NotCreated
  /\ consumer s' = consumer s /\ main_pc s' = main_pc s
  /\ connected s' = connected s
  /\ connects (trace s') = connects (trace s)
  /\ disconnects (trace s') = disconnects (trace s)
  /\ gets (trace s') = gets (trace s)
  /\ sends (trace s') = sends (trace s)
  /\ quantize_calls (trace s') = quantize_calls (trace s).
Proof.
  unfold step_producer. intros H.
  repeat (case_match; simplify_eq); trace_simpl'; done.
Qed.

Lemma consumer_step_created (s s' : State) :
  step_consumer lib pk w s = Some s' ->
  consumer s <> C_NotCreated /\ consumer s' <> C_NotCreated
  /\ producer s' = producer s /\ main_pc s' = main_pc s
  /\ connected s' = connected s /\ cap s' = cap s
  /\ connects (trace s') = connects (trace s)
  /\ disconnects (trace s') = disconnects (trace s)
  /\ puts (trace s') = puts (trace s)
  /\ opens (trace s') = opens (trace s)
  /\ decoded (trace s') = decoded (trace s).
Proof.
  unfold step_consumer, send_message. intros H.
  repeat (case_match; simplify_eq); trace_simpl'; done.
Qed.

Lemma cancel_producer_created (p : ProducerPC) :
  cancel_producer p = P_NotCreated <-> p = P_NotCreated.
Proof. by destruct p. Qed.

Lemma cancel_consumer_created (c : ConsumerPC) :
  cancel_consumer c = C_NotCreated <-> c = C_NotCreated.
Proof. by destruct c. Qed.

Lemma link_ok_frame (s s' : State) :
  main_pc s' = main_pc s -> connected s' = connected s ->
  connects (trace s') = connects (trace s) ->
  disconnects (trace s') = disconnects (trace s) ->
  (created s <-> created s') -> (not_created s <-> not_created s') ->
  link_ok w s -> link_ok w s'.
Proof.
  unfold link_ok, tasks_by_startup. intros -> -> -> -> Hc Hn.
  destruct (main_pc s); tauto.
Qed.

Lemma step_link (t : Task) (s s' : State) :
  step lib pk w t s = Some s' -> link_ok w s -> link_ok w s'.
Proof.
  intros Hstep Hl. destruct t; cbn [step] in Hstep.
  - (* Main *)
    unfold step_main in Hstep. unfold link_ok, tasks_by_startup in *.
    destruct (main_pc s) eqn:Hpc.
    + destruct (tr_connect_ok w) eqn:Hc; inv_step; trace_simpl';
        destruct Hl as (? & Hcs & ? & ?).
      * rewrite ?Hcs. done.
      * rewrite ?Hcs. split_and!; try done. right. done.
    + destruct Hl as (Hcon & Hc & Hcs & Hds & Hnc).
      destruct (tr_upload_ok w) eqn:Hu; inv_step; trace_simpl'.
      * done.
      * rewrite ?Hcon, ?Hc, ?Hcs, ?Hu. split_and!; try done. right. done.
    + destruct Hl as (Hcon & Hc & Hu & Hcs & Hds & Hnc).
      inv_step. trace_simpl'. unfold created. cbn. done.
    + destruct Hl as (Hcon & Hc & Hu & Hcs & Hds & Hcr).
      assert (s' = set_main M_Finally s) as ->.
      { repeat (case_match; simplify_eq); done. }
      trace_simpl'. rewrite ?Hcon, ?Hc, ?Hu, ?Hcs. split_and!; try done. by left.
    + destruct Hl as (Hcon & Hcs & Hds & Htasks). unfold status_of_link.
      destruct (tr_is_connected w) eqn:Hi, (tr_disconnect_ok w) eqn:Hd;
        inv_step; trace_simpl'; rewrite ?Hds; done.
    + destruct Hl as (Hcs & Hds & Hcode & Htasks).
      inv_step. trace_simpl'. split_and!; try done.
      unfold created, not_created in *. cbn.
      rewrite !cancel_producer_created, !cancel_consumer_created. done.
    + done.
  - (* Producer *)
    apply producer_step_created in Hstep
      as (Hnc & Hnc' & Hc & Hpc & Hcon & Hcs & Hds & _).
    eapply link_ok_frame; [done..| | |done];
      unfold created, not_created; rewrite Hc; tauto.
  - (* Consumer *)
    apply consumer_step_created in Hstep
      as (Hnc & Hnc' & Hp & Hpc & Hcon & _ & Hcs & Hds & _).
    eapply link_ok_frame; [done..| | |done];
      unfold created, not_created; rewrite Hp; tauto.
Qed.

Lemma reachable_link (sched : list Task) :
  link_ok w (run lib pk w sched (initial args)).
Proof.
  apply (run_preserves (link_ok w)); [|apply initial_inv|by repeat split].
  intros t s s' _ Hl Hstep. by eapply step_link.
Qed.

Lemma step_quiet (t : Task) (s s' : State) :
  Inv lib pk w args s -> step lib pk w t s = Some s' ->
  quiet_ok s -> quiet_ok s'.
Proof.
  intros Hinv Hstep Hq [Hp' Hc']. destruct t; cbn [step] in Hstep.
  - unfold step_main in Hstep.
    assert (not_created s
            /\ puts (trace s') = puts (trace s)
            /\ gets (trace s') = gets (trace s)
            /\ sends (trace s') = sends (trace s)
            /\ opens (trace s') = opens (trace s)
            /\ quantize_calls (trace s') = quantize_calls (trace s)
            /\ decoded (trace s') = decoded (trace s)
            /\ cap s' = cap s) as (Hnc & -> & -> & -> & -> & -> & -> & ->).
    { unfold not_created.
      repeat (case_match; simplify_eq); trace_simpl'; split_and!; try done.
      all: first [ congruence
                 | by apply cancel_producer_created
                 | by apply cancel_consumer_created ]. }
    by apply Hq.
  - apply producer_step_created in Hstep as (_ & ? & _). done.
  - apply consumer_step_created in Hstep as (_ & ? & _). done.
Qed.

Lemma reachable_quiet (sched : list Task) :
  quiet_ok (run lib pk w sched (initial args)).
Proof.
  apply (run_preserves quiet_ok); [|apply initial_inv|by intros _].
  intros t s s' Hinv Hq Hstep. by eapply step_quiet.
Qed.

End MoreInvariants.

Section StopFlag.

Context (lib : ImagingLib) (pk : Packing) (w : World) (args : Args).

Lemma cancel_consumer_done (c : ConsumerPC) :
  cancel_consumer c = C_Done <-> c = C_Done.
Proof. by destruct c. Qed.

Lemma cancel_producer_done (p : ProducerPC) :
  cancel_producer p = P_Done <-> p = P_Done.
Proof. by destruct p. Qed.

Lemma stop_ok_frame (s s' : State) :
  consumer s' = consumer s -> producer s' = producer s ->
  FinalStreamer.running (self s') = FinalStreamer.running (self s) ->
  gets (trace s') = gets (trace s) ->
  stop_ok w args s -> stop_ok w args s'.
Proof. unfold stop_ok, not_created. by intros -> -> -> ->. Qed.

Lemma step_stop (t : Task) (s s' : State) :
  Inv lib pk w args s -> step lib pk w t s = Some s' ->
  stop_ok w args s -> stop_ok w args s'.
Proof.
  intros [Hself _ _ _ _ Hm] Hstep (Hdone & Hmark & Hflag).
  destruct t; cbn [step] in Hstep.
  - (* Main *)
    unfold step_main in Hstep.
    destruct (main_pc s) eqn:Hpc.
    1, 2, 4, 5: eapply stop_ok_frame; [..|by split_and!];
      repeat (case_match; simplify_eq); trace_simpl'; done.
    + unfold main_ok in Hm. rewrite Hpc in Hm.
      destruct Hm as (_ & _ & _ & Hgets & _).
      inv_step. unfold stop_ok. trace_simpl'. rewrite Hgets.
      split_and!; [done| |done]. by intros ?%elem_of_nil.
    + inv_step. unfold stop_ok, not_created. trace_simpl'. split_and!.
      * intros E. apply (proj1 (cancel_consumer_done _)) in E. by apply Hdone.
      * intros E. apply cancel_consumer_done. by apply Hmark.
      * intros E. destruct (Hflag E) as [[Hp Hc]|[[Hn Hp]|Hg]].
        -- left. by rewrite Hp, Hc.
        -- right; left. split; [done|]. by rewrite Hp.
        -- by right; right.
    + done.
  - (* Producer *)
    pose proof (producer_step_created lib w _ _ Hstep)
      as (Hnc & Hnc' & Hc & _ & _ & _ & _ & Hgets & _).
    unfold stop_ok, not_created. rewrite Hc, Hgets.
    unfold step_producer in Hstep.
    destruct Hself as (Hpath & _).
    destruct (producer s) eqn:Hp; try done.
    + (* P_Start *)
      rewrite Hpath in Hstep.
      destruct (cv_open w (video_file args)) eqn:Hopen.
      * assert (FinalStreamer.running (self s') = FinalStreamer.running (self s))
          as -> by (repeat (case_match; simplify_eq); trace_simpl'; done).
        split_and!; [done..|]. intros E.
        destruct (Hflag E) as [[? _]|[[? ?]|?]]; [congruence|congruence|by right; right].
      * inv_step. trace_simpl'. split_and!; [done|done|]. intros _.
        right; left. done.
    + assert (FinalStreamer.running (self s') = FinalStreamer.running (self s))
        as -> by (repeat (case_match; simplify_eq); trace_simpl'; done).
      split_and!; [done..|]. intros E.
      destruct (Hflag E) as [[? _]|[[? ?]|?]]; [congruence|congruence|by right; right].
    + assert (FinalStreamer.running (self s') = FinalStreamer.running (self s))
        as -> by (repeat (case_match; simplify_eq); trace_simpl'; done).
      split_and!; [done..|]. intros E.
      destruct (Hflag E) as [[? _]|[[? ?]|?]]; [congruence|congruence|by right; right].
    + assert (FinalStreamer.running (self s') = FinalStreamer.running (self s))
        as -> by (repeat (case_match; simplify_eq); trace_simpl'; done).
      split_and!; [done..|]. intros E.
      destruct (Hflag E) as [[? _]|[[? ?]|?]]; [congruence|congruence|by right; right].
  - (* Consumer *)
    pose proof (consumer_step_created lib pk w _ _ Hstep)
      as (Hnc & Hnc' & Hp & _).
    unfold stop_ok, not_created. rewrite Hp.
    unfold step_consumer, send_message in Hstep.
    destruct (consumer s) eqn:Hc; try done.
    + (* C_While *)
      destruct (FinalStreamer.running (self s)) eqn:Hrun; inv_step; trace_simpl'.
      * rewrite Hrun. split_and!; [done| |done].
        intros E. specialize (Hmark E). congruence.
      * rewrite Hrun. split_and!; [done|done|]. intros _.
        destruct (Hflag eq_refl) as [[_ ?]|[?|?]]; [congruence|by right; left|by right; right].
    + (* C_Get *)
      destruct (queue s) as [|[g|] rest]; [done| |].
      * assert (consumer s' <> C_Done
                /\ FinalStreamer.running (self s') = FinalStreamer.running (self s)
                /\ gets (trace s') = gets (trace s) ++ [Some g]) as (Hnd & -> & ->).
        { repeat (case_match; simplify_eq); trace_simpl'; done. }
        split_and!; [done| |].
        -- intros [E|E]%elem_of_app; [specialize (Hmark E); congruence|].
           by apply list_elem_of_singleton in E.
        -- intros E. destruct (Hflag E) as [[_ ?]|[?|E']];
             [congruence|by right; left|specialize (Hmark E'); congruence].
      * inv_step. trace_simpl'. split_and!; [done|done|]. intros _.
        right; right. apply elem_of_app. right. by apply list_elem_of_singleton.
    + (* C_SendBlock *)
      assert (consumer s' <> C_Done
              /\ FinalStreamer.running (self s') = FinalStreamer.running (self s)
              /\ gets (trace s') = gets (trace s)) as (Hnd & -> & ->).
      { repeat (case_match; simplify_eq); trace_simpl'; done. }
      split_and!; [done| |].
      * intros E. specialize (Hmark E). congruence.
      * intros E. destruct (Hflag E) as [[_ ?]|[?|E']];
          [congruence|by right; left|specialize (Hmark E'); congruence].
    + (* C_SendLines *)
      assert (consumer s' <> C_Done
              /\ FinalStreamer.running (self s') = FinalStreamer.running (self s)
              /\ gets (trace s') = gets (trace s)) as (Hnd & -> & ->).
      { repeat (case_match; simplify_eq); trace_simpl'; done. }
      split_and!; [done| |].
      * intros E. specialize (Hmark E). congruence.
      * intros E. destruct (Hflag E) as [[_ ?]|[?|E']];
          [congruence|by right; left|specialize (Hmark E'); congruence].
Qed.

Lemma reachable_stop (sched : list Task) :
  stop_ok w args (run lib pk w sched (initial args)).
Proof.
  apply (run_preserves lib pk w args (stop_ok w args)); [|apply initial_inv|].
  - intros t s s' Hinv Hs Hstep. by eapply step_stop.
  - unfold stop_ok, not_created. cbn. split_and!; [done| |by left].
    by intros ?%elem_of_nil.
Qed.

Lemma step_no_loop (t : Task) (s s' : State) :
  Inv lib pk w args s -> step lib pk w t s = Some s' ->
  no_loop_ok w args s -> no_loop_ok w args s'.
Proof.
  intros [Hself _ _ _ _ Hm] Hstep Hs e He.
  destruct (Hs e He) as (Hputs & Hrel & Hpc). clear Hs.
  destruct He as (v & Hopen & Hfs).
  destruct Hself as (Hpath & _ & _ & Hfps & _).
  destruct t; cbn [step] in Hstep.
  - assert (puts (trace s') = puts (trace s) /\ cap s' = cap s
            /\ (producer s' = producer s
                \/ (producer s = P_NotCreated /\ producer s' = P_Start)
                \/ producer s' = cancel_producer (producer s)))
      as (-> & -> & Hp').
    { clear Hpc. unfold step_main in Hstep. unfold main_ok in Hm.
      destruct (main_pc s) eqn:Hmain.
      1, 2, 4, 5: repeat (case_match; simplify_eq); trace_simpl';
        split_and!; try done; by left.
      - destruct Hm as (Hp & _). inv_step. trace_simpl'.
        split_and!; try done. right; left. done.
      - inv_step. trace_simpl'. split_and!; try done. by right; right.
      - done. }
    split_and!; [done..|].
    destruct Hp' as [->|[[E ->]| ->]]; [done|by rewrite E in Hpc|].
    destruct (producer s); cbn [cancel_producer]; try done. by right.
  - unfold step_producer in Hstep. rewrite Hpath, Hopen, Hfps, Hfs in Hstep.
    destruct (producer s); try done.
    inv_step. trace_simpl'. split_and!; try done. by left.
  - apply consumer_step_created in Hstep as (_ & _ & -> & _ & _ & -> & _ & _ & -> & _).
    done.
Qed.

Lemma reachable_no_loop (sched : list Task) :
  no_loop_ok w args (run lib pk w sched (initial args)).
Proof.
  apply (run_preserves lib pk w args (no_loop_ok w args)); [|apply initial_inv|].
  - intros t s s' Hinv Hs Hstep. by eapply step_no_loop.
  - intros e _. by cbn.
Qed.

End StopFlag.

(* ===================================================================== *)
(** ** The pipeline from end to end                                       *)
(* ===================================================================== *)

Lemma marker_is_last (gets_ queue_ : list (option Mat)) (grays : list Mat) :
  gets_ ++ queue_ = map Some grays ++ [None] ->
  None ∈ gets_ ->
  queue_ = [] /\ gets_ = map Some grays ++ [None].
Proof.
  intros Heq Hin. destruct queue_ as [|x q _] using rev_ind.
  - by rewrite app_nil_r in Heq.
  - rewrite app_assoc in Heq. apply app_inj_tail in Heq as [Heq _].
    exfalso.
    assert (None ∈ map Some grays) as Hbad.
    { rewrite <- Heq. apply elem_of_app. by left. }
    apply list_elem_of_fmap in Hbad as (? & ? & _). done.
Qed.

Section EndToEnd.

Context (lib : ImagingLib) (pk : Packing) (w : World) (args : Args).

(** The marker is put only by a producer that has returned after its
    loop. *)
Lemma marker_put_producer_done (s : State) :
  producer_ok lib w args s -> None ∈ puts (trace s) ->
  producer s = P_Done
  /\ exists v frame_step grays,
       cv_open w (video_file args) = Some v
       /\ frame_step_of (video_fps v) (arg_fps args) = Ok frame_step
       /\ decoded (trace s) = length (video_frames v)
       /\ cap s = cap_after_release
       /\ puts (trace s) = map Some grays ++ [None]
       /\ converted lib (decimate frame_step (video_frames v)) grays.
Proof.
  assert (forall grays : list Mat, None ∉ map Some grays) as Hno.
  { intros grays Hin. apply list_elem_of_fmap in Hin as (? & ? & _). done. }
  unfold producer_ok. intros Hp Hin.
  destruct (producer s) as [| |fs fn|fs fn g| | |e].
  - destruct Hp as (Hp & _). rewrite Hp in Hin. by apply elem_of_nil in Hin.
  - destruct Hp as (Hp & _). rewrite Hp in Hin. by apply elem_of_nil in Hin.
  - destruct Hp as (v & grays & n & _ & _ & _ & _ & _ & _ & Hp & _).
    rewrite Hp in Hin. by apply Hno in Hin.
  - destruct Hp as (v & grays & n & f & _ & _ & _ & _ & _ & _ & _ & _ & Hp & _).
    rewrite Hp in Hin. by apply Hno in Hin.
  - destruct Hp as (v & fs & grays & _ & _ & _ & _ & Hp & _).
    rewrite Hp in Hin. by apply Hno in Hin.
  - destruct Hp as [(_ & Hp & _)|Hp].
    + rewrite Hp in Hin. by apply elem_of_nil in Hin.
    + split; [done|]. destruct Hp as (v & fs & grays & ?). eauto.
  - destruct Hp as (_ & grays & Hp & _). rewrite Hp in Hin. by apply Hno in Hin.
Qed.

(** Where the run stands once the consumer has returned and the file had
    opened. *)
Lemma consumer_done_complete (sched : list Task) (v : Video) :
  cv_open w (video_file args) = Some v ->
  let s := run lib pk w sched (initial args) in
  consumer s = C_Done ->
  producer s = P_Done /\ queue s = []
  /\ cap s = cap_after_release
  /\ FinalStreamer.running (self s) = false
  /\ exists frame_step grays isbs,
       frame_step_of (video_fps v) (arg_fps args) = Ok frame_step
       /\ converted lib (decimate frame_step (video_frames v)) grays
       /\ encodes lib s grays isbs
       /\ puts (trace s) = map Some grays ++ [None]
       /\ gets (trace s) = map Some grays ++ [None]
       /\ sends (trace s) = flat_map (frame_packets pk) isbs.
Proof.
  intros Hopen s Hdone.
  destruct (reachable_inv lib pk w args sched) as [_ _ Hq Hp Hc _].
  destruct (reachable_stop lib pk w args sched) as (Hd & Hmark & Hflag).
  fold s in Hq, Hp, Hc, Hd, Hmark, Hflag.
  specialize (Hd Hdone).
  destruct (Hflag Hd) as [[_ Hnc]|[[Hnone _]|Hin]]; [congruence..|].
  destruct Hq as [Hfifo _].
  assert (None ∈ puts (trace s)) as Hin'.
  { rewrite Hfifo. apply elem_of_app. by left. }
  destruct (marker_put_producer_done s Hp Hin')
    as (Hpd & v' & fs & grays & Hopen' & Hfs & _ & Hcap & Hputs & Hconv).
  rewrite Hopen in Hopen'. injection Hopen' as <-.
  rewrite Hputs in Hfifo. symmetry in Hfifo.
  destruct (marker_is_last _ _ _ Hfifo Hin) as [Hqueue Hgets].
  split_and!; try done.
  destruct Hc as (grays' & isbs & cur & partial & Hg & Henc & Hsends & Hat).
  unfold consumer_at in Hat. rewrite Hdone in Hat. destruct Hat as [-> ->].
  rewrite !app_nil_r in *.
  rewrite Hgets, frames_of_app, frames_of_somes in Hg. cbn in Hg.
  rewrite app_nil_r in Hg. subst grays'.
  exists fs, grays, isbs. done.
Qed.

(** The frames put so far are the gray versions of the frames kept by the
    stride among the first [k] of the video. *)
Lemma puts_are_decimated (sched : list Task) (v : Video) (frame_step : Z) :
  cv_open w (video_file args) = Some v ->
  frame_step_of (video_fps v) (arg_fps args) = Ok frame_step ->
  let s := run lib pk w sched (initial args) in
  exists k : nat,
    (k <= length (video_frames v))%nat
    /\ converted lib (decimate frame_step (take k (video_frames v)))
                 (frames_of (puts (trace s))).
Proof.
  intros Hopen Hfs s.
  destruct (reachable_inv lib pk w args sched) as [_ _ _ Hp _ _]. fold s in Hp.
  unfold producer_ok in Hp.
  destruct (producer s) as [| |fs fn|fs fn g| | |e] eqn:Hpc.
  - destruct Hp as (Hputs & _). exists 0%nat. rewrite Hputs, take_0.
    split; [lia|constructor].
  - destruct Hp as (Hputs & _). exists 0%nat. rewrite Hputs, take_0.
    split; [lia|constructor].
  - destruct Hp as (v' & grays & n & Hopen' & Hfs' & _ & Hn & _ & _ & Hputs
                    & Hconv & _).
    rewrite Hopen in Hopen'. injection Hopen' as <-.
    rewrite Hfs in Hfs'. injection Hfs' as <-.
    exists n. by rewrite Hputs, frames_of_somes.
  - destruct Hp as (v' & grays & n & f & Hopen' & Hfs' & _ & Hf & _ & _ & _
                    & _ & Hputs & Hconv & _).
    rewrite Hopen in Hopen'. injection Hopen' as <-.
    rewrite Hfs in Hfs'. injection Hfs' as <-.
    apply lookup_lt_Some in Hf.
    exists n. rewrite Hputs, frames_of_somes. split; [lia|done].
  - destruct Hp as (v' & fs & grays & Hopen' & Hfs' & _ & _ & Hputs & Hconv).
    rewrite Hopen in Hopen'. injection Hopen' as <-.
    rewrite Hfs in Hfs'. injection Hfs' as <-.
    exists (length (video_frames v)).
    rewrite Hputs, frames_of_somes, firstn_all. done.
  - destruct Hp as [(Hnone & _)|(v' & fs & grays & Hopen' & Hfs' & _ & _
                                  & Hputs & Hconv)]; [congruence|].
    rewrite Hopen in Hopen'. injection Hopen' as <-.
    rewrite Hfs in Hfs'. injection Hfs' as <-.
    exists (length (video_frames v)).
    rewrite Hputs, frames_of_app, frames_of_somes, firstn_all.
    cbn. by rewrite app_nil_r.
  - destruct Hp as (_ & grays & Hputs & Hn).
    destruct (Hn v frame_step Hopen Hfs) as (n & ? & _ & ?).
    exists n. by rewrite Hputs, frames_of_somes.
Qed.

(** Nothing put means nothing taken and nothing sent. *)
Lemma no_puts_no_sends (sched : list Task) :
  let s := run lib pk w sched (initial args) in
  puts (trace s) = [] -> gets (trace s) = [] /\ sends (trace s) = [].
Proof.
  intros s Hputs.
  destruct (reachable_inv lib pk w args sched) as [_ _ Hq _ Hc _].
  fold s in Hq, Hc. destruct Hq as [Hfifo _].
  rewrite Hputs in Hfifo. symmetry in Hfifo.
  apply app_eq_nil in Hfifo as [Hgets _]. split; [done|].
  destruct Hc as (grays & isbs & cur & partial & Hg & Henc & Hsends & Hat).
  rewrite Hgets in Hg. cbn in Hg. symmetry in Hg.
  apply app_eq_nil in Hg as [-> ->].
  apply Forall2_nil_inv_l in Henc as ->.
  destruct (consumer_at_partial _ _ _ _ _ Hat) as [->|(g & b & ? & _)];
    [done|congruence].
Qed.

End EndToEnd.

(** X1: once the consumer has returned in a run whose file opened, the
    whole video has gone through: the producer has returned and released
    the capture, the queue is empty, the flag is down, and the transport
    has received exactly the packets of the blocks encoded from the gray
    versions of the frames that the stride keeps, in the order of the
    video. *)
Theorem completed_run_streams_every_kept_frame (lib : ImagingLib)
    (pk : Packing) (w : World) (args : Args) (sched : list Task) (v : Video) :
  cv_open w (video_file args) = Some v ->
  let s := run lib pk w sched (initial args) in
  consumer s = C_Done ->
  producer s = P_Done /\ queue s = []
  /\ cap_released (cap s) = true
  /\ FinalStreamer.running (self s) = false
  /\ exists frame_step grays isbs,
       frame_step_of (video_fps v) (arg_fps args) = Ok frame_step
       /\ converted lib (decimate frame_step (video_frames v)) grays
       /\ encodes lib s grays isbs
       /\ gets (trace s) = map Some grays ++ [None]
       /\ sends (trace s) = flat_map (frame_packets pk) isbs.
Proof.
  intros Hopen s Hdone.
  destruct (consumer_done_complete lib pk w args sched v Hopen Hdone)
    as (Hp & Hq & Hcap & Hrun & fs & grays & isbs & Hfs & Hconv & Henc & _
        & Hgets & Hsends).
  fold s in Hp, Hq, Hcap, Hrun, Henc, Hgets, Hsends.
  split_and!; try done. { by rewrite Hcap. }
  exists fs, grays, isbs. done.
Qed.

Lemma completed_run_streams_every_kept_frame_witness :
  let s := run imaging_model packing_model (world_ok (clip 6))
               (round_robin 40) (initial demo_args) in
  consumer s = C_Done /\ queue s = [] /\ cap_released (cap s) = true.
Proof.
  intros s.
  assert (consumer s = C_Done) as Hdone by (vm_compute; reflexivity).
  destruct (completed_run_streams_every_kept_frame imaging_model packing_model
              (world_ok (clip 6)) demo_args (round_robin 40) (clip 6)
              eq_refl Hdone) as (_ & Hq & Hrel & _).
  split_and!; [exact Hdone|exact Hq|exact Hrel].
Defined.

(** X2: at every moment the frames whose packets are out are an initial
    segment, in order, of the gray versions of the frames that the stride
    keeps: no frame is skipped, repeated or overtaken between the capture
    and the transport. *)
Theorem streamed_frames_are_an_initial_segment (lib : ImagingLib)
    (pk : Packing) (w : World) (args : Args) (sched : list Task) (v : Video)
    (frame_step : Z) :
  cv_open w (video_file args) = Some v ->
  frame_step_of (video_fps v) (arg_fps args) = Ok frame_step ->
  let s := run lib pk w sched (initial args) in
  exists (k : nat) (all_grays sent_grays : list Mat) isbs partial,
    (k <= length (video_frames v))%nat
    /\ converted lib (decimate frame_step (take k (video_frames v))) all_grays
    /\ sent_grays `prefix_of` all_grays
    /\ encodes lib s sent_grays isbs
    /\ sends (trace s) = flat_map (frame_packets pk) isbs ++ partial
    /\ (length partial <= 2)%nat.
Proof.
  intros Hopen Hfs s.
  destruct (puts_are_decimated lib pk w args sched v frame_step Hopen Hfs)
    as (k & Hk & Hconv).
  destruct (reachable_inv lib pk w args sched) as [_ _ Hq _ Hc _].
  fold s in Hconv, Hq, Hc.
  destruct Hq as [Hfifo _].
  destruct Hc as (grays & isbs & cur & partial & Hg & Henc & Hsends & Hat).
  exists k, (frames_of (puts (trace s))), grays, isbs, partial.
  split_and!; try done.
  - rewrite Hfifo, frames_of_app, Hg, <- app_assoc. by eexists.
  - destruct (consumer_at_partial _ _ _ _ _ Hat) as [->|(g & b & _ & Hb & Hpre)];
      [cbn; lia|].
    apply prefix_length in Hpre. apply encode_block in Hb.
    destruct Hb as (_ & _ & _ & _ & _ & _ & _ & _ & Hlines).
    unfold frame_packets in Hpre. rewrite Hlines in Hpre. cbn in Hpre. lia.
Qed.

Lemma streamed_frames_are_an_initial_segment_witness :
  let s := run imaging_model packing_model (world_ok (clip 6))
               (round_robin 7) (initial demo_args) in
  exists (k : nat) (all_grays sent_grays : list Mat) isbs partial,
    (k <= 6)%nat
    /\ converted imaging_model (decimate 2 (take k (video_frames (clip 6)))) all_grays
    /\ sent_grays `prefix_of` all_grays
    /\ encodes imaging_model s sent_grays isbs
    /\ sends (trace s) = flat_map (frame_packets packing_model) isbs ++ partial
    /\ (length partial <= 2)%nat.
Proof.
  exact (streamed_frames_are_an_initial_segment imaging_model packing_model
           (world_ok (clip 6)) demo_args (round_robin 7) (clip 6) 2
           eq_refl eq_refl).
Defined.

(* ===================================================================== *)
(** ** The running flag, the link and the exit status                     *)
(* ===================================================================== *)

(** X3: in a run whose file opened, the running flag goes down only when
    the consumer takes the end marker: once the tasks exist the flag is down
    exactly when the marker has been taken, the consumer has returned
    exactly when it has taken the marker, and a consumer that ended with an
    exception (a failed conversion or send, or its cancellation) has left
    the flag up. *)
Theorem running_flag_follows_the_marker (lib : ImagingLib) (pk : Packing)
    (w : World) (args : Args) (sched : list Task) (v : Video) :
  cv_open w (video_file args) = Some v ->
  let s := run lib pk w sched (initial args) in
  (created s ->
   (FinalStreamer.running (self s) = false <-> None ∈ gets (trace s)))
  /\ (consumer s = C_Done <-> None ∈ gets (trace s))
  /\ (forall e, consumer s = C_Raised e ->
                FinalStreamer.running (self s) = true).
Proof.
  intros Hopen s.
  destruct (reachable_stop lib pk w args sched) as (Hd & Hmark & Hflag).
  fold s in Hd, Hmark, Hflag.
  assert (FinalStreamer.running (self s) = false -> consumer s <> C_NotCreated ->
          None ∈ gets (trace s)) as Hdown.
  { intros Hr Hc. destruct (Hflag Hr) as [[_ Hnc]|[[Hnone _]|Hin]];
      [done|congruence|done]. }
  split_and!.
  - intros [_ Hc]. split; [intros Hr; by apply Hdown|].
    intros Hin. by apply Hd, Hmark.
  - split; [|done]. intros Hdone. apply Hdown; [by apply Hd|congruence].
  - intros e He.
    destruct (FinalStreamer.running (self s)) eqn:Hr; [done|].
    assert (None ∈ gets (trace s)) as Hin by (apply Hdown; congruence).
    apply Hmark in Hin. congruence.
Qed.

Lemma running_flag_follows_the_marker_witness :
  let s := run imaging_model packing_model (world_ok (clip 6))
               (round_robin 40) (initial demo_args) in
  consumer s = C_Done <-> None ∈ gets (trace s).
Proof.
  intros s.
  exact (proj1 (proj2 (running_flag_follows_the_marker imaging_model
                         packing_model (world_ok (clip 6)) demo_args
                         (round_robin 40) (clip 6) eq_refl))).
Defined.

Section Link.

Context (lib : ImagingLib) (pk : Packing) (w : World) (args : Args).

(** When [connect] or the upload fails, the tasks are never created. *)
Lemma failed_startup_not_created (sched : list Task) :
  tr_connect_ok w && tr_upload_ok w = false ->
  not_created (run lib pk w sched (initial args)).
Proof.
  intros Hfail. pose proof (reachable_link lib pk w args sched) as Hl.
  unfold link_ok in Hl.
  destruct (main_pc (run lib pk w sched (initial args))).
  - by destruct Hl as (_ & _ & _ & ?).
  - by destruct Hl as (_ & _ & _ & _ & ?).
  - by destruct Hl as (_ & _ & _ & _ & _ & ?).
  - destruct Hl as (_ & Hc & Hu & _). by rewrite Hc, Hu in Hfail.
  - destruct Hl as (_ & _ & _ & [[Hok _]|[_ ?]]); [congruence|done].
  - destruct Hl as (_ & _ & _ & [[Hok _]|[_ ?]]); [congruence|done].
  - destruct Hl as (_ & _ & _ & [[Hok _]|[_ ?]]); [congruence|done].
Qed.

(** [stream] alone, with no task to wait for, ends in four steps. *)
Lemma failed_startup_run_ends :
  tr_connect_ok w && tr_upload_ok w = false ->
  exit_code (run lib pk w (repeat Main 4) (initial args))
  = Some (status_of_link w).
Proof.
  intros Hfail. unfold status_of_link. cbn [repeat].
  destruct (tr_connect_ok w) eqn:Hc, (tr_upload_ok w) eqn:Hu,
           (tr_is_connected w) eqn:Hi, (tr_disconnect_ok w) eqn:Hd;
    try done.
  all: repeat (rewrite run_cons; unfold sched_step, step, step_main;
               cbn -[run]; rewrite ?Hc, ?Hu, ?Hi, ?Hd; cbn -[run]).
  all: reflexivity.
Qed.

End Link.

(** X4: when [connect] raises or the upload of the Lua app fails, the two
    tasks are never created: in every state of every run the video has not
    been opened, no frame has been decoded or quantised, nothing has been put
    on or taken from the queue and no message has been sent; and [stream]
    on its own runs to the end of the process. *)
Theorem failed_startup_streams_nothing (lib : ImagingLib) (pk : Packing)
    (w : World) (args : Args) :
  tr_connect_ok w && tr_upload_ok w = false ->
  (forall sched : list Task,
     let s := run lib pk w sched (initial args) in
     not_created s
     /\ opens (trace s) = [] /\ decoded (trace s) = 0%nat
     /\ quantize_calls (trace s) = []
     /\ puts (trace s) = [] /\ gets (trace s) = [] /\ sends (trace s) = [])
  /\ exit_code (run lib pk w (repeat Main 4) (initial args))
     = Some (status_of_link w).
Proof.
  intros Hfail. split; [|by apply failed_startup_run_ends].
  intros sched s.
  pose proof (failed_startup_not_created lib pk w args sched Hfail) as Hnc.
  fold s in Hnc.
  destruct (reachable_quiet lib pk w args sched Hnc)
    as (? & ? & ? & ? & ? & ? & _).
  by split_and!.
Qed.

Lemma failed_startup_streams_nothing_witness :
  let w := {| fs_is_file := fun _ => true; cv_open := fun _ => Some (clip 6);
              tr_connect_ok := true; tr_upload_ok := false;
              tr_send_pends := fun _ => false; tr_send_ok := fun _ => true;
              tr_is_connected := true; tr_disconnect_ok := true |} in
  exit_code (run imaging_model packing_model w (repeat Main 4)
                 (initial demo_args)) = Some 0.
Proof.
  intros w.
  exact (proj2 (failed_startup_streams_nothing imaging_model packing_model w
                  demo_args eq_refl)).
Defined.

(** X5: [connect] is called at most once and [disconnect] at most once, and
    [disconnect] is called only in the [finally] block, when
    [is_connected()] answers true there.  When the process has ended,
    whatever happened in the tasks, [connect] has been called once and
    [disconnect] has been called exactly when [is_connected()] answered
    true; so with a transport that reports not connected after a [connect]
    that raised, [disconnect] is never called on a transport that was never
    connected.  The tasks had been created exactly when both [connect] and
    the upload went well. *)
Theorem disconnect_follows_is_connected (lib : ImagingLib) (pk : Packing)
    (w : World) (args : Args) (sched : list Task) :
  let s := run lib pk w sched (initial args) in
  connects (trace s) `prefix_of` [tr_connect_ok w]
  /\ disconnects (trace s)
     `prefix_of` (if tr_is_connected w then [tr_disconnect_ok w] else [])
  /\ (disconnects (trace s) <> [] -> connects (trace s) = [tr_connect_ok w])
  /\ ((tr_connect_ok w = false -> tr_is_connected w = false) ->
      disconnects (trace s) <> [] -> connects (trace s) = [true])
  /\ (forall code, exit_code s = Some code ->
        connects (trace s) = [tr_connect_ok w]
        /\ disconnects (trace s)
           = (if tr_is_connected w then [tr_disconnect_ok w] else [])
        /\ (created s <-> tr_connect_ok w && tr_upload_ok w = true)).
Proof.
  intros s. pose proof (reachable_link lib pk w args sched) as Hl.
  fold s in Hl. unfold link_ok in Hl. unfold exit_code.
  assert (forall (c : bool) (ds : list bool),
            (tr_connect_ok w = false -> tr_is_connected w = false) ->
            ds = (if tr_is_connected w then [tr_disconnect_ok w] else []) ->
            ds <> [] -> [tr_connect_ok w] = [true]) as Hnever.
  { intros _ ds Hassume -> Hds.
    destruct (tr_connect_ok w); [done|].
    rewrite Hassume in Hds by done. done. }
  destruct (main_pc s) as [| | | | |code|code].
  - destruct Hl as (_ & -> & -> & _).
    split_and!; [apply prefix_nil|apply prefix_nil|done..].
  - destruct Hl as (_ & -> & -> & -> & _).
    split_and!; [done|apply prefix_nil|done..].
  - destruct Hl as (_ & -> & _ & -> & -> & _).
    split_and!; [done|apply prefix_nil|done..].
  - destruct Hl as (_ & -> & _ & -> & -> & _).
    split_and!; [done|apply prefix_nil|done..].
  - destruct Hl as (_ & -> & -> & _).
    split_and!; [done|apply prefix_nil|done..].
  - destruct Hl as (-> & Hds & _ & _).
    split_and!; [done|by rewrite Hds|done| |done].
    intros Hassume Hne. by eapply (Hnever true).
  - destruct Hl as (-> & Hds & _ & Ht).
    split_and!; [done|by rewrite Hds|done| |].
    { intros Hassume Hne. by eapply (Hnever true). }
    intros ? _. split_and!; try done.
    destruct Ht as [[Hok Hcr]|[Hko [Hp Hcs]]]; [done|].
    rewrite Hko. split; [|done]. intros [Hp' _]. done.
Qed.

(* ===================================================================== *)
(** ** A stride computation that raises                                   *)
(* ===================================================================== *)

(** Line 85 with a target rate of 0: the division raises, whatever the
    source reports. *)
Lemma frame_step_of_zero (reported_fps : float) :
  frame_step_of reported_fps 0 = Raise ZeroDivisionError.
Proof.
  unfold frame_step_of, or_default.
  by destruct (float_truthy reported_fps).
Qed.

(** X7: with a target rate of 0 ([--fps 0]) and a file that opens, the
    producer never enters its loop: the division at line 85 raises
    [ZeroDivisionError] after the capture was opened, so that in every state
    of every run nothing has been put on the queue, taken from it or sent,
    the capture has not been released, and a producer that has ended has
    ended with that exception, holding the open capture, or was cancelled
    before it ran. *)
Theorem zero_target_rate_stops_the_producer (lib : ImagingLib) (pk : Packing)
    (w : World) (args : Args) (sched : list Task) (v : Video) :
  arg_fps args = 0 ->
  cv_open w (video_file args) = Some v ->
  let s := run lib pk w sched (initial args) in
  puts (trace s) = [] /\ gets (trace s) = [] /\ sends (trace s) = []
  /\ cap_released (cap s) = false
  /\ match producer s with
     | P_NotCreated | P_Start => cap s = cap_closed
     | P_Raised e =>
         (e = ZeroDivisionError /\ cap_opened (cap s) = true)
         \/ (e = CancelledError /\ cap s = cap_closed)
     | _ => False
     end.
Proof.
  intros Hfps Hopen s.
  assert (stride_raises w args ZeroDivisionError) as Hraise.
  { exists v. split; [done|]. rewrite Hfps. apply frame_step_of_zero. }
  destruct (reachable_no_loop lib pk w args sched _ Hraise) as (Hputs & Hrel & Hp).
  fold s in Hputs, Hrel, Hp.
  destruct (no_puts_no_sends lib pk w args sched Hputs) as [Hgets Hsends].
  by split_and!.
Qed.

Lemma zero_target_rate_stops_the_producer_witness :
  let args := {| video_file := "clip.mp4"; arg_width := 4; arg_height := 2;
                 arg_fps := 0 |} in
  let s := run imaging_model packing_model (world_ok (clip 6))
               (round_robin 40) (initial args) in
  puts (trace s) = [] /\ cap_released (cap s) = false.
Proof.
  intros args s.
  destruct (zero_target_rate_stops_the_producer imaging_model packing_model
              (world_ok (clip 6)) args (round_robin 40) (clip 6)
              eq_refl eq_refl) as (Hputs & _ & _ & Hrel & _).
  split; [exact Hputs|exact Hrel].
Defined.

(* ===================================================================== *)
(** ** How many frames and messages                                       *)
(* ===================================================================== *)

Lemma kept_0 (stride : Z) : 1 <= stride -> kept stride 0 = 0%nat.
Proof.
  intros Hs. unfold kept. cbn [Z.of_nat].
  rewrite Z.div_small by lia. reflexivity.
Qed.

Lemma kept_S (stride : Z) (n : nat) :
  1 <= stride ->
  kept stride (S n)
  = (kept stride n + (if decide (Z.of_nat n mod stride = 0)%Z then 1 else 0))%nat.
Proof.
  intros Hs. unfold kept. rewrite Nat2Z.inj_succ.
  pose proof (Z.div_mod (Z.of_nat n) stride ltac:(lia)) as Hdm.
  pose proof (Z.mod_pos_bound (Z.of_nat n) stride ltac:(lia)) as Hr.
  assert (0 <= Z.of_nat n / stride) as Hq by (apply Z.div_pos; lia).
  assert ((Z.succ (Z.of_nat n) + stride - 1) / stride = Z.of_nat n / stride + 1)
    as ->.
  { symmetry. apply (Z.div_unique _ _ _ (Z.of_nat n mod stride)); lia. }
  case_decide as Hmod.
  - assert ((Z.of_nat n + stride - 1) / stride = Z.of_nat n / stride) as ->.
    { symmetry. apply (Z.div_unique _ _ _ (stride - 1)); lia. }
    lia.
  - assert ((Z.of_nat n + stride - 1) / stride = Z.of_nat n / stride + 1) as ->.
    { symmetry. apply (Z.div_unique _ _ _ (Z.of_nat n mod stride - 1)); lia. }
    lia.
Qed.

(** The stride keeps one frame out of every [stride], the first one
    included. *)
Lemma decimate_length (stride : Z) (frames : list Mat) :
  1 <= stride -> length (decimate stride frames) = kept stride (length frames).
Proof.
  intros Hs. induction frames as [|f frames IH] using rev_ind.
  - by rewrite decimate_nil, kept_0.
  - rewrite decimate_snoc, !length_app, IH. cbn [length].
    rewrite Nat.add_1_r, kept_S by done. by case_decide.
Qed.

Lemma frame_step_of_pos (reported_fps : float) (fps_limit frame_step : Z) :
  frame_step_of reported_fps fps_limit = Ok frame_step -> 1 <= frame_step.
Proof.
  intros H. apply frame_step_of_inv in H as (_ & n & _ & _ & ->). lia.
Qed.

Lemma encodes_packets_length (lib : ImagingLib) (pk : Packing) (s : State)
    (grays : list Mat) (isbs : list TxImageSpriteBlock.t) :
  encodes lib s grays isbs ->
  length (flat_map (frame_packets pk) isbs) = (2 * length grays)%nat.
Proof.
  induction 1 as [|g b grays isbs Hb _ IH]; [done|].
  cbn [flat_map length]. rewrite length_app, IH.
  apply encode_block in Hb as (_ & _ & _ & _ & _ & _ & _ & _ & Hlines).
  unfold frame_packets. rewrite Hlines. cbn [map length]. lia.
Qed.

(** X8: in a run that has gone through a video of [N] frames with stride
    [k], the producer has put [ceil(N / k)] frames and one marker on the
    queue, and the transport has received two messages for each of these
    frames. *)
Theorem completed_run_message_count (lib : ImagingLib) (pk : Packing)
    (w : World) (args : Args) (sched : list Task) (v : Video) :
  cv_open w (video_file args) = Some v ->
  let s := run lib pk w sched (initial args) in
  consumer s = C_Done ->
  exists frame_step,
    frame_step_of (video_fps v) (arg_fps args) = Ok frame_step
    /\ length (puts (trace s))
       = (kept frame_step (length (video_frames v)) + 1)%nat
    /\ length (gets (trace s))
       = (kept frame_step (length (video_frames v)) + 1)%nat
    /\ length (sends (trace s))
       = (2 * kept frame_step (length (video_frames v)))%nat.
Proof.
  intros Hopen s Hdone.
  destruct (consumer_done_complete lib pk w args sched v Hopen Hdone)
    as (_ & _ & _ & _ & fs & grays & isbs & Hfs & Hconv & Henc & Hputs
        & Hgets & Hsends).
  fold s in Henc, Hputs, Hgets, Hsends.
  exists fs. split; [done|].
  pose proof (frame_step_of_pos _ _ _ Hfs) as Hpos.
  apply Forall2_length in Hconv as Hlen.
  rewrite decimate_length in Hlen by done.
  rewrite Hputs, Hgets, Hsends, !length_app, length_map.
  rewrite (encodes_packets_length lib pk s grays isbs Henc).
  cbn [length]. lia.
Qed.

Lemma completed_run_message_count_witness :
  let s := run imaging_model packing_model (world_ok (clip 6))
               (round_robin 40) (initial demo_args) in
  exists frame_step,
    frame_step_of (video_fps (clip 6)) (arg_fps demo_args) = Ok frame_step
    /\ length (puts (trace s)) = (kept frame_step 6 + 1)%nat
    /\ length (gets (trace s)) = (kept frame_step 6 + 1)%nat
    /\ length (sends (trace s)) = (2 * kept frame_step 6)%nat.
Proof.
  intros s.
  assert (consumer s = C_Done) as Hdone by (vm_compute; reflexivity).
  exact (completed_run_message_count imaging_model packing_model
           (world_ok (clip 6)) demo_args (round_robin 40) (clip 6)
           eq_refl Hdone).
Defined.

(* ===================================================================== *)
(** ** A negative target rate                                             *)
(* ===================================================================== *)

Lemma round_half_even_shift_nonneg (m k : positive) :
  0 <= round_half_even_shift (Zpos m) k.
Proof.
  unfold round_half_even_shift.
  assert (0 <= Zpos m / 2 ^ Zpos k) by (apply Z.div_pos; lia).
  repeat case_match; lia.
Qed.

Lemma py_round_negative (m : positive) (e n : Z) :
  py_round (S754_finite true m e) = Ok n -> n <= 0.
Proof.
  unfold py_round. intros [= <-]. destruct e as [|p|p].
  - lia.
  - pose proof (proj2 (Z.shiftl_nonneg (Zpos m) (Zpos p)) ltac:(lia)). lia.
  - pose proof (round_half_even_shift_nonneg m p). lia.
Qed.

Lemma binary_round_aux_negative (mx ex : Z) (lx : location) :
  match binary_round_aux prec emax true mx ex lx with
  | S754_finite false _ _ => False
  | _ => True
  end.
Proof.
  unfold binary_round_aux.
  destruct (shr_fexp prec emax mx ex lx) as [mrs' e'].
  destruct (shr_fexp prec emax _ e' loc_Exact) as [mrs'' e''].
  destruct (shr_m mrs''); [done| |done]. by destruct (_ <=? _).
Qed.

Lemma py_round_not_positive (x : float) (n : Z) :
  match x with S754_finite false _ _ => False | _ => True end ->
  py_round x = Ok n -> n <= 0.
Proof.
  destruct x as [s|s| |[] m e]; try done.
  - intros _ [= <-]. lia.
  - intros _. apply py_round_negative.
Qed.

Lemma SFdiv_by_negative (x y : float) :
  (forall m e, x <> S754_finite true m e) ->
  match y with S754_finite false _ _ | S754_zero false => False | _ => True end ->
  match SFdiv prec emax x y with
  | S754_finite false _ _ => False
  | _ => True
  end.
Proof.
  intros Hx Hy.
  destruct x as [sx|sx| |sx mx ex], y as [sy|sy| |sy my ey]; try done.
  destruct sx; [by destruct (Hx mx ex)|]. destruct sy; [|done].
  cbn [SFdiv xorb].
  destruct (SFdiv_core_binary prec emax (Z.pos mx) ex (Z.pos my) ey)
    as [[mz ez] lz].
  apply binary_round_aux_negative.
Qed.

Lemma float_of_negative_int (p : positive) (fy : float) :
  float_of_int (Zneg p) = Ok fy ->
  match fy with S754_finite false _ _ | S754_zero false => False | _ => True end.
Proof.
  unfold float_of_int. cbn [binary_normalize]. unfold binary_round.
  destruct (shl_align _ _ _) as [mz ez].
  pose proof (binary_round_aux_negative (Z.pos mz) ez loc_Exact) as H.
  destruct (binary_round_aux prec emax true (Z.pos mz) ez loc_Exact)
    as [s|s| |s m e] eqn:E; intros [= <-]; try done.
  revert E. unfold binary_round_aux.
  destruct (shr_fexp prec emax (Z.pos mz) ez loc_Exact) as [mrs' e'].
  destruct (shr_fexp prec emax _ e' loc_Exact) as [mrs'' e''].
  destruct (shr_m mrs''); [by intros [= <-]| |done]. by destruct (_ <=? _).
Qed.

Lemma truediv_raises (x : PyNum) (y : Z) (e : exn) :
  y <> 0 -> truediv x y = Raise e -> e = OverflowError.
Proof.
  intros Hy. apply Z.eqb_neq in Hy. unfold truediv, float_of_int.
  destruct x as [f|a]; rewrite Hy.
  - destruct (binary_normalize prec emax y 0 false); cbn [mbind result_bind];
      (done || by intros [= <-]).
  - destruct (SFdiv prec emax _ _); (done || by intros [= <-]).
Qed.

Lemma py_round_raises (x : float) (e : exn) :
  py_round x = Raise e -> e = OverflowError \/ e = ValueError.
Proof.
  destruct x; cbn [py_round]; try done.
  - intros [= <-]. by left.
  - intros [= <-]. by right.
Qed.

(** X9: with a negative target rate and a source rate that is not a
    negative number, line 85 gives the stride 1, so that every frame of the
    video is kept, or it raises [OverflowError] (the rate is too large for a
    float, or the quotient is infinite) or [ValueError] (the source rate is
    not a number); it gives no other stride and never divides by zero. *)
Theorem negative_target_rate_gives_stride_1_or_raises (reported_fps : float)
    (fps_limit : Z) :
  fps_limit < 0 ->
  (forall m e, reported_fps <> S754_finite true m e) ->
  match frame_step_of reported_fps fps_limit with
  | Ok frame_step => frame_step = 1
  | Raise e => e = OverflowError \/ e = ValueError
  end.
Proof.
  intros Hneg Hfps.
  destruct (frame_step_of reported_fps fps_limit) as [frame_step|err] eqn:H.
  - apply frame_step_of_inv in H as (ratio & n & Hdiv & Hround & ->).
    destruct fps_limit as [|p|p]; [lia..|]. clear Hneg.
    cut (n <= 0); [lia|].
    apply (py_round_not_positive ratio n); [|done].
    unfold truediv, or_default in Hdiv.
    destruct (float_truthy reported_fps).
    + destruct (float_of_int (Z.neg p)) as [fy|e] eqn:Hfy; [|done].
      cbn [mbind result_bind] in Hdiv. cbn [Z.eqb] in Hdiv.
      injection Hdiv as <-.
      apply SFdiv_by_negative; [done|]. by eapply float_of_negative_int.
    + cbn [Z.eqb] in Hdiv.
      pose proof (SFdiv_by_negative (exact_of_int DEFAULT_FPS)
                    (exact_of_int (Z.neg p)) ltac:(done) ltac:(done)) as Hs.
      destruct (SFdiv prec emax _ _) as [s|s| |s m e]; try done;
        by injection Hdiv as <-.
  - unfold frame_step_of in H.
    destruct (truediv (or_default reported_fps) fps_limit) as [ratio|e] eqn:Hdiv.
    + cbn [mbind result_bind] in H.
      destruct (py_round ratio) as [n|e] eqn:Hround; [done|].
      cbn [mbind result_bind] in H. injection H as <-.
      by eapply py_round_raises.
    + cbn [mbind result_bind] in H. injection H as <-. left.
      eapply truediv_raises; [|exact Hdiv]. lia.
Qed.

Lemma negative_target_rate_gives_stride_1_or_raises_witness :
  match frame_step_of fps_30 (-5) with
  | Ok frame_step => frame_step = 1
  | Raise e => e = OverflowError \/ e = ValueError
  end.
Proof.
  apply (negative_target_rate_gives_stride_1_or_raises fps_30 (-5));
    [reflexivity|discriminate].
Defined.

(* ===================================================================== *)
(** ** Every run comes to an end                                          *)
(* ===================================================================== *)

Ltac budget_simpl :=
  unfold budget; unfold main_budget, producer_budget, consumer_budget;
  unfold producer_items;
  trace_simpl;
  cbn [cap_frames cap_opened cap_released].

Section Termination.

Context (lib : ImagingLib) (pk : Packing) (w : World) (args : Args).

Lemma consumer_budget_mono (s s' : State) (n : nat) :
  consumer s' = consumer s ->
  (length (queue s') + producer_items s' n
   <= length (queue s) + producer_items s n)%nat ->
  (consumer_budget s' n <= consumer_budget s n)%nat.
Proof.
  unfold consumer_budget. intros -> H. destruct (consumer s); lia.
Qed.

(** A step of the producer uses up some of its budget and does not add to
    what the consumer may still have to take. *)
Lemma step_producer_budget (s s' : State) :
  self_ok args s -> step_producer lib w s = Some s' ->
  let n := video_length w args in
  consumer s' = consumer s /\ main_pc s' = main_pc s
  /\ (producer_budget s' n < producer_budget s n)%nat
  /\ (length (queue s') + producer_items s' n
      <= length (queue s) + producer_items s n)%nat.
Proof.
  intros (Hpath & _) Hstep n. subst n.
  unfold step_producer in Hstep. rewrite Hpath in Hstep.
  unfold video_length.
  destruct (producer s) as [| |fs fn|fs fn g| | |e] eqn:Hp; try done.
  - destruct (cv_open w (video_file args)) as [v|] eqn:Hopen.
    + destruct (frame_step_of _ _); inv_step; budget_simpl; rewrite Hp;
        split_and!; try done; lia.
    + inv_step; budget_simpl; rewrite Hp; split_and!; try done; lia.
  - destruct (FinalStreamer.running (self s)).
    + destruct (cap_frames (cap s)) as [|f rest] eqn:Hcap.
      * inv_step; budget_simpl; rewrite Hp, Hcap; cbn [length];
          split_and!; try done; lia.
      * destruct (_ =? 0); [destruct (cvtColor_BGR2GRAY lib f)|];
          inv_step; budget_simpl; rewrite Hp, Hcap; cbn [length];
          split_and!; try done; lia.
    + inv_step; budget_simpl; rewrite Hp; split_and!; try done; lia.
  - destruct (queue_full (queue s)); [done|].
    inv_step; budget_simpl; rewrite Hp, length_app; cbn [length];
      split_and!; try done; lia.
  - destruct (queue_full (queue s)); [done|].
    inv_step; budget_simpl; rewrite Hp, length_app; cbn [length];
      split_and!; try done; lia.
Qed.

(** A step of the consumer uses up some of its budget and leaves the
    producer alone. *)
Lemma step_consumer_budget (s s' : State) (n : nat) :
  step_consumer lib pk w s = Some s' ->
  producer s' = producer s /\ cap s' = cap s /\ main_pc s' = main_pc s
  /\ (consumer_budget s' n < consumer_budget s n)%nat.
Proof.
  intros Hstep. unfold step_consumer in Hstep.
  destruct (consumer s) as [| | |isb|lines| |e] eqn:Hc; try done.
  - destruct (FinalStreamer.running (self s)); inv_step; budget_simpl;
      rewrite Hc; cbv beta iota; split_and!; try done; lia.
  - destruct (queue s) as [|item rest] eqn:Hq; [done|].
    destruct item as [g|].
    + destruct (to_rgb lib (self s) g) as [rgb|e] eqn:Hrgb.
      * destruct (to_block lib (self s) (images s) rgb) as [isb|e] eqn:Hb.
        -- assert (encode lib (self s) (images s) g = Ok isb) as Henc.
           { unfold encode. rewrite Hrgb. exact Hb. }
           apply encode_block in Henc
             as (_ & _ & _ & _ & _ & _ & _ & _ & Hlines).
           inv_step; budget_simpl; rewrite Hc, Hq, Hlines; cbn [length];
             cbv beta iota; split_and!; try done; lia.
        -- inv_step; budget_simpl; rewrite Hc, ?Hq; cbn [length];
             cbv beta iota; split_and!; try done; lia.
      * inv_step; budget_simpl; rewrite Hc, ?Hq; cbn [length];
          cbv beta iota; split_and!; try done; lia.
    + inv_step; budget_simpl; rewrite Hc, ?Hq; cbn [length];
        cbv beta iota; split_and!; try done; lia.
  - unfold send_message in Hstep.
    destruct (send_pending w s); [done|]. destruct (tr_send_ok w _); inv_step; budget_simpl; rewrite Hc;
      cbv beta iota; split_and!; try done; lia.
  - destruct lines as [|line rest].
    + inv_step; budget_simpl; rewrite Hc, ?Hq; cbn [length];
        cbv beta iota; split_and!; try done; lia.
    + unfold send_message in Hstep.
      destruct (send_pending w s); [done|]. destruct (tr_send_ok w _); inv_step; budget_simpl; rewrite Hc;
        cbn [length]; cbv beta iota; split_and!; try done; lia.
Qed.

Lemma step_main_budget (s s' : State) :
  main_ok w s -> step_main w s = Some s' ->
  (budget w args s' < budget w args s)%nat.
Proof.
  intros Hm Hstep. unfold step_main in Hstep. unfold main_ok in Hm.
  destruct (main_pc s) as [| | | | |code|code] eqn:Hmain.
  - destruct (tr_connect_ok w); inv_step; budget_simpl; rewrite Hmain; cbv beta iota; lia.
  - destruct (tr_upload_ok w); inv_step; budget_simpl; rewrite Hmain; cbv beta iota; lia.
  - destruct Hm as (Hp & Hc & Hq & _).
    inv_step; budget_simpl; rewrite Hmain, Hp, Hc, Hq; cbv beta iota; cbn [length]; lia.
  - destruct (producer s), (consumer s); try done;
      inv_step; budget_simpl; rewrite Hmain; cbv beta iota; lia.
  - destruct (tr_is_connected w); [destruct (tr_disconnect_ok w)|];
      inv_step; budget_simpl; rewrite Hmain; cbv beta iota; lia.
  - inv_step; budget_simpl; rewrite Hmain.
    destruct (producer s), (consumer s); cbn [cancel_producer cancel_consumer];
      cbv beta iota; lia.
  - done.
Qed.

(** Every step that moves the state uses up some of the budget. *)
Lemma step_budget (t : Task) (s s' : State) :
  Inv lib pk w args s -> step lib pk w t s = Some s' ->
  (budget w args s' < budget w args s)%nat.
Proof.
  intros [Hself _ _ _ _ Hm] Hstep. destruct t; cbn [step] in Hstep.
  - by apply step_main_budget.
  - destruct (step_producer_budget s s' Hself Hstep) as (Hc & Hmain & Hlt & Hle).
    pose proof (consumer_budget_mono s s' _ Hc Hle).
    unfold budget, main_budget. rewrite Hmain. lia.
  - destruct (step_consumer_budget s s' (video_length w args) Hstep)
      as (Hp & Hcap & Hmain & Hlt).
    unfold budget, main_budget, producer_budget. rewrite Hmain, Hp, Hcap. lia.
Qed.

Lemma effective_steps_budget (sched : list Task) (s : State) :
  Inv lib pk w args s ->
  (effective_steps lib pk w sched s + budget w args (run lib pk w sched s)
   <= budget w args s)%nat.
Proof.
  revert s. induction sched as [|t sched IH]; intros s Hinv.
  - cbn. lia.
  - rewrite run_cons. cbn [effective_steps]. unfold sched_step.
    destruct (step lib pk w t s) as [s'|] eqn:Hstep.
    + pose proof (step_budget t s s' Hinv Hstep).
      pose proof (IH s' (step_inv lib pk w args t s s' Hinv Hstep)). lia.
    + by apply IH.
Qed.

Lemma budget_initial :
  budget w args (initial args) = (7 * video_length w args + 15)%nat.
Proof. unfold budget. cbn. lia. Qed.

(** With a file that opens, some task can move in every state in which the
    process has not ended. *)
Lemma some_task_can_move (s : State) (v : Video) :
  (forall n, tr_send_pends w n = false) ->
  Inv lib pk w args s -> link_ok w s -> stop_ok w args s ->
  cv_open w (video_file args) = Some v ->
  exit_code s = None ->
  exists t s', step lib pk w t s = Some s'.
Proof.
  intros Hpend [_ _ [Hfifo _] Hp _ _] Hl (Hd & Hmark & Hflag) Hopen Hexit.
  destruct (step_main w s) as [s'|] eqn:Hm; [by exists Main, s'|].
  destruct (step_producer lib w s) as [s'|] eqn:Hsp; [by exists Producer, s'|].
  destruct (step_consumer lib pk w s) as [s'|] eqn:Hsc; [by exists Consumer, s'|].
  exfalso.
  unfold step_main in Hm. unfold exit_code in Hexit. unfold link_ok in Hl.
  destruct (main_pc s) as [| | | | |code|code]; try done.
  { by destruct (tr_connect_ok w). }
  { by destruct (tr_upload_ok w). }
  2: { destruct (tr_is_connected w); [by destruct (tr_disconnect_ok w)|done]. }
  destruct Hl as (_ & _ & _ & _ & _ & Hpc & Hcc).
  assert (forall grays : list Mat, None ∉ map Some grays) as Hno.
  { intros grays Hin. apply list_elem_of_fmap in Hin as (? & ? & _). done. }
  assert (None ∈ gets (trace s) -> producer s = P_Done) as Hgot.
  { intros Hin. eapply (marker_put_producer_done lib w args); [done|].
    rewrite Hfifo. apply elem_of_app. by left. }
  unfold step_consumer in Hsc. unfold step_producer in Hsp.
  destruct (consumer s) as [| | |isb|lines| |e] eqn:Hc; try done.
  - by destruct (FinalStreamer.running (self s)).
  - (* the consumer waits for an item *)
    destruct (queue s) as [|item rest] eqn:Hq.
    2: { destruct item as [g|]; [|done].
         destruct (to_rgb lib (self s) g); [|done].
         by destruct (to_block lib (self s) (images s) _). }
    destruct (producer s) as [| |fs fn|fs fn g| | |e] eqn:Hpr; try done.
    + by repeat case_match.
    + by repeat case_match.
    + unfold producer_ok in Hp. rewrite Hpr in Hp.
      destruct Hp as [(Hnone & _)|(v' & fs & grays & _ & _ & _ & _ & Hputs & _)];
        [congruence|].
      rewrite Hputs, app_nil_r in Hfifo.
      assert (None ∈ gets (trace s)) as Hin.
      { rewrite <- Hfifo. apply elem_of_app. right. apply list_elem_of_singleton. done. }
      apply Hmark in Hin. congruence.
  - unfold send_pending, send_message in Hsc. rewrite Hpend in Hsc.
    by destruct (tr_send_ok w _).
  - destruct lines; [done|]. unfold send_pending, send_message in Hsc.
    rewrite Hpend in Hsc. by destruct (tr_send_ok w _).
  - (* the consumer has returned *)
    specialize (Hd eq_refl).
    destruct (Hflag Hd) as [[Hnc _]|[[Hnone _]|Hin]]; [done|congruence|].
    specialize (Hgot Hin). rewrite Hgot in Hm. done.
  - by destruct (producer s).
Qed.

(** With a file that opens and sends that complete, every state of a run
    can be continued to the end of the process within its budget. *)
Lemma finish_from (v : Video) (n : nat) (s : State) :
  (forall k, tr_send_pends w k = false) ->
  cv_open w (video_file args) = Some v ->
  Inv lib pk w args s -> link_ok w s -> stop_ok w args s ->
  (budget w args s <= n)%nat ->
  exists rest : list Task,
    (length rest <= n)%nat /\ is_Some (exit_code (run lib pk w rest s)).
Proof.
  intros Hpend Hopen. revert s.
  induction n as [|n IH]; intros s Hinv Hlink Hstop Hle.
  - destruct (exit_code s) as [code|] eqn:Hexit.
    + exists []. split; [cbn; lia|]. cbn. rewrite Hexit. by eexists.
    + destruct (some_task_can_move s v Hpend Hinv Hlink Hstop Hopen Hexit)
        as (t & s' & Hstep).
      pose proof (step_budget t s s' Hinv Hstep). lia.
  - destruct (exit_code s) as [code|] eqn:Hexit.
    + exists []. split; [cbn; lia|]. cbn. rewrite Hexit. by eexists.
    + destruct (some_task_can_move s v Hpend Hinv Hlink Hstop Hopen Hexit)
        as (t & s' & Hstep).
      pose proof (step_budget t s s' Hinv Hstep) as Hlt.
      destruct (IH s') as (rest & Hlen & Hdone).
      * by eapply step_inv.
      * by eapply step_link.
      * by eapply step_stop.
      * lia.
      * exists (t :: rest). split; [cbn [length]; lia|].
        rewrite run_cons. unfold sched_step. rewrite Hstep. exact Hdone.
Qed.

End Termination.

(** X10: no run goes on for ever: whatever the schedule, the number of
    steps that move the state is at most [7 * N + 15], with [N] the number
    of frames of the video (0 when the file does not open). *)
Theorem every_run_is_bounded (lib : ImagingLib) (pk : Packing) (w : World)
    (args : Args) (sched : list Task) :
  (effective_steps lib pk w sched (initial args)
   <= 7 * video_length w args + 15)%nat.
Proof.
  pose proof (effective_steps_budget lib pk w args sched (initial args)
                (initial_inv lib pk w args)) as H.
  rewrite budget_initial in H. lia.
Qed.

(** X11: with a file that opens and a transport whose sends all complete
    (they return or raise; [connect], the upload and [disconnect] always
    do), the tasks never wait for each other for ever: in every state of
    every run in which the process has not ended some task can move, and the
    run can be continued to the end of the process in no more steps than the
    budget that is left. *)
Theorem run_can_always_finish (lib : ImagingLib) (pk : Packing) (w : World)
    (args : Args) (sched : list Task) (v : Video) :
  (forall n, tr_send_pends w n = false) ->
  cv_open w (video_file args) = Some v ->
  let s := run lib pk w sched (initial args) in
  (exit_code s = None -> exists t s', step lib pk w t s = Some s')
  /\ exists rest : list Task,
       (length rest <= budget w args s)%nat
       /\ is_Some (exit_code (run lib pk w (sched ++ rest) (initial args))).
Proof.
  intros Hpend Hopen s.
  pose proof (reachable_inv lib pk w args sched) as Hinv.
  pose proof (reachable_link lib pk w args sched) as Hlink.
  pose proof (reachable_stop lib pk w args sched) as Hstop.
  fold s in Hinv, Hlink, Hstop.
  split; [by apply (some_task_can_move lib pk w args s v)|].
  destruct (finish_from lib pk w args v (budget w args s) s Hpend Hopen
              Hinv Hlink Hstop (Nat.le_refl _)) as (rest & Hlen & Hdone).
  exists rest. split; [done|].
  unfold run. rewrite fold_left_app. exact Hdone.
Qed.

Lemma run_can_always_finish_witness :
  let s := run imaging_model packing_model (world_ok (clip 6))
               (round_robin 3) (initial demo_args) in
  exists rest : list Task,
    (length rest <= budget (world_ok (clip 6)) demo_args s)%nat
    /\ is_Some (exit_code (run imaging_model packing_model (world_ok (clip 6))
                               (round_robin 3 ++ rest) (initial demo_args))).
Proof.
  intros s.
  exact (proj2 (run_can_always_finish imaging_model packing_model
                  (world_ok (clip 6)) demo_args (round_robin 3) (clip 6)
                  (fun _ => eq_refl) eq_refl)).
Defined.

(** X6: the exit status of the process is 1 when the path is empty or is
    not a file, and otherwise 1 exactly when [is_connected()] answered true
    in the [finally] block and [disconnect] then raised; failures of the
    upload, of the capture, of a conversion or of a send all end in status
    0.  And the process does end: when no send stays pending there is a
    schedule on which it exits. *)
Theorem exit_status_of_the_process (lib : ImagingLib) (pk : Packing)
    (w : World) (args : Args) :
  (forall sched code,
     process_exit lib pk w args sched = Some code ->
     code = (if String.eqb (video_file args) ""
                || negb (fs_is_file w (video_file args))
             then 1
             else if tr_is_connected w && negb (tr_disconnect_ok w)
                  then 1 else 0))
  /\ ((forall n, tr_send_pends w n = false) ->
      exists sched, is_Some (process_exit lib pk w args sched)).
Proof.
  split.
  - intros sched code. unfold process_exit.
    destruct (String.eqb (video_file args) ""
              || negb (fs_is_file w (video_file args))).
    + by intros [= <-].
    + intros Hexit. pose proof (reachable_link lib pk w args sched) as Hl.
      unfold link_ok in Hl. unfold exit_code in Hexit.
      destruct (main_pc (run lib pk w sched (initial args))); try done.
      injection Hexit as ->. by destruct Hl as (_ & _ & -> & _).
  - intros Hpend.
    destruct (String.eqb (video_file args) ""
              || negb (fs_is_file w (video_file args))) eqn:Hpath.
    { exists []. unfold process_exit. rewrite Hpath. by eexists. }
    destruct (cv_open w (video_file args)) as [v|] eqn:Hopen.
    + destruct (finish_from lib pk w args v _ (initial args) Hpend Hopen
                  (initial_inv lib pk w args)
                  (reachable_link lib pk w args [])
                  (reachable_stop lib pk w args [])
                  (Nat.le_refl _)) as (rest & _ & Hdone).
      exists rest. unfold process_exit. by rewrite Hpath.
    + exists open_failure_schedule.
      apply orb_false_elim in Hpath as [Hname Hfile].
      apply String.eqb_neq in Hname. apply negb_false_iff in Hfile.
      by apply open_failure_run_ends.
Qed.

(* ===================================================================== *)
(** ** A send that never completes                                        *)
(* ===================================================================== *)

Section Stall.

Context (lib : ImagingLib) (pk : Packing) (w : World) (args : Args).

Lemma step_main_frame (s s' : State) :
  step_main w s = Some s' ->
  sends (trace s') = sends (trace s) /\ gets (trace s') = gets (trace s)
  /\ (consumer s' = consumer s
      \/ main_pc s = M_Spawn
      \/ consumer s' = cancel_consumer (consumer s)).
Proof.
  unfold step_main. intros Hstep.
  destruct (main_pc s) eqn:Hmain.
  1, 2, 4, 5: repeat (case_match; simplify_eq); trace_simpl';
    split_and!; try done; by left.
  - inv_step. trace_simpl'. split_and!; try done. by right; left.
  - inv_step. trace_simpl'. split_and!; try done. by right; right.
  - done.
Qed.

(** A consumer that stands in the pending send cannot move. *)
Lemma pending_send_blocks (n : nat) (s : State) :
  tr_send_pends w n = true ->
  length (sends (trace s)) = n -> in_send s ->
  step_consumer lib pk w s = None.
Proof.
  intros Hpend Hlen. unfold in_send, step_consumer, send_pending.
  rewrite Hlen, Hpend. by destruct (consumer s) as [| | |isb|[|line rest]| |e].
Qed.

(** The transport never gets a message after the pending one. *)
Lemma sends_stop_at_pending (n : nat) (sched : list Task) :
  tr_send_pends w n = true ->
  (length (sends (trace (run lib pk w sched (initial args)))) <= n)%nat.
Proof.
  intros Hpend.
  apply (run_preserves lib pk w args
           (fun s => (length (sends (trace s)) <= n)%nat));
    [|apply initial_inv|cbn; lia].
  intros t s s' _ Hle Hstep. destruct t; cbn [step] in Hstep.
  - apply step_main_frame in Hstep as (-> & _). done.
  - apply producer_step_created in Hstep
      as (_ & _ & _ & _ & _ & _ & _ & _ & -> & _). done.
  - unfold step_consumer, send_pending, send_message in Hstep.
    destruct (consumer s) as [| | |isb|[|line rest]| |e]; try done.
    1, 2, 4: by repeat (case_match; simplify_eq); try inv_step; trace_simpl.
    all: destruct (tr_send_pends w (length (sends (trace s)))) eqn:Hp;
      [done|].
    all: assert (length (sends (trace s)) <> n) by congruence.
    all: destruct (tr_send_ok w _); inv_step; trace_simpl;
      rewrite ?length_app; cbn [length option_list option_rect]; lia.
Qed.

(** Once the consumer stands in the pending send, nothing more is taken
    from the queue or sent, however the run goes on. *)
Lemma stalled_consumer_stays (n : nat) (sched rest : list Task) :
  tr_send_pends w n = true ->
  let s := run lib pk w sched (initial args) in
  length (sends (trace s)) = n -> in_send s ->
  let s' := run lib pk w rest s in
  sends (trace s') = sends (trace s) /\ gets (trace s') = gets (trace s)
  /\ (consumer s' = consumer s \/ consumer s' = C_Raised CancelledError).
Proof.
  intros Hpend s Hlen Hin. cbv zeta.
  induction rest as [|t rest IH] using rev_ind; [by split_and!; [..|left]|].
  pose proof (reachable_link lib pk w args (sched ++ rest)) as Hlink.
  unfold run in *. rewrite fold_left_app in *. cbn [fold_left].
  fold (run lib pk w sched (initial args)) in *. fold s in Hlink |- *.
  set (s1 := fold_left (sched_step lib pk w) rest s) in *.
  destruct IH as (Hs & Hg & Hc).
  unfold sched_step.
  destruct (step lib pk w t s1) as [s2|] eqn:Hstep; [|done].
  assert (consumer s1 <> C_NotCreated) as Hcreated.
  { unfold in_send in Hin. destruct Hc as [-> | ->]; [|done].
    by destruct (consumer s). }
  destruct t; cbn [step] in Hstep.
  - apply step_main_frame in Hstep as Hframe.
    destruct Hframe as (-> & -> & Hcons). split_and!; [done..|].
    destruct Hcons as [-> |[Hspawn| ->]]; [done| |].
    + exfalso. unfold link_ok in Hlink. rewrite Hspawn in Hlink.
      destruct Hlink as (_ & _ & _ & _ & _ & _ & Hnc). done.
    + destruct Hc as [-> | ->]; [|by right]. right.
      unfold in_send in Hin. by destruct (consumer s) as [| | |?|[|? ?]| |?].
  - apply producer_step_created in Hstep
      as (_ & _ & -> & _ & _ & _ & _ & -> & -> & _). done.
  - exfalso. destruct Hc as [Hc|Hc].
    + rewrite (pending_send_blocks n s1) in Hstep; [done|done|congruence|].
      unfold in_send in *. by rewrite Hc.
    + unfold step_consumer in Hstep. by rewrite Hc in Hstep.
Qed.

End Stall.

(** X12: a send that never completes stalls the pipeline.  When the
    [n]-th send of a run stays pending, the transport never gets a message
    after it; and once the consumer stands in that send, however the run
    goes on, it does not move again (it can only be cancelled), nothing more
    is taken from the queue, and the producer can put at most the four
    further items that the queue has room for. *)
Theorem pending_send_stalls_the_pipeline (lib : ImagingLib) (pk : Packing)
    (w : World) (args : Args) (sched : list Task) (n : nat) :
  tr_send_pends w n = true ->
  let s := run lib pk w sched (initial args) in
  (length (sends (trace s)) <= n)%nat
  /\ (length (sends (trace s)) = n -> in_send s ->
      step_consumer lib pk w s = None
      /\ forall rest : list Task,
           let s' := run lib pk w rest s in
           sends (trace s') = sends (trace s)
           /\ gets (trace s') = gets (trace s)
           /\ (length (puts (trace s')) <= length (gets (trace s)) + 4)%nat
           /\ (consumer s' = consumer s
               \/ consumer s' = C_Raised CancelledError)).
Proof.
  intros Hpend s. split; [by apply sends_stop_at_pending|].
  intros Hlen Hin. split; [by eapply pending_send_blocks|].
  intros rest s'.
  destruct (stalled_consumer_stays lib pk w args n sched rest Hpend Hlen Hin)
    as (Hs & Hg & Hc).
  fold s in Hs, Hg, Hc. fold s' in Hs, Hg, Hc.
  split_and!; try done.
  destruct (reachable_inv lib pk w args (sched ++ rest)) as [_ _ Hq _ _ _].
  unfold run in Hq. rewrite fold_left_app in Hq.
  fold (run lib pk w sched (initial args)) in Hq. fold s in Hq.
  fold (run lib pk w rest s) in Hq. fold s' in Hq.
  destruct Hq as [Hfifo Hcap]. unfold QUEUE_MAXSIZE in Hcap.
  rewrite Hfifo, length_app, Hg. lia.
Qed.

Lemma pending_send_stalls_the_pipeline_witness :
  let s := run imaging_model packing_model (world_stalled (clip 12))
               (round_robin 40) (initial demo_args) in
  (length (sends (trace s)) <= 1)%nat.
Proof.
  intros s.
  exact (proj1 (pending_send_stalls_the_pipeline imaging_model packing_model
                  (world_stalled (clip 12)) demo_args (round_robin 40) 1
                  eq_refl)).
Defined.

(** The stall at work: the second send stays pending; the consumer stands
    in it with one message out, the producer waits to put on the full
    queue, and [stream] is still in [gather]. *)
Example stalled_run :
  let s := run imaging_model packing_model (world_stalled (clip 12))
               (round_robin 40) (initial demo_args) in
  length (sends (trace s)) = 1%nat
  /\ length (gets (trace s)) = 1%nat
  /\ length (puts (trace s)) = 5%nat
  /\ queue_full (queue s) = true
  /\ step_producer imaging_model (world_stalled (clip 12)) s = None
  /\ step_consumer imaging_model packing_model (world_stalled (clip 12)) s = None
  /\ main_pc s = M_Gather.
Proof. cbv zeta. split_and!; vm_compute; reflexivity. Qed.
